(** * Traefik JWT decoder plugin: claim extraction and header injection

    A shallow embedding of the plugin's Go sources ([headers.go],
    [claims.go], [jwt.go], [config.go] and the [ServeHTTP] handler)
    together with the parts of the Go standard library (Go 1.21, the
    version the plugin is built with) they call: [unicode/utf8],
    [unicode], [strings], [encoding/base64], [net/textproto], [net/http].
    [encoding/json], the Unicode case tables and the formatting of
    floating-point numbers are not modelled: the plugin is parametrized
    by them.

    Go strings are byte sequences: they are [string] values at the level
    of the plugin and [list ascii] inside the models of the library
    routines that walk them byte by byte.  Go [int] values are modelled
    by [Z]; the plugin only compares them. *)

From Stdlib Require Import ZArith Lia Bool Ascii String List Floats DecimalString.
From stdpp Require Import base gmap strings list.

Local Open Scope Z_scope.

(** ** Bytes *)

Definition byteZ (c : ascii) : Z := Z.of_N (N_of_ascii c).

(** Go's conversion [byte(x)]: truncation to the low eight bits. *)
Definition Zbyte (z : Z) : ascii := ascii_of_N (Z.to_N (Z.land z 0xFF)).

Definition bytes (s : string) : list ascii := list_ascii_of_string s.
Definition str (p : list ascii) : string := string_of_list_ascii p.

(** [len(s)] *)
Definition len (s : string) : Z := Z.of_nat (String.length s).

(** [p[i]] for an index already known to be in range. *)
Definition at_index (p : list ascii) (i : Z) : Z :=
  match p !! Z.to_nat i with
  | Some c => byteZ c
  | None => 0
  end.

(** ** [unicode/utf8] *)

Module utf8.

Definition RuneError : Z := 0xFFFD.
Definition RuneSelf : Z := 0x80.
Definition MaxRune : Z := 0x10FFFF.
Definition UTFMax : Z := 4.

Definition surrogateMin : Z := 0xD800.
Definition surrogateMax : Z := 0xDFFF.

Definition t2 : Z := 0xC0.
Definition t3 : Z := 0xE0.
Definition t4 : Z := 0xF0.
Definition tx : Z := 0x80.
Definition maskx : Z := 0x3F.
Definition mask2 : Z := 0x1F.
Definition mask3 : Z := 0x0F.
Definition mask4 : Z := 0x07.

Definition rune1Max : Z := 0x7F.
Definition rune2Max : Z := 0x7FF.
Definition rune3Max : Z := 0xFFFF.

Definition locb : Z := 0x80.
Definition hicb : Z := 0xBF.

(** The [first] and [acceptRanges] tables, for a leading byte that is
    not ASCII: the length of the sequence it starts and the range its
    second byte must lie in; [None] for a byte that starts nothing. *)
Definition first (s0 : Z) : option (nat * Z * Z) :=
  if s0 <? 0xC2 then None
  else if s0 <? 0xE0 then Some (2%nat, locb, hicb)
  else if s0 =? 0xE0 then Some (3%nat, 0xA0, hicb)
  else if s0 =? 0xED then Some (3%nat, locb, 0x9F)
  else if s0 <? 0xF0 then Some (3%nat, locb, hicb)
  else if s0 =? 0xF0 then Some (4%nat, 0x90, hicb)
  else if s0 <? 0xF4 then Some (4%nat, locb, hicb)
  else if s0 =? 0xF4 then Some (4%nat, locb, 0x8F)
  else None.

(** The rune assembled from the bytes of a sequence of two, three and
    four bytes. *)
Definition dec2 (s0 s1 : Z) : Z :=
  Z.lor (Z.shiftl (Z.land s0 mask2) 6) (Z.land s1 maskx).

Definition dec3 (s0 s1 s2 : Z) : Z :=
  Z.lor (Z.lor (Z.shiftl (Z.land s0 mask3) 12) (Z.shiftl (Z.land s1 maskx) 6))
        (Z.land s2 maskx).

Definition dec4 (s0 s1 s2 s3 : Z) : Z :=
  Z.lor (Z.lor (Z.lor (Z.shiftl (Z.land s0 mask4) 18)
                      (Z.shiftl (Z.land s1 maskx) 12))
               (Z.shiftl (Z.land s2 maskx) 6))
        (Z.land s3 maskx).

(** [DecodeRuneInString]: the first rune of [p] and its width in bytes;
    [(RuneError, 1)] for an encoding that is invalid, [(RuneError, 0)]
    for the empty string. *)
Definition DecodeRune (p : list ascii) : Z * nat :=
  match p with
  | [] => (RuneError, 0%nat)
  | c0 :: p1 =>
    let s0 := byteZ c0 in
    if s0 <? RuneSelf then (s0, 1%nat)
    else match first s0 with
    | None => (RuneError, 1%nat)
    | Some (sz, lo, hi) =>
      if (length p <? sz)%nat then (RuneError, 1%nat)
      else match p1 with
      | [] => (RuneError, 1%nat)
      | c1 :: p2 =>
        let s1 := byteZ c1 in
        if (s1 <? lo) || (hi <? s1) then (RuneError, 1%nat)
        else if (sz <=? 2)%nat then (dec2 s0 s1, 2%nat)
        else match p2 with
        | [] => (RuneError, 1%nat)
        | c2 :: p3 =>
          let s2 := byteZ c2 in
          if (s2 <? locb) || (hicb <? s2) then (RuneError, 1%nat)
          else if (sz <=? 3)%nat then (dec3 s0 s1 s2, 3%nat)
          else match p3 with
          | [] => (RuneError, 1%nat)
          | c3 :: _ =>
            let s3 := byteZ c3 in
            if (s3 <? locb) || (hicb <? s3) then (RuneError, 1%nat)
            else (dec4 s0 s1 s2 s3, 4%nat)
          end
        end
      end
    end
  end.

(** What [DecodeRune] returns, read off its argument. *)
Inductive decoded : list ascii -> Z -> nat -> Prop :=
| decoded_empty : decoded [] RuneError 0
| decoded_1 c0 rest :
    byteZ c0 < 0x80 -> decoded (c0 :: rest) (byteZ c0) 1
| decoded_2 c0 c1 rest :
    0xC2 <= byteZ c0 <= 0xDF -> 0x80 <= byteZ c1 <= 0xBF ->
    decoded (c0 :: c1 :: rest) (dec2 (byteZ c0) (byteZ c1)) 2
| decoded_3 c0 c1 c2 rest :
    0xE0 <= byteZ c0 <= 0xEF -> 0x80 <= byteZ c1 <= 0xBF ->
    (byteZ c0 = 0xE0 -> 0xA0 <= byteZ c1) ->
    (byteZ c0 = 0xED -> byteZ c1 <= 0x9F) ->
    0x80 <= byteZ c2 <= 0xBF ->
    decoded (c0 :: c1 :: c2 :: rest) (dec3 (byteZ c0) (byteZ c1) (byteZ c2)) 3
| decoded_4 c0 c1 c2 c3 rest :
    0xF0 <= byteZ c0 <= 0xF4 -> 0x80 <= byteZ c1 <= 0xBF ->
    (byteZ c0 = 0xF0 -> 0x90 <= byteZ c1) ->
    (byteZ c0 = 0xF4 -> byteZ c1 <= 0x8F) ->
    0x80 <= byteZ c2 <= 0xBF -> 0x80 <= byteZ c3 <= 0xBF ->
    decoded (c0 :: c1 :: c2 :: c3 :: rest)
            (dec4 (byteZ c0) (byteZ c1) (byteZ c2) (byteZ c3)) 4
| decoded_invalid c0 rest :
    0x80 <= byteZ c0 -> decoded (c0 :: rest) RuneError 1.

(** [ValidRune]: the rune can be encoded, that is, it is in range and
    not a surrogate half. *)
Definition ValidRune (r : Z) : bool :=
  ((0 <=? r) && (r <? surrogateMin)) || ((surrogateMax <? r) && (r <=? MaxRune)).

Definition encode3 (r : Z) : list ascii :=
  [Zbyte (Z.lor t3 (Z.shiftr r 12));
   Zbyte (Z.lor tx (Z.land (Z.shiftr r 6) maskx));
   Zbyte (Z.lor tx (Z.land r maskx))].

Definition encode4 (r : Z) : list ascii :=
  [Zbyte (Z.lor t4 (Z.shiftr r 18));
   Zbyte (Z.lor tx (Z.land (Z.shiftr r 12) maskx));
   Zbyte (Z.lor tx (Z.land (Z.shiftr r 6) maskx));
   Zbyte (Z.lor tx (Z.land r maskx))].

(** [AppendRune] on an empty buffer: the UTF-8 encoding of [r]; a rune
    out of range or a surrogate half is written as [RuneError].  The
    comparisons are made on [uint32(r)]. *)
Definition EncodeRune (r : Z) : list ascii :=
  let i := r mod 2 ^ 32 in
  if i <=? rune1Max then [Zbyte r]
  else if i <=? rune2Max then
    [Zbyte (Z.lor t2 (Z.shiftr r 6)); Zbyte (Z.lor tx (Z.land r maskx))]
  else if (MaxRune <? i) || ((surrogateMin <=? i) && (i <=? surrogateMax))
  then encode3 RuneError
  else if i <=? rune3Max then encode3 r
  else encode4 r.

(** [RuneLen]: the number of bytes of the encoding of [r], [-1] for a
    rune that has none. *)
Definition RuneLen (r : Z) : Z :=
  if r <? 0 then -1
  else if r <=? rune1Max then 1
  else if r <=? rune2Max then 2
  else if (surrogateMin <=? r) && (r <=? surrogateMax) then -1
  else if r <=? rune3Max then 3
  else if r <=? MaxRune then 4
  else -1.

(** [RuneStart]: the byte is not a continuation byte. *)
Definition RuneStart (b : Z) : bool := negb (Z.land b 0xC0 =? 0x80).

(** The loop of [DecodeLastRuneInString] that walks back from [start]
    to the nearest byte that can start a rune, no further than [lim]. *)
Fixpoint back_scan (fuel : nat) (p : list ascii) (start lim : Z) : Z :=
  match fuel with
  | O => start
  | S fuel' =>
    if start <? lim then start
    else if RuneStart (at_index p start) then start
    else back_scan fuel' p (start - 1) lim
  end.

(** [DecodeLastRuneInString] *)
Definition DecodeLastRune (p : list ascii) : Z * nat :=
  let end_ := Z.of_nat (length p) in
  if end_ =? 0 then (RuneError, 0%nat)
  else
    let start := end_ - 1 in
    let r := at_index p start in
    if r <? RuneSelf then (r, 1%nat)
    else
      let lim := Z.max 0 (end_ - UTFMax) in
      let start := back_scan 4 p (start - 1) lim in
      let start := Z.max 0 start in
      let '(r, size) := DecodeRune (drop (Z.to_nat start) p) in
      if negb (start + Z.of_nat size =? end_) then (RuneError, 1%nat)
      else (r, size).

(** The runes a [for i, c := range s] loop visits, each with the width
    of the bytes it was read from.  [skip] counts the bytes that still
    belong to the rune read last. *)
Fixpoint range_from (skip : nat) (p : list ascii) : list (Z * nat) :=
  match p with
  | [] => []
  | _ :: p' =>
    match skip with
    | S k => range_from k p'
    | O => let '(r, w) := DecodeRune p in (r, w) :: range_from (w - 1) p'
    end
  end.

Definition range (p : list ascii) : list (Z * nat) := range_from 0 p.

(** [ValidString]: no byte of [p] is read as an invalid encoding. *)
Definition ValidString (p : list ascii) : bool :=
  forallb (fun cw => negb ((cw.1 =? RuneError) && (cw.2 =? 1)%nat)) (range p).

(** The conversion [string(rs)] of a slice of runes: their encodings,
    one after the other. *)
Definition string_of_runes (rs : list Z) : list ascii := flat_map EncodeRune rs.

End utf8.

(** ** [unicode] *)

Module unicode.

Definition MaxLatin1 : Z := 0xFF.

(** [IsSpace]: the Latin-1 cases of the source, then the [White_Space]
    range table. *)
Definition IsSpace (r : Z) : bool :=
  if r mod 2 ^ 32 <=? MaxLatin1 then
    (r =? 0x09) || (r =? 0x0A) || (r =? 0x0B) || (r =? 0x0C) || (r =? 0x0D)
    || (r =? 0x20) || (r =? 0x85) || (r =? 0xA0)
  else
    (r =? 0x1680) || ((0x2000 <=? r) && (r <=? 0x200A))
    || (r =? 0x2028) || (r =? 0x2029) || (r =? 0x202F) || (r =? 0x205F)
    || (r =? 0x3000).

Definition MaxASCII : Z := 0x7F.

(** [ToLower].  The case-range table consulted for a rune above
    [MaxASCII] is an argument: [to_lower_case r] stands for
    [unicode.To(unicode.LowerCase, r)]. *)
Definition ToLower (to_lower_case : Z -> Z) (r : Z) : Z :=
  if r <=? MaxASCII then
    (if (0x41 <=? r) && (r <=? 0x5A) then r + (0x61 - 0x41) else r)
  else to_lower_case r.

End unicode.

(** ** [strings]: the routines, on byte sequences *)

Module bytealg.

Import utf8.

(** What [Builder.WriteRune] appends for the result [r] of a mapping
    function; a negative result drops the character. *)
Definition write_mapped (r : Z) : list ascii :=
  if 0 <=? r then EncodeRune r else [].

(** First loop of [strings.Map]: the index of the first character the
    mapping changes (or that is an invalid byte), the rune to write in
    its place and the number of bytes it replaces. *)
Fixpoint first_change (mapping : Z -> Z) (skip i : nat) (p : list ascii)
  : option (nat * Z * Z) :=
  match p with
  | [] => None
  | _ :: p' =>
    match skip with
    | S k => first_change mapping k (S i) p'
    | O =>
      let '(c, w) := DecodeRune p in
      let r := mapping c in
      if (r =? c) && negb (c =? RuneError) then
        first_change mapping (w - 1) (S i) p'
      else if (c =? RuneError) && negb (Z.of_nat w =? 1) && (r =? c) then
        first_change mapping (w - 1) (S i) p'
      else
        Some (i, r, if c =? RuneError then Z.of_nat w else RuneLen c)
    end
  end.

(** [strings.Map] *)
Definition Map (mapping : Z -> Z) (s : list ascii) : list ascii :=
  match first_change mapping 0 0 s with
  | None => s
  | Some (i, r, width) =>
    take i s ++ write_mapped r
      ++ flat_map (fun cw => write_mapped (mapping (fst cw)))
                  (range (drop (i + Z.to_nat width) s))
  end.

Definition isUpperASCII (c : ascii) : bool :=
  (0x41 <=? byteZ c) && (byteZ c <=? 0x5A).

Definition lowerASCII (c : ascii) : ascii :=
  if isUpperASCII c then Zbyte (byteZ c + (0x61 - 0x41)) else c.

(** [strings.ToLower]: a byte-wise pass over an ASCII string, [Map]
    with [unicode.ToLower] otherwise. *)
Definition ToLower (to_lower_case : Z -> Z) (s : list ascii) : list ascii :=
  if forallb (fun c => byteZ c <? RuneSelf) s then
    (if existsb isUpperASCII s then map lowerASCII s else s)
  else Map (unicode.ToLower to_lower_case) s.

(** The [asciiSpace] table. *)
Definition asciiSpace (c : Z) : bool :=
  (c =? 0x09) || (c =? 0x0A) || (c =? 0x0B) || (c =? 0x0C) || (c =? 0x0D)
  || (c =? 0x20).

(** [indexFunc]: index of the first rune [r] with [f r = truth];
    [None] stands for [-1]. *)
Fixpoint indexFunc_from (f : Z -> bool) (truth : bool) (skip i : nat)
    (p : list ascii) : option nat :=
  match p with
  | [] => None
  | _ :: p' =>
    match skip with
    | S k => indexFunc_from f truth k (S i) p'
    | O =>
      let '(r, w) := DecodeRune p in
      if Bool.eqb (f r) truth then Some i
      else indexFunc_from f truth (w - 1) (S i) p'
    end
  end.

Definition indexFunc (s : list ascii) (f : Z -> bool) (truth : bool)
  : option nat := indexFunc_from f truth 0 0 s.

(** [lastIndexFunc]: the loop [for i := len(s); i > 0; ...] reading
    runes from the end; every turn lowers [i], so [length s] turns are
    enough. *)
Fixpoint lastIndexFunc_from (fuel : nat) (s : list ascii) (f : Z -> bool)
    (truth : bool) (i : nat) : option nat :=
  match fuel with
  | O => None
  | S fuel' =>
    if (i =? 0)%nat then None
    else
      let '(r, size) := DecodeLastRune (take i s) in
      let i' := (i - size)%nat in
      if Bool.eqb (f r) truth then Some i'
      else lastIndexFunc_from fuel' s f truth i'
  end.

Definition lastIndexFunc (s : list ascii) (f : Z -> bool) (truth : bool)
  : option nat := lastIndexFunc_from (length s) s f truth (length s).

Definition TrimLeftFunc (s : list ascii) (f : Z -> bool) : list ascii :=
  match indexFunc s f false with
  | None => []
  | Some i => drop i s
  end.

Definition TrimRightFunc (s : list ascii) (f : Z -> bool) : list ascii :=
  match lastIndexFunc s f false with
  | Some i =>
    if RuneSelf <=? at_index s (Z.of_nat i) then
      let '(_, wid) := DecodeRune (drop i s) in take (i + wid) s
    else take (i + 1) s
  | None => take 0 s
  end.

Definition TrimFunc (s : list ascii) (f : Z -> bool) : list ascii :=
  TrimRightFunc (TrimLeftFunc s f) f.

(** Second loop of [strings.TrimSpace], on [s[start:]]: [stop] walks
    down over trailing ASCII white space. *)
Fixpoint TrimSpace_stop (stop : nat) (s : list ascii) : list ascii :=
  match stop with
  | O => []
  | S stop' =>
    let c := at_index s (Z.of_nat stop') in
    if RuneSelf <=? c then TrimRightFunc (take stop s) unicode.IsSpace
    else if asciiSpace c then TrimSpace_stop stop' s
    else take stop s
  end.

(** [strings.TrimSpace]: the first loop walks [start] up over leading
    ASCII white space and hands over to the rune-wise [TrimFunc] at the
    first byte that is not ASCII. *)
Fixpoint TrimSpace (s : list ascii) : list ascii :=
  match s with
  | [] => []
  | c :: s' =>
    if RuneSelf <=? byteZ c then TrimFunc s unicode.IsSpace
    else if asciiSpace (byteZ c) then TrimSpace s'
    else TrimSpace_stop (length s) s
  end.

(** White space trimmed off a sequence of runes, at the front and at
    both ends; this is what [TrimSpace] does to a string of valid
    encodings. *)
Fixpoint drop_spaces (rs : list Z) : list Z :=
  match rs with
  | [] => []
  | r :: rs' => if unicode.IsSpace r then drop_spaces rs' else rs
  end.

Definition drop_spaces_right (rs : list Z) : list Z :=
  reverse (drop_spaces (reverse rs)).

Definition trim_runes (rs : list Z) : list Z :=
  drop_spaces_right (drop_spaces rs).

(** The result of [Map], rune by rune. *)
Definition mapped (mapping : Z -> Z) (p : list ascii) : list ascii :=
  flat_map (fun cw => write_mapped (mapping cw.1)) (range p).

End bytealg.

(** ** [strings]: the package, on strings *)

Module strings.

Definition Map (mapping : Z -> Z) (s : string) : string :=
  str (bytealg.Map mapping (bytes s)).

Definition TrimSpace (s : string) : string :=
  str (bytealg.TrimSpace (bytes s)).

Definition ToLower (to_lower_case : Z -> Z) (s : string) : string :=
  str (bytealg.ToLower to_lower_case (bytes s)).

(** [strings.Split(s, sep)] for a separator of one byte. *)
Fixpoint Split (s : string) (sep : ascii) : list string :=
  match s with
  | EmptyString => [EmptyString]
  | String c s' =>
    if Ascii.eqb c sep then EmptyString :: Split s' sep
    else match Split s' sep with
         | h :: t => String c h :: t
         | [] => [String c EmptyString]
         end
  end.

(** [strings.Join] *)
Definition Join (elems : list string) (sep : string) : string :=
  String.concat sep elems.

(** [strings.HasPrefix] *)
Definition HasPrefix (s prefix : string) : bool := String.prefix prefix s.

(** [strings.TrimPrefix] *)
Definition TrimPrefix (s prefix : string) : string :=
  if HasPrefix s prefix
  then String.substring (String.length prefix)
                        (String.length s - String.length prefix) s
  else s.

End strings.

(** ** [encoding/base64]: [RawURLEncoding] *)

Module base64.

Definition encodeURL : list ascii :=
  bytes "ABCDEFGHIJKLMNOPQRSTUVWXYZabcdefghijklmnopqrstuvwxyz0123456789-_".

(** [enc.encode[v]] *)
Definition encode (v : Z) : ascii :=
  nth (Z.to_nat v) encodeURL "A"%char.

Fixpoint index_of (c : ascii) (alphabet : list ascii) (i : Z) : Z :=
  match alphabet with
  | [] => 0xFF
  | a :: rest => if Ascii.eqb a c then i else index_of c rest (i + 1)
  end.

(** [enc.decodeMap[c]]: the position of [c] in the alphabet, [0xFF] for
    a byte outside it. *)
Definition decodeMap (c : ascii) : Z := index_of c encodeURL 0.

(** [Encode] without padding: three bytes give four characters, a last
    block of one or two bytes gives two or three. *)
Fixpoint Encode (src : list ascii) : list ascii :=
  match src with
  | [] => []
  | [a] =>
    let val := Z.shiftl (byteZ a) 16 in
    [encode (Z.land (Z.shiftr val 18) 0x3F);
     encode (Z.land (Z.shiftr val 12) 0x3F)]
  | [a; b] =>
    let val := Z.lor (Z.shiftl (byteZ a) 16) (Z.shiftl (byteZ b) 8) in
    [encode (Z.land (Z.shiftr val 18) 0x3F);
     encode (Z.land (Z.shiftr val 12) 0x3F);
     encode (Z.land (Z.shiftr val 6) 0x3F)]
  | a :: b :: c :: rest =>
    let val := Z.lor (Z.lor (Z.shiftl (byteZ a) 16) (Z.shiftl (byteZ b) 8))
                     (byteZ c) in
    encode (Z.land (Z.shiftr val 18) 0x3F)
    :: encode (Z.land (Z.shiftr val 12) 0x3F)
    :: encode (Z.land (Z.shiftr val 6) 0x3F)
    :: encode (Z.land val 0x3F)
    :: Encode rest
  end.

(** The six-bit values of the input characters.  Carriage returns and
    line feeds are skipped; any other byte outside the alphabet is a
    [CorruptInputError] ([None]). *)
Fixpoint sextets (src : list ascii) : option (list Z) :=
  match src with
  | [] => Some []
  | c :: rest =>
    let out := decodeMap c in
    if negb (out =? 0xFF) then
      match sextets rest with Some ds => Some (out :: ds) | None => None end
    else if (byteZ c =? 0x0A) || (byteZ c =? 0x0D) then sextets rest
    else None
  end.

(** [decodeQuantum], quantum after quantum: four six-bit values give
    three bytes; the input may end after two or three values of a
    quantum (no padding, trailing bits ignored) but not after one. *)
Fixpoint quanta (ds : list Z) : option (list ascii) :=
  match ds with
  | [] => Some []
  | [_] => None
  | [d0; d1] =>
    let val := Z.lor (Z.shiftl d0 18) (Z.shiftl d1 12) in
    Some [Zbyte (Z.shiftr val 16)]
  | [d0; d1; d2] =>
    let val := Z.lor (Z.lor (Z.shiftl d0 18) (Z.shiftl d1 12))
                     (Z.shiftl d2 6) in
    Some [Zbyte (Z.shiftr val 16); Zbyte (Z.shiftr val 8)]
  | d0 :: d1 :: d2 :: d3 :: rest =>
    let val := Z.lor (Z.lor (Z.lor (Z.shiftl d0 18) (Z.shiftl d1 12))
                            (Z.shiftl d2 6)) d3 in
    match quanta rest with
    | Some out =>
      Some (Zbyte (Z.shiftr val 16) :: Zbyte (Z.shiftr val 8)
            :: Zbyte val :: out)
    | None => None
    end
  end.

(** The six-bit values [Encode] writes the characters of. *)
Fixpoint values (src : list ascii) : list Z :=
  match src with
  | [] => []
  | [a] =>
    let val := byteZ a * 65536 in
    [val / 262144 mod 64; val / 4096 mod 64]
  | [a; b] =>
    let val := byteZ a * 65536 + byteZ b * 256 in
    [val / 262144 mod 64; val / 4096 mod 64; val / 64 mod 64]
  | a :: b :: c :: rest =>
    let val := byteZ a * 65536 + byteZ b * 256 + byteZ c in
    val / 262144 mod 64 :: val / 4096 mod 64 :: val / 64 mod 64 :: val mod 64
    :: values rest
  end.

(** [RawURLEncoding.EncodeToString] *)
Definition EncodeToString (src : string) : string := str (Encode (bytes src)).

(** [RawURLEncoding.DecodeString]; [None] when it returns an error. *)
Definition DecodeString (s : string) : option string :=
  match sextets (bytes s) with
  | Some ds => match quanta ds with Some out => Some (str out) | None => None end
  | None => None
  end.

End base64.

(** ** [net/textproto] and [net/http]: the header collection *)

Module textproto.

Definition isLetter (lo : Z) (c : Z) : bool := (lo <=? c) && (c <=? lo + 25).

(** [validHeaderFieldByte]: the token characters of RFC 7230. *)
Definition validHeaderFieldByte (c : ascii) : bool :=
  let b := byteZ c in
  ((0x30 <=? b) && (b <=? 0x39)) || isLetter 0x61 b || isLetter 0x41 b
  || existsb (Ascii.eqb c) (bytes "!#$%&'*+-.^_`|~").

(** The canonicalising pass: upper case at the start and after each
    hyphen, lower case elsewhere. *)
Fixpoint canonical (upper : bool) (a : list ascii) : list ascii :=
  match a with
  | [] => []
  | c :: rest =>
    let b := byteZ c in
    let c' := if upper && isLetter 0x61 b then Zbyte (b - 0x20)
              else if negb upper && isLetter 0x41 b then Zbyte (b + 0x20)
              else c in
    c' :: canonical (byteZ c' =? 0x2D) rest
  end.

(** [CanonicalMIMEHeaderKey]: a key holding a byte that is not a token
    character (a space included) is returned unchanged. *)
Definition CanonicalMIMEHeaderKey (s : string) : string :=
  if forallb validHeaderFieldByte (bytes s)
  then str (canonical true (bytes s))
  else s.

End textproto.

Module http.

Definition StatusUnauthorized : Z := 401.

(** [http.Header]: [map[string][]string] under canonical keys. *)
Abbreviation Header := (gmap string (list string)).

Definition Get (h : Header) (key : string) : string :=
  match h !! textproto.CanonicalMIMEHeaderKey key with
  | Some (v :: _) => v
  | _ => EmptyString
  end.

Definition Set_ (h : Header) (key value : string) : Header :=
  <[textproto.CanonicalMIMEHeaderKey key := [value]]> h.

Definition Del (h : Header) (key : string) : Header :=
  delete (textproto.CanonicalMIMEHeaderKey key) h.

(** The part of [*http.Request] the plugin reads and writes.  [Host]
    is a field of its own, outside the header collection. *)
Record Request : Type := mkRequest {
  Host : string;
  Header_ : Header
}.

(** What a handler has done to its [http.ResponseWriter]: the headers
    set on it, the status written, and the documents handed to a JSON
    encoder writing to it. *)
Record ResponseWriter : Type := mkResponseWriter {
  rwHeader : Header;
  rwStatus : option Z;
  rwJSON : list (gmap string string)
}.

Definition newResponseWriter : ResponseWriter :=
  {| rwHeader := ∅; rwStatus := None; rwJSON := [] |}.

End http.

(** ** Dynamic values

    What an [interface{}] holds where the plugin switches on its type:
    the values [encoding/json] decodes into ([nil], [string], [bool],
    [float64], [[]interface{}], [map[string]interface{}]), an [int], and
    any other Go value, kept as the text [fmt.Sprintf("%v", v)] gives
    for it. *)

#[warnings="-register-all"]
Inductive Value : Type :=
| VNil
| VString (s : string)
| VBool (b : bool)
| VFloat (f : float)
| VInt (n : Z)
| VArray (l : list Value)
| VObject (m : gmap string Value)
| VOther (rendered : string).

(** ** Errors

    The plugin builds its errors with [fmt.Errorf]; each constructor is
    one of its messages, with the values formatted into it. *)

Inductive error : Type :=
| ErrHeaderTooLarge (maxSize : Z)     (* header value exceeds maximum size (%d bytes) *)
| ErrDepthExceeded (maxDepth : Z)     (* claim path depth exceeds maximum (%d) *)
| ErrClaimNotFound (path : string)    (* claim not found: %s *)
| ErrNotAnObject (part : string)      (* invalid claim path: '%s' is not an object *)
| ErrSegmentCount (got : nat)         (* invalid JWT format: expected 3 segments, got %d *)
| ErrEncoding                         (* invalid JWT encoding: %v *)
| ErrJSON                             (* invalid JWT JSON: %v *)
| ErrMissingAlg                       (* invalid JWT header: missing required 'alg' field *)
| ErrMarshalArray                     (* failed to marshal array to JSON: %w *)
| ErrMarshalObject                    (* failed to marshal object to JSON: %w *)
| ErrNoClaims                         (* claims array cannot be empty *)
| ErrNoClaimPath (i : nat)            (* claim mapping %d: claimPath is required *)
| ErrNoHeaderName (i : nat)           (* claim mapping %d: headerName is required *)
| ErrArrayFormat (i : nat) (format : string)
                                      (* claim mapping %d: invalid arrayFormat '%s', ... *)
| ErrDuplicateHeader (name : string)  (* duplicate headerName: %s *)
| ErrNoSections                       (* sections array cannot be empty *)
| ErrSection (section : string)       (* invalid section '%s', must be 'header' or 'payload' *)
| ErrMaxClaimDepth                    (* maxClaimDepth must be greater than 0 *)
| ErrMaxHeaderSize                    (* maxHeaderSize must be greater than 0 *)
| ErrLogLevel (level : string).       (* invalid logLevel '%s', ... *)

Inductive result (A : Type) : Type :=
| Ok (a : A)
| Err (e : error).

Arguments Ok {A} a.
Arguments Err {A} e.

Definition is_ok {A} (r : result A) : bool :=
  match r with Ok _ => true | Err _ => false end.

(** ** [strconv] *)

Module strconv.

Definition FormatBool (b : bool) : string := if b then "true" else "false".

(** [Itoa]: the decimal text of an [int]. *)
Definition Itoa (n : Z) : string :=
  DecimalString.NilZero.string_of_int (Z.to_int n).

End strconv.

(** ** Configuration *)

Record ClaimMapping : Type := mkClaimMapping {
  ClaimPath : string;
  HeaderName : string;
  Override : bool;
  ArrayFormat : string
}.

Record Config : Type := mkConfig {
  SourceHeader : string;
  TokenPrefix : string;
  Claims : list ClaimMapping;
  Sections : list string;
  ContinueOnError : bool;
  RemoveSourceHeader : bool;
  MaxClaimDepth : Z;
  MaxHeaderSize : Z;
  LogLevel : string;
  StrictMode : bool;
  LogMissingClaims : bool
}.

(** [CreateConfig]: the defaults. *)
Definition CreateConfig : Config := {|
  SourceHeader := "Authorization";
  TokenPrefix := "Bearer ";
  Claims := [];
  Sections := ["payload"];
  ContinueOnError := true;
  RemoveSourceHeader := false;
  MaxClaimDepth := 10;
  MaxHeaderSize := 8192;
  LogLevel := "warn";
  StrictMode := false;
  LogMissingClaims := false
|}.

(** [JWT]: the decoded token. *)
Record JWT : Type := mkJWT {
  Header : gmap string Value;
  Payload : gmap string Value;
  Signature : string
}.

(** What [ServeHTTP] leaves behind: either it has called
    [j.next.ServeHTTP(rw, req)] with the request in the given state, or it
    has returned without calling it, after writing to [rw]. *)
Inductive Outcome : Type :=
| Forwarded (req : http.Request)
| Rejected (req : http.Request) (rw : http.ResponseWriter).

(** ** The plugin *)

(** The mapping function [SanitizeHeaderValue] hands to [strings.Map]:
    control characters are dropped. *)
Definition is_control (r : Z) : bool := (r <? 0x20) || (r =? 0x7F).

Definition strip (r : Z) : Z := if is_control r then -1 else r.

(** The runes of [p] that are not control characters, and those of them
    that are left once white space is trimmed at both ends. *)
Definition printable_runes (p : list ascii) : list Z :=
  filter (fun r => is_control r = false) (map fst (utf8.range p)).

Definition sanitized_runes (p : list ascii) : list Z :=
  bytealg.trim_runes (printable_runes p).

(** A document nested [n] objects deep under the key [a], and the path
    of [n + 1] segments that leads to its leaf. *)
Fixpoint nested_doc (n : nat) : gmap string Value :=
  match n with
  | O => {[ "a" := VString "leaf" ]}
  | S k => {[ "a" := VObject (nested_doc k) ]}
  end.

Fixpoint nested_path (n : nat) : string :=
  match n with
  | O => "a"
  | S k => String "a" (String "." (nested_path k))
  end.

Section Plugin.

(** The routines of the Go runtime library that are taken as given:
    - [to_lower_case r] is [unicode.To(unicode.LowerCase, r)], the lookup
      in the Unicode case tables for a rune above [MaxASCII];
    - [json_Unmarshal data] is [json.Unmarshal(data, &m)] for
      [m map[string]interface{}], [None] when it returns an error;
    - [json_Marshal v] is [json.Marshal(v)], [None] when it returns an
      error;
    - [strconv_FormatFloat f] is [strconv.FormatFloat(f, 'f', -1, 64)]. *)
Variable to_lower_case : Z -> Z.
Variable json_Unmarshal : string -> option (gmap string Value).
Variable json_Marshal : Value -> option string.
Variable strconv_FormatFloat : float -> string.

(** *** headers.go *)

Definition protectedHeaders : gmap string bool :=
  list_to_map
    [ ("host", true);
      ("x-forwarded-for", true);
      ("x-forwarded-host", true);
      ("x-forwarded-proto", true);
      ("x-forwarded-port", true);
      ("x-real-ip", true);
      ("content-length", true);
      ("content-type", true);
      ("transfer-encoding", true) ].

(** The keys of [protectedHeaders]. *)
Definition protected_names : list string :=
  ["host"; "x-forwarded-for"; "x-forwarded-host"; "x-forwarded-proto";
   "x-forwarded-port"; "x-real-ip"; "content-length"; "content-type";
   "transfer-encoding"].

Definition IsProtectedHeader (name : string) : bool :=
  let normalized := strings.ToLower to_lower_case name in
  default false (protectedHeaders !! normalized).

Definition SanitizeHeaderValue (value : string) (maxSize : Z) : result string :=
  if len value >? maxSize then Err (ErrHeaderTooLarge maxSize)
  else
    let sanitized :=
      strings.Map (fun r => if (r <? 0x20) || (r =? 0x7F) then -1 else r)
                  value in
    let sanitized := strings.TrimSpace sanitized in
    Ok sanitized.

(** [InjectHeader] mutates [req.Header] in place: the request after the
    call is returned next to the error ([None] for [nil]). *)
Definition InjectHeader (req : http.Request) (name value : string)
    (override : bool) (maxSize : Z) : http.Request * option error :=
  if IsProtectedHeader name then (req, None)
  else
    match SanitizeHeaderValue value maxSize with
    | Err err => (req, Some err)
    | Ok sanitized =>
      let existing := http.Get (http.Header_ req) name in
      if negb (String.eqb existing "") && negb override then (req, None)
      else
        ({| http.Host := http.Host req;
            http.Header_ := http.Set_ (http.Header_ req) name sanitized |},
         None)
    end.

(** *** claims.go *)

(** The loop [for i, part := range parts] of [ExtractClaim]. *)
Fixpoint ExtractClaim_loop (current : gmap string Value) (path : string)
    (parts : list string) : result Value :=
  match parts with
  | [] => Err (ErrClaimNotFound path)
  | part :: rest =>
    match current !! part with
    | None => Err (ErrClaimNotFound path)
    | Some value =>
      match rest with
      | [] => Ok value
      | _ :: _ =>
        match value with
        | VObject nested => ExtractClaim_loop nested path rest
        | _ => Err (ErrNotAnObject part)
        end
      end
    end
  end.

Definition ExtractClaim (data : gmap string Value) (path : string)
    (maxDepth : Z) : result Value :=
  let parts := strings.Split path "." in
  if Z.of_nat (length parts) >? maxDepth then Err (ErrDepthExceeded maxDepth)
  else ExtractClaim_loop data path parts.

Fixpoint ConvertClaimToString (value : Value) (arrayFormat : string)
  : result string :=
  match value with
  | VNil => Ok EmptyString
  | VString v => Ok v
  | VBool v => Ok (strconv.FormatBool v)
  | VFloat v => Ok (strconv_FormatFloat v)
  | VInt v => Ok (strconv.Itoa v)
  | VArray v =>
    if String.eqb arrayFormat "json" then
      match json_Marshal value with
      | Some jsonBytes => Ok jsonBytes
      | None => Err ErrMarshalArray
      end
    else
      (fix loop (elems : list Value) (parts : list string) : result string :=
         match elems with
         | [] => Ok (strings.Join parts ", ")
         | elem :: elems' =>
           match ConvertClaimToString elem arrayFormat with
           | Err err => Err err
           | Ok elemStr => loop elems' (parts ++ [elemStr])
           end
         end) v []
  | VObject _ =>
    match json_Marshal value with
    | Some jsonBytes => Ok jsonBytes
    | None => Err ErrMarshalObject
    end
  | VOther rendered => Ok rendered
  end.

(** *** jwt.go *)

Definition ParseJWT (token : string) (strictMode : bool) : result JWT :=
  let segments := strings.Split token "." in
  match segments with
  | [segment0; segment1; segment2] =>
    match base64.DecodeString segment0 with
    | None => Err ErrEncoding
    | Some headerBytes =>
      match base64.DecodeString segment1 with
      | None => Err ErrEncoding
      | Some payloadBytes =>
        match json_Unmarshal headerBytes with
        | None => Err ErrJSON
        | Some header =>
          match json_Unmarshal payloadBytes with
          | None => Err ErrJSON
          | Some payload =>
            if strictMode && negb (bool_decide (is_Some (header !! "alg")))
            then Err ErrMissingAlg
            else Ok {| Header := header; Payload := payload;
                       Signature := segment2 |}
          end
        end
      end
    end
  | _ => Err (ErrSegmentCount (length segments))
  end.

Definition ExtractToken (value prefix : string) : string :=
  if String.eqb prefix "" then value
  else if negb (strings.HasPrefix value prefix) then value
  else strings.TrimSpace (strings.TrimPrefix value prefix).

(** *** config.go *)

(** The loop of [Validate] over [c.Claims]; [headerNames] is the set of
    lower-cased header names seen so far. *)
Fixpoint validate_claims (headerNames : gset string) (i : nat)
    (claims : list ClaimMapping) : option error :=
  match claims with
  | [] => None
  | claim :: rest =>
    if String.eqb (ClaimPath claim) "" then Some (ErrNoClaimPath i)
    else if String.eqb (HeaderName claim) "" then Some (ErrNoHeaderName i)
    else if negb (String.eqb (ArrayFormat claim) "")
            && negb (String.eqb (ArrayFormat claim) "comma")
            && negb (String.eqb (ArrayFormat claim) "json")
    then Some (ErrArrayFormat i (ArrayFormat claim))
    else
      let lowerHeaderName := strings.ToLower to_lower_case (HeaderName claim) in
      if bool_decide (lowerHeaderName ∈ headerNames)
      then Some (ErrDuplicateHeader (HeaderName claim))
      else validate_claims ({[ lowerHeaderName ]} ∪ headerNames) (S i) rest
  end.

Fixpoint validate_sections (sections : list string) : option error :=
  match sections with
  | [] => None
  | section :: rest =>
    if negb (String.eqb section "header") && negb (String.eqb section "payload")
    then Some (ErrSection section)
    else validate_sections rest
  end.

(** [Validate]; [None] for [nil]. *)
Definition Validate (c : Config) : option error :=
  if (length (Claims c) =? 0)%nat then Some ErrNoClaims
  else match validate_claims ∅ 0 (Claims c) with
  | Some err => Some err
  | None =>
    if (length (Sections c) =? 0)%nat then Some ErrNoSections
    else match validate_sections (Sections c) with
    | Some err => Some err
    | None =>
      if MaxClaimDepth c <=? 0 then Some ErrMaxClaimDepth
      else if MaxHeaderSize c <=? 0 then Some ErrMaxHeaderSize
      else if negb (String.eqb (LogLevel c) "")
              && negb (existsb (String.eqb (LogLevel c))
                               ["debug"; "info"; "warn"; "error"])
      then Some (ErrLogLevel (LogLevel c))
      else None
    end
  end.

(** *** The handler *)

(** [New]: the plugin is made of a configuration that passes
    [Validate], and of none other. *)
Definition New (config : Config) : result Config :=
  match Validate config with
  | Some err => Err err
  | None => Ok config
  end.

Definition returnError (rw : http.ResponseWriter) (errorType message : string)
  : http.ResponseWriter :=
  let errorResponse : gmap string string :=
    <["message" := message]> (<["error" := errorType]> ∅) in
  {| http.rwHeader := http.Set_ (http.rwHeader rw) "Content-Type" "application/json";
     http.rwStatus := Some http.StatusUnauthorized;
     http.rwJSON := http.rwJSON rw ++ [errorResponse] |}.

(** The loop over [j.config.Sections]: the value found in the first
    section that has the claim. *)
Fixpoint find_claim (cfg : Config) (jwt : JWT) (path : string)
    (sections : list string) : option Value :=
  match sections with
  | [] => None
  | section :: rest =>
    let data :=
      if String.eqb section "payload" then Payload jwt
      else if String.eqb section "header" then Header jwt
      else ∅ in
    match ExtractClaim data path (MaxClaimDepth cfg) with
    | Ok value => Some value
    | Err _ => find_claim cfg jwt path rest
    end
  end.

(** One turn of the loop over [j.config.Claims]; a mapping that fails is
    skipped. *)
Definition process_mapping (cfg : Config) (jwt : JWT) (req : http.Request)
    (claimMapping : ClaimMapping) : http.Request :=
  match find_claim cfg jwt (ClaimPath claimMapping) (Sections cfg) with
  | None => req
  | Some claimValue =>
    match ConvertClaimToString claimValue (ArrayFormat claimMapping) with
    | Err _ => req
    | Ok strValue =>
      fst (InjectHeader req (HeaderName claimMapping) strValue
             (Override claimMapping) (MaxHeaderSize cfg))
    end
  end.

(** [ServeHTTP].  The handler calls [ParseJWT(token)], with the token
    alone, and never reads [StrictMode]: the token is parsed without the
    check of the [alg] field, which [ParseJWT] of jwt.go makes under its
    flag only.  The calls to [log.Printf] are left out. *)
Definition ServeHTTP (cfg : Config) (rw : http.ResponseWriter)
    (req : http.Request) : Outcome :=
  let headerValue := http.Get (http.Header_ req) (SourceHeader cfg) in
  if String.eqb headerValue "" then
    if ContinueOnError cfg then Forwarded req
    else Rejected req (returnError rw "unauthorized" "missing JWT token")
  else
    let token := ExtractToken headerValue (TokenPrefix cfg) in
    match ParseJWT token false with
    | Err _ =>
      if ContinueOnError cfg then Forwarded req
      else Rejected req (returnError rw "unauthorized" "invalid JWT token")
    | Ok jwt =>
      let req := fold_left (process_mapping cfg jwt) (Claims cfg) req in
      let req :=
        if RemoveSourceHeader cfg then
          {| http.Host := http.Host req;
             http.Header_ := http.Del (http.Header_ req) (SourceHeader cfg) |}
        else req in
      Forwarded req
    end.

End Plugin.

(** The token built from the JSON text of a header and of a payload, and
    a signature. *)
Definition token_of (headerJSON payloadJSON signature : string) : string :=
  base64.EncodeToString headerJSON +:+ String "."
    (base64.EncodeToString payloadJSON +:+ String "." signature).

(** The loop [for _, elem := range v] of [ConvertClaimToString], over
    the conversion of an element. *)
Fixpoint convert_elements (convert : Value -> result string)
    (elems : list Value) (parts : list string) : result string :=
  match elems with
  | [] => Ok (strings.Join parts ", ")
  | elem :: elems' =>
    match convert elem with
    | Err err => Err err
    | Ok elemStr => convert_elements convert elems' (parts ++ [elemStr])
    end
  end.

(** The values [ConvertClaimToString] comes to on its way through
    [value] when it takes arrays apart: [value] itself and, through its
    arrays, their elements. *)
Fixpoint array_elements (value : Value) : list Value :=
  value :: match value with
           | VArray l => flat_map array_elements l
           | _ => []
           end.

(** The claims of the section [ServeHTTP] looks into. *)
Definition section_data (jwt : JWT) (section : string) : gmap string Value :=
  if String.eqb section "payload" then Payload jwt
  else if String.eqb section "header" then Header jwt
  else ∅.

(** ** A runtime for examples

    Stand-ins for the library routines the plugin is given, defined on
    the few inputs the examples use.  [sample_Unmarshal] knows the
    documents of [sample_documents], each listed under the base64url
    form of its JSON text; [sample_Marshal] writes the empty object and
    an object of one string field whose key and value need no escape. *)

Definition dq : string := String "034" EmptyString.
Definition CR : string := String "013" EmptyString.
Definition LF : string := String "010" EmptyString.
Definition TAB : string := String "009" EmptyString.
Definition DEL : string := String "127" EmptyString.
Definition NUL : string := String "000" EmptyString.

Definition alg_none : gmap string Value := {[ "alg" := VString "none" ]}.

(** [{"alg":"none"}] *)
Definition alg_none_json : string :=
  "{" +:+ dq +:+ "alg" +:+ dq +:+ ":" +:+ dq +:+ "none" +:+ dq +:+ "}".

Definition sample_documents : list (string * gmap string Value) :=
  [ (* {} *)
    ("e30", ∅);
    (* {"alg":"none"} *)
    ("eyJhbGciOiJub25lIn0", alg_none);
    (* {"alg":"HS256","typ":"JWT"} *)
    ("eyJhbGciOiJIUzI1NiIsInR5cCI6IkpXVCJ9",
     {[ "alg" := VString "HS256"; "typ" := VString "JWT" ]});
    (* {"sub":"1234567890"} *)
    ("eyJzdWIiOiIxMjM0NTY3ODkwIn0", {[ "sub" := VString "1234567890" ]}) ].

Definition sample_Unmarshal (data : string) : option (gmap string Value) :=
  snd <$> List.find (fun doc => String.eqb (base64.EncodeToString data) doc.1)
                    sample_documents.

Definition alphanumeric (s : string) : bool :=
  forallb (fun c => let b := byteZ c in
                    ((0x30 <=? b) && (b <=? 0x39))
                    || ((0x41 <=? b) && (b <=? 0x5A))
                    || ((0x61 <=? b) && (b <=? 0x7A)))
          (bytes s).

Definition sample_Marshal (v : Value) : option string :=
  match v with
  | VObject m =>
    match map_to_list m with
    | [] => Some "{}"
    | [(k, VString s)] =>
      if alphanumeric k && alphanumeric s
      then Some ("{" +:+ dq +:+ k +:+ dq +:+ ":" +:+ dq +:+ s +:+ dq +:+ "}")
      else None
    | _ => None
    end
  | _ => None
  end.

Definition sample_FormatFloat (f : float) : string := "0".

Definition sample_request : http.Request :=
  {| http.Host := "example.com";
     http.Header_ := {[ "X-Request-Id" := ["42"] ]} |}.

Definition fail_closed_config : Config := {|
  SourceHeader := "Authorization";
  TokenPrefix := "Bearer ";
  Claims := [ {| ClaimPath := "sub"; HeaderName := "X-User-Id";
                 Override := false; ArrayFormat := "comma" |} ];
  Sections := ["payload"];
  ContinueOnError := false;
  RemoveSourceHeader := false;
  MaxClaimDepth := 10;
  MaxHeaderSize := 8192;
  LogLevel := "warn";
  StrictMode := false;
  LogMissingClaims := false
|}.

(** The token of the header [{"alg":"HS256","typ":"JWT"}] and the payload
    [{"sub":"1234567890"}]. *)
Definition sample_token : string :=
  "eyJhbGciOiJIUzI1NiIsInR5cCI6IkpXVCJ9.eyJzdWIiOiIxMjM0NTY3ODkwIn0.sig".

(** A request carrying the sample token and a forwarding header. *)
Definition bearer_request : http.Request :=
  {| http.Host := "example.com";
     http.Header_ := {[ "Authorization" := ["Bearer " +:+ sample_token];
                        "X-Forwarded-For" := ["10.0.0.1"] ]} |}.

(** A fail-open configuration of two mappings that takes the source
    header off. *)
Definition removing_config : Config := {|
  SourceHeader := "Authorization";
  TokenPrefix := "Bearer ";
  Claims := [ {| ClaimPath := "sub"; HeaderName := "X-User-Id";
                 Override := true; ArrayFormat := "" |};
              {| ClaimPath := "email"; HeaderName := "X-User-Email";
                 Override := false; ArrayFormat := "" |} ];
  Sections := ["header"; "payload"];
  ContinueOnError := true;
  RemoveSourceHeader := true;
  MaxClaimDepth := 10;
  MaxHeaderSize := 8192;
  LogLevel := "";
  StrictMode := true;
  LogMissingClaims := false
|}.


(** * Properties *)

(** ** The models at concrete inputs

    The cases of the plugin's own tests and the scenarios of its
    specification, run on the embedding. *)

Example Split_empty : strings.Split "" "." = [""].
Proof. reflexivity. Qed.

Example Split_abc : strings.Split "a.b..c" "." = ["a"; "b"; ""; "c"].
Proof. reflexivity. Qed.

Example TrimSpace_ascii :
  strings.TrimSpace "  value with spaces  " = "value with spaces".
Proof. reflexivity. Qed.

Example base64_encode_braces : base64.EncodeToString "{}" = "e30".
Proof. reflexivity. Qed.

Example base64_decode_braces : base64.DecodeString "e30" = Some "{}".
Proof. reflexivity. Qed.

Example base64_decode_one_char : base64.DecodeString "e30ee" = None.
Proof. reflexivity. Qed.

Example base64_decode_skips_newline :
  base64.DecodeString ("e3" +:+ LF +:+ "0") = Some "{}".
Proof. reflexivity. Qed.

Example base64_decode_alg_none :
  base64.DecodeString "eyJhbGciOiJub25lIn0" = Some alg_none_json.
Proof. reflexivity. Qed.

Example canonical_key :
  textproto.CanonicalMIMEHeaderKey "x-user-ID" = "X-User-Id".
Proof. reflexivity. Qed.

Example canonical_key_with_space :
  textproto.CanonicalMIMEHeaderKey "x-user id" = "x-user id".
Proof. reflexivity. Qed.

Example Itoa_42 : strconv.Itoa 42 = "42".
Proof. reflexivity. Qed.

Example Itoa_neg : strconv.Itoa (-7) = "-7".
Proof. reflexivity. Qed.

Example Itoa_zero : strconv.Itoa 0 = "0".
Proof. reflexivity. Qed.

Example DecodeRune_euro :
  utf8.DecodeRune (utf8.EncodeRune 0x20AC) = (0x20AC, 3%nat).
Proof. reflexivity. Qed.

Example DecodeRune_overlong :
  utf8.DecodeRune [Zbyte 0xC0; Zbyte 0x80] = (utf8.RuneError, 1%nat).
Proof. reflexivity. Qed.

Example DecodeRune_surrogate :
  utf8.DecodeRune [Zbyte 0xED; Zbyte 0xA0; Zbyte 0x80] = (utf8.RuneError, 1%nat).
Proof. reflexivity. Qed.

Example DecodeLastRune_euro :
  utf8.DecodeLastRune (bytes "abc" ++ utf8.EncodeRune 0x20AC) = (0x20AC, 3%nat).
Proof. reflexivity. Qed.

Example TrimSpace_unicode :
  strings.TrimSpace (str (utf8.EncodeRune 0x2028) +:+ " a b "
                     +:+ str (utf8.EncodeRune 0x3000) +:+ " ") = "a b".
Proof. reflexivity. Qed.

Example SanitizeHeaderValue_crlf :
  SanitizeHeaderValue ("value" +:+ CR +:+ LF +:+ "X-Evil: injected") 1000
  = Ok "valueX-Evil: injected".
Proof. reflexivity. Qed.

Example SanitizeHeaderValue_mixed :
  SanitizeHeaderValue ("value" +:+ CR +:+ LF +:+ NUL +:+ "X-Evil: bad"
                       +:+ String "001" (String "002" "")) 1000
  = Ok "valueX-Evil: bad".
Proof. reflexivity. Qed.

Example SanitizeHeaderValue_del :
  SanitizeHeaderValue ("test" +:+ DEL +:+ "value") 1000 = Ok "testvalue".
Proof. reflexivity. Qed.

Example SanitizeHeaderValue_line_separator :
  SanitizeHeaderValue ("value" +:+ str (utf8.EncodeRune 0x2028) +:+ "X-Evil") 1000
  = Ok ("value" +:+ str (utf8.EncodeRune 0x2028) +:+ "X-Evil").
Proof. reflexivity. Qed.

Example SanitizeHeaderValue_size :
  SanitizeHeaderValue "abcdef" 5 = Err (ErrHeaderTooLarge 5).
Proof. reflexivity. Qed.

Example IsProtectedHeader_upper :
  IsProtectedHeader (fun r => r) "X-FORWARDED-PROTO" = true.
Proof. reflexivity. Qed.

Example IsProtectedHeader_prefix :
  IsProtectedHeader (fun r => r) "x-host" = false.
Proof. reflexivity. Qed.

Example IsProtectedHeader_leading_space :
  IsProtectedHeader (fun r => r) " host" = false.
Proof. reflexivity. Qed.

Example InjectHeader_new :
  http.Get (http.Header_ (InjectHeader (fun r => r) sample_request
                            "X-Test-Header" "new-value" false 10000).1)
           "x-test-header" = "new-value".
Proof. reflexivity. Qed.

Example InjectHeader_keep :
  http.Get (http.Header_ (InjectHeader (fun r => r) sample_request
                            "X-Request-Id" "new-value" false 10000).1)
           "X-Request-Id" = "42".
Proof. reflexivity. Qed.

Example InjectHeader_override :
  http.Get (http.Header_ (InjectHeader (fun r => r) sample_request
                            "X-Request-Id" "new-value" true 10000).1)
           "X-Request-Id" = "new-value".
Proof. reflexivity. Qed.

Example ExtractToken_bearer :
  ExtractToken "Bearer eyJhbGciOiJIUzI1NiIsInR5cCI6IkpXVCJ9" "Bearer "
  = "eyJhbGciOiJIUzI1NiIsInR5cCI6IkpXVCJ9".
Proof. reflexivity. Qed.

Example ExtractToken_partial_match :
  ExtractToken "Beartoken" "Bearer " = "Beartoken".
Proof. reflexivity. Qed.

Example ExtractToken_empty_prefix :
  ExtractToken "Bearer token123" "" = "Bearer token123".
Proof. reflexivity. Qed.

Example ExtractToken_tabs :
  ExtractToken ("Bearer " +:+ TAB +:+ "token123" +:+ TAB) "Bearer " = "token123".
Proof. reflexivity. Qed.

Example ExtractClaim_nested :
  ExtractClaim (nested_doc 2) "a.a.a" 3 = Ok (VString "leaf").
Proof. reflexivity. Qed.

Example ExtractClaim_too_deep :
  ExtractClaim (nested_doc 2) "a.a.a" 2 = Err (ErrDepthExceeded 2).
Proof. reflexivity. Qed.

Example ExtractClaim_missing :
  ExtractClaim (nested_doc 2) "a.b" 10 = Err (ErrClaimNotFound "a.b").
Proof. reflexivity. Qed.

Example ExtractClaim_not_an_object :
  ExtractClaim {[ "sub" := VString "1234567890" ]} "sub.nested" 10
  = Err (ErrNotAnObject "sub").
Proof. reflexivity. Qed.

Example ExtractClaim_null :
  ExtractClaim {[ "nullable" := VNil ]} "nullable" 10 = Ok VNil.
Proof. reflexivity. Qed.

Example ConvertClaimToString_comma :
  ConvertClaimToString sample_Marshal sample_FormatFloat
    (VArray [VString "admin"; VString "user"]) "comma"
  = Ok "admin, user".
Proof. reflexivity. Qed.

Example ConvertClaimToString_mixed :
  ConvertClaimToString sample_Marshal sample_FormatFloat
    (VArray [VString "a"; VBool true; VNil; VInt 42]) ""
  = Ok "a, true, , 42".
Proof. reflexivity. Qed.

Example ParseJWT_two_segments :
  ParseJWT sample_Unmarshal "header.payload" false = Err (ErrSegmentCount 2).
Proof. reflexivity. Qed.

Example ParseJWT_bad_base64 :
  ParseJWT sample_Unmarshal "!!!.e30.sig" false = Err ErrEncoding.
Proof. reflexivity. Qed.

Example ParseJWT_sample :
  ParseJWT sample_Unmarshal
    "eyJhbGciOiJIUzI1NiIsInR5cCI6IkpXVCJ9.eyJzdWIiOiIxMjM0NTY3ODkwIn0.sig" true
  = Ok {| Header := {[ "alg" := VString "HS256"; "typ" := VString "JWT" ]};
          Payload := {[ "sub" := VString "1234567890" ]};
          Signature := "sig" |}.
Proof. reflexivity. Qed.

(** A request carrying the sample token, through the whole handler. *)
Example ServeHTTP_sample :
  match
    ServeHTTP (fun r => r) sample_Unmarshal sample_Marshal sample_FormatFloat
      fail_closed_config http.newResponseWriter
      {| http.Host := "example.com";
         http.Header_ :=
           {[ "Authorization" :=
                ["Bearer eyJhbGciOiJIUzI1NiIsInR5cCI6IkpXVCJ9.eyJzdWIiOiIxMjM0NTY3ODkwIn0.sig"] ]} |}
  with
  | Forwarded req => http.Get (http.Header_ req) "X-User-Id" = "1234567890"
  | Rejected _ _ => False
  end.
Proof. vm_compute. reflexivity. Qed.

Example ServeHTTP_two_segments :
  ServeHTTP (fun r => r) sample_Unmarshal sample_Marshal sample_FormatFloat
    fail_closed_config http.newResponseWriter
    {| http.Host := "example.com";
       http.Header_ := {[ "Authorization" := ["Bearer header.payload"] ]} |}
  = Rejected
      {| http.Host := "example.com";
         http.Header_ := {[ "Authorization" := ["Bearer header.payload"] ]} |}
      {| http.rwHeader := {[ "Content-Type" := ["application/json"] ]};
         http.rwStatus := Some 401;
         http.rwJSON := [ {[ "error" := "unauthorized";
                             "message" := "invalid JWT token" ]} ] |}.
Proof. reflexivity. Qed.

(** ** Bytes and bit arithmetic *)

Lemma byteZ_range (c : ascii) : 0 <= byteZ c < 256.
Proof.
  unfold byteZ. pose proof (N_ascii_bounded c). lia.
Qed.

Lemma land_255 (z : Z) : Z.land z 0xFF = z mod 256.
Proof. change 0xFF with (Z.ones 8). rewrite Z.land_ones by lia. reflexivity. Qed.

Lemma byteZ_Zbyte (z : Z) : 0 <= z < 256 -> byteZ (Zbyte z) = z.
Proof.
  intros Hz. unfold byteZ, Zbyte. rewrite land_255, Z.mod_small by lia.
  rewrite N_ascii_embedding by lia. lia.
Qed.

Lemma Zbyte_byteZ (c : ascii) : Zbyte (byteZ c) = c.
Proof.
  unfold byteZ, Zbyte. pose proof (N_ascii_bounded c).
  rewrite land_255, Z.mod_small by lia.
  rewrite N2Z.id. apply ascii_N_embedding.
Qed.

Lemma byteZ_inj (c d : ascii) : byteZ c = byteZ d -> c = d.
Proof. intros H. rewrite <- (Zbyte_byteZ c), <- (Zbyte_byteZ d). congruence. Qed.

Lemma lor_add (a b k : Z) :
  0 <= k -> a mod 2 ^ k = 0 -> 0 <= b < 2 ^ k -> Z.lor a b = a + b.
Proof.
  intros Hk Ha Hb.
  assert (Hland : Z.land a b = 0).
  { apply Z.bits_inj'. intros n Hn. rewrite Z.land_spec, Z.bits_0.
    destruct (Z.lt_ge_cases n k) as [Hlt | Hge].
    - assert (Z.testbit a n = false) as ->; [|reflexivity].
      rewrite <- (Z.mod_pow2_bits_low a k n) by lia. rewrite Ha. apply Z.bits_0.
    - assert (Z.testbit b n = false) as ->; [|apply andb_false_r].
      rewrite <- (Z.mod_small b (2 ^ k)) by lia.
      apply Z.mod_pow2_bits_high. lia. }
  rewrite <- Z.lxor_lor by exact Hland.
  symmetry. apply Z.add_nocarry_lxor. exact Hland.
Qed.

Ltac Zify.zify_post_hook ::= Z.div_mod_to_equations.

Lemma land_0x3F z : Z.land z 0x3F = z mod 64.
Proof. change 0x3F with (Z.ones 6). now rewrite Z.land_ones by lia. Qed.
Lemma land_0x1F z : Z.land z 0x1F = z mod 32.
Proof. change 0x1F with (Z.ones 5). now rewrite Z.land_ones by lia. Qed.
Lemma land_0x0F z : Z.land z 0x0F = z mod 16.
Proof. change 0x0F with (Z.ones 4). now rewrite Z.land_ones by lia. Qed.
Lemma land_0x07 z : Z.land z 0x07 = z mod 8.
Proof. change 0x07 with (Z.ones 3). now rewrite Z.land_ones by lia. Qed.

Ltac bits_arith :=
  rewrite ?land_0x3F, ?land_0x1F, ?land_0x0F, ?land_0x07, ?land_255,
    ?Z.shiftr_div_pow2, ?Z.shiftl_mul_pow2 by lia;
  change (2 ^ 6) with 64; change (2 ^ 8) with 256; change (2 ^ 12) with 4096;
  change (2 ^ 16) with 65536; change (2 ^ 18) with 262144.

Module utf8_facts.
Import utf8.

Lemma dec2_arith s0 s1 : dec2 s0 s1 = (s0 mod 32) * 64 + s1 mod 64.
Proof.
  unfold dec2, mask2, maskx. bits_arith.
  apply (lor_add _ _ 6); lia.
Qed.

Lemma dec3_arith s0 s1 s2 :
  dec3 s0 s1 s2 = (s0 mod 16) * 4096 + (s1 mod 64) * 64 + s2 mod 64.
Proof.
  unfold dec3, mask3, maskx. bits_arith.
  rewrite (lor_add (s0 mod 16 * 4096) _ 12) by lia.
  apply (lor_add _ _ 6); lia.
Qed.

Lemma dec4_arith s0 s1 s2 s3 :
  dec4 s0 s1 s2 s3 =
  (s0 mod 8) * 262144 + (s1 mod 64) * 4096 + (s2 mod 64) * 64 + s3 mod 64.
Proof.
  unfold dec4, mask4, maskx. bits_arith.
  rewrite (lor_add (s0 mod 8 * 262144) _ 18) by lia.
  rewrite (lor_add (s0 mod 8 * 262144 + _) _ 12) by lia.
  apply (lor_add _ _ 6); lia.
Qed.

Lemma ValidRune_spec r :
  ValidRune r = true <-> (0 <= r < 0xD800 \/ 0xDFFF < r <= 0x10FFFF).
Proof.
  unfold ValidRune, surrogateMin, surrogateMax, MaxRune.
  rewrite orb_true_iff, !andb_true_iff, !Z.leb_le, !Z.ltb_lt. reflexivity.
Qed.

Lemma EncodeRune_1 r : 0 <= r <= 0x7F -> EncodeRune r = [Zbyte r].
Proof.
  intros Hr. unfold EncodeRune, rune1Max. rewrite Z.mod_small by lia.
  destruct (Z.leb_spec r 0x7F); [reflexivity | lia].
Qed.

Lemma EncodeRune_2 r :
  0x80 <= r <= 0x7FF ->
  EncodeRune r = [Zbyte (192 + r / 64); Zbyte (128 + r mod 64)].
Proof.
  intros Hr. unfold EncodeRune, rune1Max, rune2Max. rewrite Z.mod_small by lia.
  destruct (Z.leb_spec r 0x7F); [lia |].
  destruct (Z.leb_spec r 0x7FF); [| lia].
  unfold t2, tx, maskx. bits_arith.
  rewrite (lor_add 192 _ 6), (lor_add 128 _ 6) by lia. reflexivity.
Qed.

Lemma encode3_arith r :
  0 <= r <= 0xFFFF ->
  encode3 r = [Zbyte (224 + r / 4096); Zbyte (128 + (r / 64) mod 64);
               Zbyte (128 + r mod 64)].
Proof.
  intros Hr. unfold encode3, t3, tx, maskx. bits_arith.
  rewrite (lor_add 224 _ 5), !(lor_add 128 _ 6) by lia. reflexivity.
Qed.

Lemma encode4_arith r :
  0 <= r <= 0x10FFFF ->
  encode4 r = [Zbyte (240 + r / 262144); Zbyte (128 + (r / 4096) mod 64);
               Zbyte (128 + (r / 64) mod 64); Zbyte (128 + r mod 64)].
Proof.
  intros Hr. unfold encode4, t4, tx, maskx. bits_arith.
  rewrite (lor_add 240 _ 4), !(lor_add 128 _ 6) by lia. reflexivity.
Qed.

Lemma EncodeRune_3 r :
  0x800 <= r <= 0xFFFF -> ~ (0xD800 <= r <= 0xDFFF) ->
  EncodeRune r = [Zbyte (224 + r / 4096); Zbyte (128 + (r / 64) mod 64);
                  Zbyte (128 + r mod 64)].
Proof.
  intros Hr Hs. unfold EncodeRune, rune1Max, rune2Max, rune3Max, MaxRune,
    surrogateMin, surrogateMax.
  rewrite Z.mod_small by lia.
  destruct (Z.leb_spec r 0x7F); [lia |].
  destruct (Z.leb_spec r 0x7FF); [lia |].
  destruct (Z.ltb_spec 0x10FFFF r); [lia |].
  destruct (Z.leb_spec 0xD800 r), (Z.leb_spec r 0xDFFF); simpl; try lia;
    (destruct (Z.leb_spec r 0xFFFF); [| lia]); apply encode3_arith; lia.
Qed.

Lemma EncodeRune_4 r :
  0x10000 <= r <= 0x10FFFF ->
  EncodeRune r = [Zbyte (240 + r / 262144); Zbyte (128 + (r / 4096) mod 64);
                  Zbyte (128 + (r / 64) mod 64); Zbyte (128 + r mod 64)].
Proof.
  intros Hr. unfold EncodeRune, rune1Max, rune2Max, rune3Max, MaxRune,
    surrogateMin, surrogateMax.
  rewrite Z.mod_small by lia.
  destruct (Z.leb_spec r 0x7F); [lia |].
  destruct (Z.leb_spec r 0x7FF); [lia |].
  destruct (Z.ltb_spec 0x10FFFF r); [lia |].
  destruct (Z.leb_spec 0xD800 r), (Z.leb_spec r 0xDFFF); simpl; try lia;
    (destruct (Z.leb_spec r 0xFFFF); [lia |]); apply encode4_arith; lia.
Qed.

(** Decoding, one lemma per width. *)

Lemma DecodeRune_1 c0 rest :
  byteZ c0 < 0x80 -> DecodeRune (c0 :: rest) = (byteZ c0, 1%nat).
Proof.
  intros H. unfold DecodeRune, RuneSelf.
  destruct (Z.ltb_spec (byteZ c0) 0x80); [reflexivity | lia].
Qed.

Ltac decide_ifs :=
  repeat match goal with
  | |- context [if ?b then _ else _] =>
      let E := fresh "E" in
      destruct b eqn:E; cbn [length] in E;
      rewrite ?Nat.ltb_lt, ?Nat.ltb_ge, ?Nat.leb_le, ?Nat.leb_gt in E; try lia
  end.

Lemma DecodeRune_2 c0 c1 rest :
  0xC2 <= byteZ c0 <= 0xDF -> 0x80 <= byteZ c1 <= 0xBF ->
  DecodeRune (c0 :: c1 :: rest) = (dec2 (byteZ c0) (byteZ c1), 2%nat).
Proof.
  intros H0 H1. unfold DecodeRune, first, RuneSelf, locb, hicb.
  decide_ifs; reflexivity.
Qed.

Lemma DecodeRune_3 c0 c1 c2 rest :
  0xE0 <= byteZ c0 <= 0xEF -> 0x80 <= byteZ c1 <= 0xBF ->
  (byteZ c0 = 0xE0 -> 0xA0 <= byteZ c1) ->
  (byteZ c0 = 0xED -> byteZ c1 <= 0x9F) ->
  0x80 <= byteZ c2 <= 0xBF ->
  DecodeRune (c0 :: c1 :: c2 :: rest)
  = (dec3 (byteZ c0) (byteZ c1) (byteZ c2), 3%nat).
Proof.
  intros H0 H1 Ha Hb H2. unfold DecodeRune, first, RuneSelf, locb, hicb.
  decide_ifs; reflexivity.
Qed.

Lemma DecodeRune_4 c0 c1 c2 c3 rest :
  0xF0 <= byteZ c0 <= 0xF4 -> 0x80 <= byteZ c1 <= 0xBF ->
  (byteZ c0 = 0xF0 -> 0x90 <= byteZ c1) ->
  (byteZ c0 = 0xF4 -> byteZ c1 <= 0x8F) ->
  0x80 <= byteZ c2 <= 0xBF -> 0x80 <= byteZ c3 <= 0xBF ->
  DecodeRune (c0 :: c1 :: c2 :: c3 :: rest)
  = (dec4 (byteZ c0) (byteZ c1) (byteZ c2) (byteZ c3), 4%nat).
Proof.
  intros H0 H1 Ha Hb H2 H3. unfold DecodeRune, first, RuneSelf, locb, hicb.
  decide_ifs; reflexivity.
Qed.

Lemma DecodeRune_decoded p : decoded p (DecodeRune p).1 (DecodeRune p).2.
Proof.
  destruct p as [|c0 p]; [constructor |].
  unfold DecodeRune, first, RuneSelf, locb, hicb.
  destruct (Z.ltb_spec (byteZ c0) 0x80); [now constructor |].
  destruct p as [|c1 p];
    [decide_ifs; now constructor |].
  destruct p as [|c2 p];
    [decide_ifs; first [now constructor | apply decoded_2; lia] |].
  destruct p as [|c3 p];
    [decide_ifs;
     first [now constructor | apply decoded_2; lia | apply decoded_3; lia] |].
  decide_ifs;
    first [now constructor | apply decoded_2; lia | apply decoded_3; lia
          | apply decoded_4; lia].
Qed.

Lemma decoded_ValidRune p c w : decoded p c w -> ValidRune c = true.
Proof.
  unfold ValidRune, surrogateMin, surrogateMax, MaxRune, RuneError.
  rewrite orb_true_iff, !andb_true_iff, !Z.leb_le, !Z.ltb_lt.
  destruct 1; rewrite ?dec2_arith, ?dec3_arith, ?dec4_arith;
    try pose proof (byteZ_range c0); unfold RuneError; lia.
Qed.

Lemma decoded_width p c w :
  decoded p c w -> p <> [] -> (1 <= w <= length p)%nat.
Proof. destruct 1; intros Hp; cbn [length]; try lia. congruence. Qed.

Lemma decoded_EncodeRune p c w :
  decoded p c w -> p <> [] ->
  (c = RuneError /\ w = 1%nat /\ 0x80 <= at_index p 0) \/ EncodeRune c = take w p.
Proof.
  destruct 1 as [|c0 rest H0|c0 c1 rest H0 H1|c0 c1 c2 rest H0 H1 Ha Hb H2
                |c0 c1 c2 c3 rest H0 H1 Ha Hb H2 H3|c0 rest H0]; intros Hp.
  - congruence.
  - right. pose proof (byteZ_range c0).
    rewrite EncodeRune_1 by lia. now rewrite Zbyte_byteZ.
  - right. rewrite dec2_arith. rewrite EncodeRune_2 by lia.
    cbn [take]. repeat f_equal.
    + rewrite <- (Zbyte_byteZ c0) at 2. f_equal. lia.
    + rewrite <- (Zbyte_byteZ c1) at 2. f_equal. lia.
  - right. rewrite dec3_arith. rewrite EncodeRune_3 by lia.
    cbn [take]. repeat f_equal.
    + rewrite <- (Zbyte_byteZ c0) at 2. f_equal. lia.
    + rewrite <- (Zbyte_byteZ c1) at 2. f_equal. lia.
    + rewrite <- (Zbyte_byteZ c2) at 2. f_equal. lia.
  - right. rewrite dec4_arith. rewrite EncodeRune_4 by lia.
    cbn [take]. repeat f_equal.
    + rewrite <- (Zbyte_byteZ c0) at 2. f_equal. lia.
    + rewrite <- (Zbyte_byteZ c1) at 2. f_equal. lia.
    + rewrite <- (Zbyte_byteZ c2) at 2. f_equal. lia.
    + rewrite <- (Zbyte_byteZ c3) at 2. f_equal. lia.
  - left. repeat split; try reflexivity. exact H0.
Qed.

Lemma DecodeRune_EncodeRune r rest :
  ValidRune r = true ->
  DecodeRune (EncodeRune r ++ rest) = (r, length (EncodeRune r)).
Proof.
  unfold ValidRune, surrogateMin, surrogateMax, MaxRune.
  rewrite orb_true_iff, !andb_true_iff, !Z.leb_le, !Z.ltb_lt. intros Hr.
  destruct (Z.le_gt_cases r 0x7F); [|destruct (Z.le_gt_cases r 0x7FF);
    [|destruct (Z.le_gt_cases r 0xFFFF)]].
  - rewrite EncodeRune_1 by lia. cbn [app length].
    rewrite DecodeRune_1; rewrite byteZ_Zbyte by lia; [reflexivity | lia].
  - rewrite EncodeRune_2 by lia. cbn [app length].
    rewrite DecodeRune_2; rewrite ?byteZ_Zbyte by lia; try lia.
    rewrite dec2_arith. f_equal. lia.
  - rewrite EncodeRune_3 by lia. cbn [app length].
    rewrite DecodeRune_3; rewrite ?byteZ_Zbyte by lia; try lia.
    rewrite dec3_arith. f_equal. lia.
  - rewrite EncodeRune_4 by lia. cbn [app length].
    rewrite DecodeRune_4; rewrite ?byteZ_Zbyte by lia; try lia.
    rewrite dec4_arith. f_equal. lia.
Qed.

(** The shape of an encoding: one ASCII byte, or a leading byte followed
    by one to three continuation bytes. *)
Lemma EncodeRune_shape r :
  ValidRune r = true ->
  (r < 0x80 /\ EncodeRune r = [Zbyte r]) \/
  (0x80 <= r /\ exists c0 tl, EncodeRune r = c0 :: tl /\
     0xC2 <= byteZ c0 <= 0xF4 /\
     Forall (fun c => 0x80 <= byteZ c <= 0xBF) tl /\
     (1 <= length tl <= 3)%nat).
Proof.
  unfold ValidRune, surrogateMin, surrogateMax, MaxRune.
  rewrite orb_true_iff, !andb_true_iff, !Z.leb_le, !Z.ltb_lt. intros Hr.
  destruct (Z.le_gt_cases r 0x7F); [|destruct (Z.le_gt_cases r 0x7FF);
    [|destruct (Z.le_gt_cases r 0xFFFF)]].
  - left. split; [lia |]. apply EncodeRune_1. lia.
  - right. split; [lia |]. rewrite EncodeRune_2 by lia.
    eexists _, _. split; [reflexivity |].
    repeat first [apply Forall_cons; split | apply Forall_nil | split];
      rewrite ?byteZ_Zbyte by lia; cbn [length]; lia.
  - right. split; [lia |]. rewrite EncodeRune_3 by lia.
    eexists _, _. split; [reflexivity |].
    repeat first [apply Forall_cons; split | apply Forall_nil | split];
      rewrite ?byteZ_Zbyte by lia; cbn [length]; lia.
  - right. split; [lia |]. rewrite EncodeRune_4 by lia.
    eexists _, _. split; [reflexivity |].
    repeat first [apply Forall_cons; split | apply Forall_nil | split];
      rewrite ?byteZ_Zbyte by lia; cbn [length]; lia.
Qed.

Lemma RuneStart_byte c :
  RuneStart (byteZ c) = negb ((0x80 <=? byteZ c) && (byteZ c <=? 0xBF)).
Proof. destruct c as [[] [] [] [] [] [] [] []]; reflexivity. Qed.

Lemma at_index_app_r pre p k :
  0 <= k -> at_index (pre ++ p) (Z.of_nat (length pre) + k) = at_index p k.
Proof.
  intros Hk. unfold at_index.
  replace (Z.to_nat (Z.of_nat (length pre) + k))
    with (length pre + Z.to_nat k)%nat by lia.
  now rewrite lookup_app_r, Nat.add_comm, Nat.add_sub by lia.
Qed.

Lemma RuneStart_Z b :
  0 <= b < 256 -> RuneStart b = negb ((0x80 <=? b) && (b <=? 0xBF)).
Proof.
  intros Hb. rewrite <- (byteZ_Zbyte b) by lia. apply RuneStart_byte.
Qed.

Lemma at_index_range p i : 0 <= at_index p i < 256.
Proof.
  unfold at_index. destruct (p !! Z.to_nat i); [apply byteZ_range | lia].
Qed.

Lemma at_index_Forall (P : Z -> Prop) p i :
  Forall (fun c => P (byteZ c)) p -> 0 <= i < Z.of_nat (length p) ->
  P (at_index p i).
Proof.
  intros HF Hi. unfold at_index.
  destruct (p !! Z.to_nat i) as [c|] eqn:E.
  - rewrite Forall_forall in HF. apply HF.
    eapply list_elem_of_lookup_2. exact E.
  - apply lookup_ge_None in E. lia.
Qed.

Lemma back_scan_found k : forall fuel p start lim,
  (k < fuel)%nat ->
  (forall j, 0 <= j < Z.of_nat k -> RuneStart (at_index p (start - j)) = false) ->
  RuneStart (at_index p (start - Z.of_nat k)) = true ->
  lim <= start - Z.of_nat k ->
  back_scan fuel p start lim = start - Z.of_nat k.
Proof.
  induction k as [|k IH]; intros fuel p start lim Hf Hno Hyes Hlim;
    (destruct fuel as [|fuel]; [lia |]); cbn [back_scan].
  - replace (start - Z.of_nat 0) with start in * by lia.
    destruct (Z.ltb_spec start lim); [lia |]. now rewrite Hyes.
  - destruct (Z.ltb_spec start lim); [lia |].
    rewrite <- (Z.sub_0_r start) at 1. rewrite (Hno 0) by lia.
    rewrite IH; [lia | lia | | |].
    + intros j Hj. replace (start - 1 - j) with (start - (j + 1)) by lia.
      apply Hno. lia.
    + replace (start - 1 - Z.of_nat k) with (start - Z.of_nat (S k)) by lia.
      exact Hyes.
    + lia.
Qed.

Lemma DecodeLastRune_EncodeRune pre r :
  ValidRune r = true ->
  DecodeLastRune (pre ++ EncodeRune r) = (r, length (EncodeRune r)).
Proof.
  intros Hv. pose proof (DecodeRune_EncodeRune r [] Hv) as Hdec.
  rewrite app_nil_r in Hdec.
  destruct (EncodeRune_shape r Hv) as [[Hr He] | (Hr & c0 & tl & He & H0 & Htl & Hlen)].
  - rewrite He. unfold DecodeLastRune. rewrite length_app. cbn [length].
    destruct (Z.eqb_spec (Z.of_nat (length pre + 1)) 0); [lia |].
    replace (Z.of_nat (length pre + 1) - 1) with (Z.of_nat (length pre) + 0) by lia.
    rewrite at_index_app_r by lia.
    assert (0 <= r) by (apply ValidRune_spec in Hv; lia).
    change (at_index [Zbyte r] 0) with (byteZ (Zbyte r)).
    rewrite byteZ_Zbyte by lia. unfold RuneSelf.
    destruct (Z.ltb_spec r 0x80); [reflexivity | lia].
  - rewrite He in *. unfold DecodeLastRune. rewrite length_app. cbn [length].
    set (n := Z.of_nat (length pre)).
    set (m := Z.of_nat (length tl)).
    replace (Z.of_nat (length pre + S (length tl))) with (n + m + 1) by lia.
    destruct (Z.eqb_spec (n + m + 1) 0); [lia |].
    assert (Hcont : forall i, 1 <= i <= m ->
              0x80 <= at_index (pre ++ c0 :: tl) (n + i) <= 0xBF).
    { intros i Hi. unfold n. rewrite at_index_app_r by lia.
      unfold at_index. replace (Z.to_nat i) with (S (Z.to_nat (i - 1))) by lia.
      cbn [lookup list_lookup].
      apply (at_index_Forall (fun b => 0x80 <= b <= 0xBF) tl (i - 1)); [exact Htl | lia]. }
    replace (n + m + 1 - 1) with (n + m) by lia.
    pose proof (Hcont m ltac:(lia)) as Hlast. unfold RuneSelf.
    destruct (Z.ltb_spec (at_index (pre ++ c0 :: tl) (n + m)) 0x80); [lia |].
    rewrite (back_scan_found (Z.to_nat (m - 1))); [ | lia | | | unfold UTFMax; lia].
    + replace (n + m - 1 - Z.of_nat (Z.to_nat (m - 1))) with n by lia.
      replace (Z.max 0 n) with n by lia.
      unfold n at 1. rewrite Nat2Z.id, drop_app_length, Hdec.
      cbn [length]. fold m.
      destruct (Z.eqb_spec (n + Z.of_nat (S (length tl))) (n + m + 1)); [reflexivity | lia].
    + intros j Hj. rewrite RuneStart_Z by apply at_index_range.
      replace (n + m - 1 - j) with (n + (m - 1 - j)) by lia.
      pose proof (Hcont (m - 1 - j) ltac:(lia)).
      destruct (Z.leb_spec 0x80 (at_index (pre ++ c0 :: tl) (n + (m - 1 - j)))),
        (Z.leb_spec (at_index (pre ++ c0 :: tl) (n + (m - 1 - j))) 0xBF);
        simpl; try lia; reflexivity.
    + replace (n + m - 1 - Z.of_nat (Z.to_nat (m - 1))) with (n + 0) by lia.
      unfold n. rewrite at_index_app_r by lia.
      change (at_index (c0 :: tl) 0) with (byteZ c0).
      rewrite RuneStart_byte.
      destruct (Z.leb_spec 0x80 (byteZ c0)), (Z.leb_spec (byteZ c0) 0xBF);
        simpl; try lia; reflexivity.
Qed.

Lemma RuneLen_decoded p c w :
  decoded p c w -> p <> [] -> c <> RuneError ->
  RuneLen c = Z.of_nat w.
Proof.
  unfold RuneLen, rune1Max, rune2Max, rune3Max, surrogateMin,
    surrogateMax, MaxRune.
  destruct 1; intros Hp Hc; try congruence;
    rewrite ?dec2_arith, ?dec3_arith, ?dec4_arith in *;
    try pose proof (byteZ_range c0); decide_ifs.
Qed.

(** *** The [range] loop *)

Lemma range_from_drop k : forall p, range_from k p = range (drop k p).
Proof.
  induction k as [|k IH]; intros p.
  - now rewrite drop_0.
  - destruct p as [|c p]; [reflexivity |]. cbn [range_from drop]. apply IH.
Qed.

Lemma range_cons p :
  p <> [] ->
  range p = DecodeRune p :: range (drop (DecodeRune p).2 p).
Proof.
  intros Hp. pose proof (decoded_width _ _ _ (DecodeRune_decoded p) Hp) as Hw.
  destruct p as [|c p]; [congruence |].
  unfold range at 1. cbn [range_from].
  destruct (DecodeRune (c :: p)) as [r w] eqn:E. cbn [snd fst] in *.
  rewrite range_from_drop. destruct w as [|w]; [lia |].
  replace (S w - 1)%nat with w by lia. reflexivity.
Qed.

Lemma range_nil : range [] = [].
Proof. reflexivity. Qed.

(** Induction along the runes of a string. *)
Lemma range_ind (P : list ascii -> Prop) :
  P [] ->
  (forall p, p <> [] -> P (drop (DecodeRune p).2 p) -> P p) ->
  forall p, P p.
Proof.
  intros Hnil Hstep p.
  induction p as [p IH] using (induction_ltof1 _ (@length ascii)).
  destruct p as [|c p]; [exact Hnil |].
  apply Hstep; [congruence |]. apply IH. unfold ltof.
  pose proof (decoded_width _ _ _ (DecodeRune_decoded (c :: p)) ltac:(congruence)).
  rewrite length_drop. cbn [length] in *. lia.
Qed.

Lemma range_ValidRune p : Forall (fun cw => ValidRune cw.1 = true) (range p).
Proof.
  induction p as [|p Hp IH] using range_ind; [constructor |].
  rewrite range_cons by exact Hp. constructor; [| exact IH].
  eapply decoded_ValidRune, DecodeRune_decoded.
Qed.

Lemma EncodeRune_nonempty r : EncodeRune r <> [].
Proof.
  unfold EncodeRune, encode3, encode4. repeat case_match; discriminate.
Qed.

Lemma range_EncodeRune r rest :
  ValidRune r = true ->
  range (EncodeRune r ++ rest) = (r, length (EncodeRune r)) :: range rest.
Proof.
  intros Hv. rewrite range_cons.
  - rewrite DecodeRune_EncodeRune by exact Hv. cbn [snd].
    now rewrite drop_app_length.
  - pose proof (EncodeRune_nonempty r). destruct (EncodeRune r); [congruence | discriminate].
Qed.

Lemma range_string_of_runes rs :
  Forall (fun r => ValidRune r = true) rs ->
  map fst (range (string_of_runes rs)) = rs.
Proof.
  induction 1 as [|r rs Hr Hrs IH]; [reflexivity |].
  cbn [string_of_runes flat_map]. rewrite range_EncodeRune by exact Hr.
  cbn [map fst]. f_equal. exact IH.
Qed.

End utf8_facts.

Module bytealg_facts.
Import utf8 utf8_facts bytealg.

(** *** [Map] *)

Lemma mapped_cons mapping p :
  p <> [] ->
  mapped mapping p
  = write_mapped (mapping (DecodeRune p).1)
      ++ mapped mapping (drop (DecodeRune p).2 p).
Proof. intros Hp. unfold mapped. now rewrite range_cons by exact Hp. Qed.

Lemma first_change_skip mapping k : forall i p,
  first_change mapping k i p = first_change mapping 0 (i + k) (drop k p).
Proof.
  induction k as [|k IH]; intros i p.
  - now rewrite drop_0, Nat.add_0_r.
  - destruct p as [|c p]; [reflexivity |]. cbn [first_change drop].
    rewrite IH. f_equal. lia.
Qed.

Lemma first_change_cons mapping i p :
  p <> [] ->
  first_change mapping 0 i p =
  let '(c, w) := DecodeRune p in
  let r := mapping c in
  if (r =? c) && negb (c =? RuneError) then
    first_change mapping 0 (i + w) (drop w p)
  else if (c =? RuneError) && negb (Z.of_nat w =? 1) && (r =? c) then
    first_change mapping 0 (i + w) (drop w p)
  else Some (i, r, if c =? RuneError then Z.of_nat w else RuneLen c).
Proof.
  intros Hp. pose proof (decoded_width _ _ _ (DecodeRune_decoded p) Hp) as Hw.
  destruct p as [|c0 p]; [congruence |]. cbn [first_change].
  destruct (DecodeRune (c0 :: p)) as [c w]. cbn [fst snd] in Hw.
  rewrite first_change_skip.
  replace (S i + (w - 1))%nat with (i + w)%nat by lia.
  replace (drop (w - 1) p) with (drop w (c0 :: p))
    by (destruct w; [lia | cbn [drop]; f_equal; lia]).
  reflexivity.
Qed.

Lemma first_change_mapped mapping : forall p i,
  match first_change mapping 0 i p with
  | None => p = mapped mapping p
  | Some (j, r, width) =>
    exists j', j = (i + j')%nat /\
      take j' p ++ write_mapped r
        ++ mapped mapping (drop (j' + Z.to_nat width) p)
      = mapped mapping p
  end.
Proof.
  induction p as [|p Hp IH] using range_ind; intros i; [reflexivity |].
  rewrite first_change_cons, (mapped_cons mapping p) by exact Hp.
  pose proof (DecodeRune_decoded p) as Hd.
  pose proof (decoded_width _ _ _ Hd Hp) as Hw.
  pose proof (decoded_ValidRune _ _ _ Hd) as Hv. apply ValidRune_spec in Hv.
  destruct (DecodeRune p) as [c w]. cbn [fst snd] in *.
  assert (Hkeep : mapping c = c -> ~ (c = RuneError /\ w = 1%nat) ->
    match first_change mapping 0 (i + w) (drop w p) with
    | None => p = write_mapped (mapping c) ++ mapped mapping (drop w p)
    | Some (j, r, width) =>
      exists j', j = (i + j')%nat /\
        take j' p ++ write_mapped r
          ++ mapped mapping (drop (j' + Z.to_nat width) p)
        = write_mapped (mapping c) ++ mapped mapping (drop w p)
    end).
  { intros Hr Hne. rewrite Hr.
    assert (Henc : write_mapped c = take w p).
    { unfold write_mapped. destruct (Z.leb_spec 0 c); [| lia].
      destruct (decoded_EncodeRune _ _ _ Hd Hp) as [(? & ? & _) | ->]; tauto. }
    specialize (IH (i + w)%nat).
    destruct (first_change mapping 0 (i + w) (drop w p)) as [[[j r] width]|].
    - destruct IH as (j' & -> & IH). exists (w + j')%nat. split; [lia |].
      rewrite <- take_take_drop, <- app_assoc, Henc. f_equal.
      rewrite <- IH. rewrite drop_drop. do 4 f_equal. lia.
    - rewrite <- IH, Henc. now rewrite take_drop. }
  destruct (Z.eqb_spec (mapping c) c) as [Hr | Hr];
    destruct (Z.eqb_spec c RuneError) as [Hc | Hc];
    destruct (Z.eqb_spec (Z.of_nat w) 1) as [Hw1 | Hw1]; cbn [andb negb];
    try (apply Hkeep; [exact Hr | intros [? ?]; lia]).
  all: exists 0%nat; split; [lia |]; rewrite take_0; cbn [app];
    do 3 f_equal; try lia;
    rewrite (RuneLen_decoded _ _ _ Hd Hp Hc); lia.
Qed.

Lemma Map_mapped mapping s : Map mapping s = mapped mapping s.
Proof.
  unfold Map. pose proof (first_change_mapped mapping s 0) as H.
  destruct (first_change mapping 0 0 s) as [[[j r] width]|]; [| exact H].
  destruct H as (j' & -> & H). exact H.
Qed.

End bytealg_facts.

Module trim_facts.
Import utf8 utf8_facts bytealg bytealg_facts.

Lemma IsSpace_ascii r :
  0 <= r < 0x80 -> unicode.IsSpace r = asciiSpace r.
Proof.
  intros Hr. unfold unicode.IsSpace, asciiSpace, unicode.MaxLatin1.
  rewrite Z.mod_small by lia.
  destruct (Z.leb_spec r 0xFF); [| lia].
  destruct (Z.eqb_spec r 0x85); [lia |].
  destruct (Z.eqb_spec r 0xA0); [lia |].
  now rewrite !orb_false_r.
Qed.

Lemma string_of_runes_cons r rs :
  string_of_runes (r :: rs) = EncodeRune r ++ string_of_runes rs.
Proof. reflexivity. Qed.

Lemma string_of_runes_app rs1 rs2 :
  string_of_runes (rs1 ++ rs2) = string_of_runes rs1 ++ string_of_runes rs2.
Proof. unfold string_of_runes. apply flat_map_app. Qed.

Lemma string_of_runes_snoc rs r :
  string_of_runes (rs ++ [r]) = string_of_runes rs ++ EncodeRune r.
Proof.
  rewrite string_of_runes_app. cbn [string_of_runes flat_map].
  now rewrite app_nil_r.
Qed.

(** *** Trimming on the left *)

Lemma indexFunc_from_skip f truth k : forall i p,
  indexFunc_from f truth k i p = indexFunc_from f truth 0 (i + k) (drop k p).
Proof.
  induction k as [|k IH]; intros i p.
  - now rewrite drop_0, Nat.add_0_r.
  - destruct p as [|c p]; [reflexivity |]. cbn [indexFunc_from drop].
    rewrite IH. f_equal. lia.
Qed.

Lemma indexFunc_from_EncodeRune f truth i r rest :
  ValidRune r = true ->
  indexFunc_from f truth 0 i (EncodeRune r ++ rest) =
  if Bool.eqb (f r) truth then Some i
  else indexFunc_from f truth 0 (i + length (EncodeRune r)) rest.
Proof.
  intros Hv. pose proof (DecodeRune_EncodeRune r rest Hv) as Hd.
  pose proof (EncodeRune_nonempty r) as Hne.
  destruct (EncodeRune r) as [|c0 tl] eqn:E; [congruence |].
  cbn [app indexFunc_from]. cbn [app] in Hd. rewrite Hd.
  destruct (Bool.eqb (f r) truth); [reflexivity |].
  rewrite indexFunc_from_skip. cbn [length].
  replace (S i + (S (length tl) - 1))%nat with (i + S (length tl))%nat by lia.
  replace (S (length tl) - 1)%nat with (length tl) by lia.
  now rewrite drop_app_length.
Qed.

Lemma indexFunc_from_spaces rs : forall i,
  Forall (fun r => ValidRune r = true) rs ->
  match indexFunc_from unicode.IsSpace false 0 i (string_of_runes rs) with
  | None => drop_spaces rs = []
  | Some j => exists j', j = (i + j')%nat /\
      drop j' (string_of_runes rs) = string_of_runes (drop_spaces rs)
  end.
Proof.
  induction rs as [|r rs IH]; intros i Hv; [reflexivity |].
  apply Forall_cons in Hv as [Hr Hrs].
  rewrite string_of_runes_cons, indexFunc_from_EncodeRune by exact Hr.
  cbn [drop_spaces]. destruct (unicode.IsSpace r); cbn [Bool.eqb].
  - specialize (IH (i + length (EncodeRune r))%nat Hrs).
    destruct (indexFunc_from _ _ _ _ _) as [j|]; [| exact IH].
    destruct IH as (j' & -> & IH). exists (length (EncodeRune r) + j')%nat.
    split; [lia |]. now rewrite <- drop_drop, drop_app_length.
  - exists 0%nat. split; [lia | reflexivity].
Qed.

Lemma TrimLeftFunc_spaces rs :
  Forall (fun r => ValidRune r = true) rs ->
  TrimLeftFunc (string_of_runes rs) unicode.IsSpace
  = string_of_runes (drop_spaces rs).
Proof.
  intros Hv. unfold TrimLeftFunc, indexFunc.
  pose proof (indexFunc_from_spaces rs 0 Hv) as H.
  destruct (indexFunc_from _ _ _ _ _) as [j|].
  - destruct H as (j' & -> & H). exact H.
  - now rewrite H.
Qed.

(** *** Trimming on the right *)

Lemma drop_spaces_right_snoc rs r :
  drop_spaces_right (rs ++ [r])
  = if unicode.IsSpace r then drop_spaces_right rs else rs ++ [r].
Proof.
  unfold drop_spaces_right. rewrite reverse_snoc. cbn [drop_spaces].
  destruct (unicode.IsSpace r); [reflexivity |].
  now rewrite reverse_cons, reverse_involutive.
Qed.

Lemma drop_spaces_right_nil : drop_spaces_right [] = [].
Proof. reflexivity. Qed.

Lemma drop_spaces_right_prefix rs :
  exists tail, rs = drop_spaces_right rs ++ tail.
Proof.
  induction rs as [|r rs IH] using rev_ind; [now exists [] |].
  rewrite drop_spaces_right_snoc. destruct (unicode.IsSpace r).
  - destruct IH as [tail IH]. exists (tail ++ [r]).
    rewrite app_assoc. now rewrite <- IH.
  - exists []. now rewrite app_nil_r.
Qed.

Lemma drop_spaces_right_last rs kept r :
  drop_spaces_right rs = kept ++ [r] -> unicode.IsSpace r = false.
Proof.
  induction rs as [|r0 rs IH] using rev_ind.
  - intros H. destruct kept; discriminate.
  - rewrite drop_spaces_right_snoc. destruct (unicode.IsSpace r0) eqn:E.
    + exact IH.
    + intros H. apply app_inj_tail in H as [_ ->]. exact E.
Qed.

Lemma lastIndexFunc_from_spaces rs : forall post fuel,
  Forall (fun r => ValidRune r = true) rs ->
  (length (string_of_runes rs) <= fuel)%nat ->
  lastIndexFunc_from fuel (string_of_runes rs ++ post) unicode.IsSpace false
    (length (string_of_runes rs))
  = match reverse (drop_spaces_right rs) with
    | [] => None
    | r :: kept => Some (length (string_of_runes (reverse kept)))
    end.
Proof.
  induction rs as [|r rs IH] using rev_ind; intros post fuel Hv Hf.
  - destruct fuel; reflexivity.
  - apply Forall_app in Hv as [Hrs Hr]. apply Forall_inv in Hr.
    rewrite string_of_runes_snoc in *. rewrite length_app in *.
    pose proof (EncodeRune_nonempty r) as Hne.
    assert (0 < length (EncodeRune r))%nat as Hlen
      by (destruct (EncodeRune r); [congruence | cbn; lia]).
    destruct fuel as [|fuel]; [lia |]. cbn [lastIndexFunc_from].
    destruct (Nat.eqb_spec (length (string_of_runes rs) + length (EncodeRune r)) 0);
      [lia |].
    rewrite <- length_app, take_app_length, DecodeLastRune_EncodeRune by exact Hr.
    rewrite length_app.
    replace (length (string_of_runes rs) + length (EncodeRune r)
             - length (EncodeRune r))%nat
      with (length (string_of_runes rs)) by lia.
    rewrite drop_spaces_right_snoc.
    destruct (unicode.IsSpace r); cbn [Bool.eqb].
    + rewrite <- app_assoc. apply IH; [exact Hrs | lia].
    + rewrite reverse_snoc. now rewrite reverse_involutive.
Qed.

Lemma at_index_app_l p q i :
  0 <= i < Z.of_nat (length p) -> at_index (p ++ q) i = at_index p i.
Proof.
  intros Hi. unfold at_index. now rewrite lookup_app_l by lia.
Qed.

Lemma at_index_first_EncodeRune pre r rest :
  ValidRune r = true ->
  (r < 0x80 /\ EncodeRune r = [Zbyte r] /\
   at_index (pre ++ EncodeRune r ++ rest) (Z.of_nat (length pre)) = r) \/
  (0x80 <= r /\
   0x80 <= at_index (pre ++ EncodeRune r ++ rest) (Z.of_nat (length pre))).
Proof.
  intros Hv. rewrite <- (Z.add_0_r (Z.of_nat (length pre))).
  rewrite at_index_app_r by lia.
  destruct (EncodeRune_shape r Hv) as [[Hr He] | (Hr & c0 & tl & He & H0 & _)].
  - left. rewrite He. repeat split; try assumption.
    change (byteZ (Zbyte r) = r). apply ValidRune_spec in Hv.
    apply byteZ_Zbyte. lia.
  - right. rewrite He. split; [exact Hr |].
    change (0x80 <= byteZ c0). lia.
Qed.

Lemma at_index_last_EncodeRune pre r rest :
  ValidRune r = true ->
  (r < 0x80 /\ EncodeRune r = [Zbyte r] /\
   at_index (pre ++ EncodeRune r ++ rest)
            (Z.of_nat (length pre + length (EncodeRune r) - 1)) = r) \/
  (0x80 <= r /\
   0x80 <= at_index (pre ++ EncodeRune r ++ rest)
                    (Z.of_nat (length pre + length (EncodeRune r) - 1))).
Proof.
  intros Hv.
  destruct (EncodeRune_shape r Hv) as [[Hr He] | (Hr & c0 & tl & He & H0 & Htl & Hlen)].
  - left. rewrite He. cbn [length].
    replace (Z.of_nat (length pre + 1 - 1)) with (Z.of_nat (length pre) + 0) by lia.
    rewrite at_index_app_r by lia. repeat split; try assumption.
    change (byteZ (Zbyte r) = r). apply ValidRune_spec in Hv.
    apply byteZ_Zbyte. lia.
  - right. split; [exact Hr |]. rewrite He. cbn [length].
    replace (Z.of_nat (length pre + S (length tl) - 1))
      with (Z.of_nat (length pre) + Z.of_nat (length tl)) by lia.
    rewrite at_index_app_r by lia.
    change ((c0 :: tl) ++ rest) with ([c0] ++ tl ++ rest).
    replace (Z.of_nat (length tl))
      with (Z.of_nat (length [c0]) + (Z.of_nat (length tl) - 1))
      by (cbn [length]; lia).
    rewrite at_index_app_r, at_index_app_l by lia.
    apply (at_index_Forall (fun b => 0x80 <= b) tl); [| lia].
    eapply Forall_impl; [exact Htl |]. cbn beta. intros; lia.
Qed.

Lemma TrimRightFunc_spaces rs :
  Forall (fun r => ValidRune r = true) rs ->
  TrimRightFunc (string_of_runes rs) unicode.IsSpace
  = string_of_runes (drop_spaces_right rs).
Proof.
  intros Hv. unfold TrimRightFunc, lastIndexFunc.
  pose proof (lastIndexFunc_from_spaces rs [] _ Hv (le_n _)) as H.
  rewrite app_nil_r in H. rewrite H. clear H.
  destruct (reverse (drop_spaces_right rs)) as [|r kept] eqn:E.
  - apply (f_equal reverse) in E. rewrite reverse_involutive in E.
    now rewrite E, take_0.
  - apply (f_equal reverse) in E.
    rewrite reverse_involutive, reverse_cons in E.
    destruct (drop_spaces_right_prefix rs) as [tail Ht]. rewrite E in Ht.
    rewrite E, string_of_runes_snoc.
    assert (Hr : ValidRune r = true).
    { rewrite Ht in Hv. apply Forall_app in Hv as [Hv _].
      apply Forall_app in Hv as [_ Hv]. now apply Forall_inv in Hv. }
    assert (Hs : string_of_runes rs
                 = string_of_runes (reverse kept) ++ EncodeRune r
                     ++ string_of_runes tail).
    { rewrite Ht at 1. rewrite <- app_assoc, !string_of_runes_app.
      cbn [string_of_runes flat_map]. now rewrite app_nil_r. }
    rewrite Hs.
    destruct (at_index_first_EncodeRune (string_of_runes (reverse kept)) r
                (string_of_runes tail) Hr) as [(Hlt & He & ->) | (Hge & Hat)].
    + unfold RuneSelf. destruct (Z.leb_spec 0x80 r); [lia |].
      rewrite He. rewrite app_assoc.
      rewrite take_app_length'; [reflexivity |]. rewrite length_app. reflexivity.
    + unfold RuneSelf.
      destruct (Z.leb_spec 0x80 (at_index (string_of_runes (reverse kept)
                  ++ EncodeRune r ++ string_of_runes tail)
                  (Z.of_nat (length (string_of_runes (reverse kept))))));
        [| lia].
      rewrite drop_app_length, DecodeRune_EncodeRune by exact Hr.
      rewrite app_assoc.
      rewrite take_app_length'; [reflexivity |]. rewrite length_app. reflexivity.
Qed.

Lemma TrimSpace_stop_spaces rs : forall post,
  Forall (fun r => ValidRune r = true) rs ->
  TrimSpace_stop (length (string_of_runes rs)) (string_of_runes rs ++ post)
  = string_of_runes (drop_spaces_right rs).
Proof.
  induction rs as [|r rs IH] using rev_ind; intros post Hv; [reflexivity |].
  apply Forall_app in Hv as [Hrs Hr]. apply Forall_inv in Hr.
  rewrite string_of_runes_snoc, <- app_assoc, length_app.
  pose proof (EncodeRune_nonempty r) as Hne.
  destruct (length (string_of_runes rs) + length (EncodeRune r))%nat
    as [|stop'] eqn:Hstop;
    [destruct (EncodeRune r); [congruence | cbn in Hstop; lia] |].
  cbn [TrimSpace_stop]. rewrite <- Hstop.
  replace stop' with (length (string_of_runes rs) + length (EncodeRune r) - 1)%nat
    by lia.
  clear Hstop stop'.
  rewrite drop_spaces_right_snoc.
  destruct (at_index_last_EncodeRune (string_of_runes rs) r post Hr)
    as [(Hlt & He & ->) | (Hge & Hat)].
  - unfold RuneSelf. destruct (Z.leb_spec 0x80 r); [lia |].
    apply ValidRune_spec in Hr. rewrite <- IsSpace_ascii by lia.
    rewrite He in *. cbn [length] in *.
    replace (length (string_of_runes rs) + 1 - 1)%nat
      with (length (string_of_runes rs)) by lia.
    destruct (unicode.IsSpace r).
    + apply IH. exact Hrs.
    + rewrite app_assoc, string_of_runes_snoc, He.
      apply take_app_length'. now rewrite length_app.
  - unfold RuneSelf.
    destruct (Z.leb_spec 0x80 (at_index (string_of_runes rs ++ EncodeRune r ++ post)
       (Z.of_nat (length (string_of_runes rs) + length (EncodeRune r) - 1))));
      [| lia].
    rewrite app_assoc, <- length_app, take_app_length.
    rewrite <- string_of_runes_snoc, TrimRightFunc_spaces.
    + now rewrite drop_spaces_right_snoc.
    + apply Forall_app. split; [exact Hrs | now constructor].
Qed.

Lemma drop_spaces_suffix rs :
  Forall (fun r => ValidRune r = true) rs ->
  Forall (fun r => ValidRune r = true) (drop_spaces rs).
Proof.
  induction 1 as [|r rs Hr Hrs IH]; [constructor |].
  cbn [drop_spaces]. destruct (unicode.IsSpace r); [exact IH | now constructor].
Qed.

Theorem TrimSpace_string_of_runes rs :
  Forall (fun r => ValidRune r = true) rs ->
  TrimSpace (string_of_runes rs) = string_of_runes (trim_runes rs).
Proof.
  induction 1 as [|r rs Hr Hrs IH]; [reflexivity |].
  assert (Hall : Forall (fun r => ValidRune r = true) (r :: rs))
    by now constructor.
  rewrite string_of_runes_cons. unfold trim_runes.
  destruct (at_index_first_EncodeRune [] r (string_of_runes rs) Hr)
    as [(Hlt & He & Hat) | (Hge & Hat)]; cbn [app length] in Hat.
  - rewrite He in *. cbn [app TrimSpace]. change (at_index _ _) with (byteZ (Zbyte r)) in Hat.
    rewrite Hat. unfold RuneSelf. destruct (Z.leb_spec 0x80 r); [lia |].
    apply ValidRune_spec in Hr as Hr'. rewrite <- IsSpace_ascii by lia.
    cbn [drop_spaces]. destruct (unicode.IsSpace r).
    + exact IH.
    + change (Zbyte r :: string_of_runes rs) with ([Zbyte r] ++ string_of_runes rs).
      rewrite <- He, <- string_of_runes_cons.
      pose proof (TrimSpace_stop_spaces (r :: rs) [] Hall) as Hstop.
      now rewrite app_nil_r in Hstop.
  - destruct (EncodeRune r) as [|c0 tl] eqn:E;
      [now apply EncodeRune_nonempty in E |].
    cbn [app TrimSpace]. change (at_index _ _) with (byteZ c0) in Hat.
    unfold RuneSelf. destruct (Z.leb_spec 0x80 (byteZ c0)); [| lia].
    change (c0 :: tl ++ string_of_runes rs) with ((c0 :: tl) ++ string_of_runes rs).
    rewrite <- E, <- string_of_runes_cons. unfold TrimFunc.
    rewrite TrimLeftFunc_spaces by exact Hall.
    apply TrimRightFunc_spaces, drop_spaces_suffix, Hall.
Qed.

End trim_facts.

Lemma bytes_str p : bytes (str p) = p.
Proof. apply list_ascii_of_string_of_list_ascii. Qed.

Lemma str_bytes s : str (bytes s) = s.
Proof. apply string_of_list_ascii_of_string. Qed.

Lemma length_bytes s : length (bytes s) = String.length s.
Proof. induction s as [|c s IH]; [reflexivity |]. cbn. now rewrite <- IH. Qed.

Lemma len_str p : len (str p) = Z.of_nat (length p).
Proof. unfold len. now rewrite <- length_bytes, bytes_str. Qed.

Module sanitize_facts.
Import utf8 utf8_facts bytealg bytealg_facts trim_facts.

Lemma mapped_strip p : mapped strip p = string_of_runes (printable_runes p).
Proof.
  unfold mapped, printable_runes. pose proof (range_ValidRune p) as Hv.
  induction Hv as [|[c w] l Hc Hl IH]; [reflexivity |].
  cbn [flat_map map fst]. rewrite IH, filter_cons. cbn [fst] in *.
  apply ValidRune_spec in Hc.
  unfold write_mapped, strip.
  destruct (is_control c) eqn:E.
  - rewrite decide_False by congruence. reflexivity.
  - rewrite decide_True by reflexivity.
    destruct (Z.leb_spec 0 c); [reflexivity | lia].
Qed.

Lemma Forall_drop_spaces (P : Z -> Prop) rs :
  Forall P rs -> Forall P (drop_spaces rs).
Proof.
  induction 1 as [|r rs Hr Hrs IH]; [constructor |].
  cbn [drop_spaces]. destruct (unicode.IsSpace r); [exact IH | now constructor].
Qed.

Lemma Forall_drop_spaces_right (P : Z -> Prop) rs :
  Forall P rs -> Forall P (drop_spaces_right rs).
Proof.
  intros H. unfold drop_spaces_right.
  apply Forall_reverse, Forall_drop_spaces, Forall_reverse, H.
Qed.

Lemma Forall_trim_runes (P : Z -> Prop) rs :
  Forall P rs -> Forall P (trim_runes rs).
Proof. intros H. apply Forall_drop_spaces_right, Forall_drop_spaces, H. Qed.

Lemma printable_runes_ok p :
  Forall (fun r => ValidRune r = true /\ is_control r = false)
         (printable_runes p).
Proof.
  unfold printable_runes. apply Forall_forall. intros r Hr.
  apply list_elem_of_filter in Hr as [Hc Hr]. split; [| exact Hc].
  apply list_elem_of_fmap in Hr as ([c w] & -> & Hr).
  pose proof (range_ValidRune p) as Hv. rewrite Forall_forall in Hv.
  apply (Hv _ Hr).
Qed.

Lemma sanitized_runes_ok p :
  Forall (fun r => ValidRune r = true /\ is_control r = false)
         (sanitized_runes p).
Proof. apply Forall_trim_runes, printable_runes_ok. Qed.

(** The byte-level form of [SanitizeHeaderValue] past its size check. *)
Lemma sanitize_bytes p :
  TrimSpace (Map strip p) = string_of_runes (sanitized_runes p).
Proof.
  rewrite Map_mapped, mapped_strip. apply TrimSpace_string_of_runes.
  eapply Forall_impl; [apply printable_runes_ok |]. cbn beta. tauto.
Qed.

(** Trimming twice is trimming once. *)
Lemma drop_spaces_head rs :
  match drop_spaces rs with
  | [] => True
  | r :: _ => unicode.IsSpace r = false
  end.
Proof.
  induction rs as [|r rs IH]; [exact I |]. cbn [drop_spaces].
  destruct (unicode.IsSpace r) eqn:E; [exact IH | exact E].
Qed.

Lemma drop_spaces_right_idemp rs :
  drop_spaces_right (drop_spaces_right rs) = drop_spaces_right rs.
Proof.
  induction rs as [|r rs IH] using rev_ind; [reflexivity |].
  rewrite drop_spaces_right_snoc. destruct (unicode.IsSpace r) eqn:E;
    [exact IH |]. now rewrite drop_spaces_right_snoc, E.
Qed.

Lemma trim_runes_idemp rs : trim_runes (trim_runes rs) = trim_runes rs.
Proof.
  unfold trim_runes.
  assert (H : drop_spaces (drop_spaces_right (drop_spaces rs))
              = drop_spaces_right (drop_spaces rs)).
  { pose proof (drop_spaces_head rs) as Hh.
    destruct (drop_spaces_right_prefix (drop_spaces rs)) as [tail Ht].
    destruct (drop_spaces_right (drop_spaces rs)) as [|t T]; [reflexivity |].
    rewrite Ht in Hh. cbn [app] in Hh. cbn [drop_spaces]. now rewrite Hh. }
  rewrite H. apply drop_spaces_right_idemp.
Qed.

Lemma printable_string_of_runes rs :
  Forall (fun r => ValidRune r = true /\ is_control r = false) rs ->
  printable_runes (string_of_runes rs) = rs.
Proof.
  intros H. unfold printable_runes. rewrite range_string_of_runes.
  - induction H as [|r rs [_ Hr] Hrs IH]; [reflexivity |].
    rewrite filter_cons, decide_True by exact Hr. now rewrite IH.
  - eapply Forall_impl; [exact H |]. cbn beta. tauto.
Qed.

Lemma sanitize_bytes_idemp p :
  TrimSpace (Map strip (TrimSpace (Map strip p))) = TrimSpace (Map strip p).
Proof.
  rewrite !sanitize_bytes. f_equal. unfold sanitized_runes at 1.
  rewrite printable_string_of_runes by apply sanitized_runes_ok.
  apply trim_runes_idemp.
Qed.

(** *** Bytes and lengths of the sanitized value *)

Lemma EncodeRune_printable r :
  ValidRune r = true -> is_control r = false ->
  Forall (fun c => 0x20 <= byteZ c /\ byteZ c <> 0x7F) (EncodeRune r).
Proof.
  intros Hv Hc. unfold is_control in Hc.
  apply orb_false_iff in Hc as [H1 H2]. apply Z.ltb_ge in H1.
  apply Z.eqb_neq in H2.
  destruct (EncodeRune_shape r Hv) as [[Hr He] | (Hr & c0 & tl & He & H0 & Htl & _)];
    rewrite He.
  - constructor; [| constructor]. rewrite byteZ_Zbyte by lia. lia.
  - constructor; [lia |]. eapply Forall_impl; [exact Htl |]. cbn beta. intros; lia.
Qed.

Lemma string_of_runes_printable rs :
  Forall (fun r => ValidRune r = true /\ is_control r = false) rs ->
  Forall (fun c => 0x20 <= byteZ c /\ byteZ c <> 0x7F) (string_of_runes rs).
Proof.
  induction 1 as [|r rs [Hv Hc] Hrs IH]; [constructor |].
  rewrite string_of_runes_cons. apply Forall_app. split; [| exact IH].
  now apply EncodeRune_printable.
Qed.

Lemma ValidString_string_of_runes p :
  ValidString p = true -> string_of_runes (map fst (range p)) = p.
Proof.
  unfold ValidString.
  induction p as [|p Hp IH] using range_ind; [reflexivity |].
  rewrite range_cons by exact Hp. cbn [forallb map].
  intros [Hc Hrest]%andb_true_iff. rewrite string_of_runes_cons, (IH Hrest).
  pose proof (DecodeRune_decoded p) as Hd.
  destruct (decoded_EncodeRune _ _ _ Hd Hp) as [(H1 & H2 & _) | ->].
  - rewrite H1, H2 in Hc. discriminate.
  - apply take_drop.
Qed.

Lemma length_string_of_runes_filter (P : Z -> Prop) `{!forall r, Decision (P r)} rs :
  (length (string_of_runes (filter P rs)) <= length (string_of_runes rs))%nat.
Proof.
  induction rs as [|r rs IH]; [reflexivity |].
  rewrite filter_cons, string_of_runes_cons, length_app.
  destruct (decide (P r)); [rewrite string_of_runes_cons, length_app |]; lia.
Qed.

Lemma length_string_of_runes_drop_spaces rs :
  (length (string_of_runes (drop_spaces rs)) <= length (string_of_runes rs))%nat.
Proof.
  induction rs as [|r rs IH]; [reflexivity |]. cbn [drop_spaces].
  destruct (unicode.IsSpace r); [| reflexivity].
  rewrite string_of_runes_cons, length_app. lia.
Qed.

Lemma length_string_of_runes_drop_spaces_right rs :
  (length (string_of_runes (drop_spaces_right rs))
   <= length (string_of_runes rs))%nat.
Proof.
  destruct (drop_spaces_right_prefix rs) as [tail Ht].
  rewrite Ht at 2. rewrite string_of_runes_app, length_app. lia.
Qed.

Lemma length_sanitized p :
  ValidString p = true ->
  (length (string_of_runes (sanitized_runes p)) <= length p)%nat.
Proof.
  intros Hv. rewrite <- (ValidString_string_of_runes p Hv) at 2.
  unfold sanitized_runes, trim_runes, printable_runes.
  etransitivity; [apply length_string_of_runes_drop_spaces_right |].
  etransitivity; [apply length_string_of_runes_drop_spaces |].
  apply length_string_of_runes_filter.
Qed.

End sanitize_facts.

(** ** headers.go: sanitization *)

Import utf8_facts bytealg_facts trim_facts sanitize_facts.

Lemma SanitizeHeaderValue_ok value maxSize :
  len value <= maxSize ->
  SanitizeHeaderValue value maxSize
  = Ok (str (utf8.string_of_runes (sanitized_runes (bytes value)))).
Proof.
  intros H. unfold SanitizeHeaderValue.
  destruct (Z.gtb_spec (len value) maxSize); [lia |].
  unfold strings.TrimSpace, strings.Map. rewrite bytes_str.
  f_equal. f_equal. apply sanitize_bytes.
Qed.

Lemma SanitizeHeaderValue_too_large value maxSize :
  maxSize < len value ->
  SanitizeHeaderValue value maxSize = Err (ErrHeaderTooLarge maxSize).
Proof.
  intros H. unfold SanitizeHeaderValue.
  destruct (Z.gtb_spec (len value) maxSize); [reflexivity | lia].
Qed.

(** C2: within the size limit, [SanitizeHeaderValue] succeeds and its
    result holds no code point below 0x20 and no 0x7F; no byte of it is
    a carriage return or a line feed. *)
Theorem SanitizeHeaderValue_no_control (value : string) (maxSize : Z) :
  len value <= maxSize ->
  exists sanitized,
    SanitizeHeaderValue value maxSize = Ok sanitized /\
    Forall (fun cw => (cw.1 <? 0x20) || (cw.1 =? 0x7F) = false)
           (utf8.range (bytes sanitized)) /\
    Forall (fun c => byteZ c <> 0x0D /\ byteZ c <> 0x0A) (bytes sanitized).
Proof.
  intros H. eexists. split; [apply SanitizeHeaderValue_ok, H |].
  rewrite bytes_str. pose proof (sanitized_runes_ok (bytes value)) as Hok.
  split.
  - assert (Hr : map fst (utf8.range (utf8.string_of_runes
                   (sanitized_runes (bytes value))))
                 = sanitized_runes (bytes value)).
    { apply range_string_of_runes. eapply Forall_impl; [exact Hok |].
      cbn beta. tauto. }
    rewrite <- Hr in Hok. apply Forall_fmap in Hok.
    eapply Forall_impl; [exact Hok |]. cbn beta. intros cw [_ Hc]. exact Hc.
  - eapply Forall_impl; [apply string_of_runes_printable, Hok |].
    cbn beta. intros c. lia.
Qed.

Lemma SanitizeHeaderValue_no_control_witness :
  exists sanitized,
    SanitizeHeaderValue (String "013" (String "010" " a ")) 5 = Ok sanitized /\
    Forall (fun cw => (cw.1 <? 0x20) || (cw.1 =? 0x7F) = false)
           (utf8.range (bytes sanitized)) /\
    Forall (fun c => byteZ c <> 0x0D /\ byteZ c <> 0x0A) (bytes sanitized).
Proof.
  apply (SanitizeHeaderValue_no_control (String "013" (String "010" " a ")) 5).
  vm_compute. discriminate.
Defined.

(** C7, as the code has it: the value sanitized within the size limit is
    a fixed point of sanitization under every limit that admits it; it
    is no longer than the value itself, so the same limit will do, when
    the value is valid UTF-8. *)
Theorem SanitizeHeaderValue_idempotent (value : string) (maxSize : Z) :
  len value <= maxSize ->
  exists sanitized,
    SanitizeHeaderValue value maxSize = Ok sanitized /\
    (forall limit, len sanitized <= limit ->
       SanitizeHeaderValue sanitized limit = Ok sanitized) /\
    (utf8.ValidString (bytes value) = true ->
       len sanitized <= len value /\
       SanitizeHeaderValue sanitized maxSize = Ok sanitized).
Proof.
  intros H. eexists. split; [apply SanitizeHeaderValue_ok, H |].
  assert (Hfix : forall limit,
    len (str (utf8.string_of_runes (sanitized_runes (bytes value)))) <= limit ->
    SanitizeHeaderValue
      (str (utf8.string_of_runes (sanitized_runes (bytes value)))) limit
    = Ok (str (utf8.string_of_runes (sanitized_runes (bytes value))))).
  { intros limit Hl. rewrite SanitizeHeaderValue_ok by exact Hl.
    rewrite bytes_str. do 2 f_equal.
    rewrite <- (sanitize_bytes (bytes value)).
    rewrite <- sanitize_bytes. apply sanitize_bytes_idemp. }
  split; [exact Hfix |].
  intros Hv.
  assert (Hlen : len (str (utf8.string_of_runes (sanitized_runes (bytes value))))
                 <= len value).
  { rewrite len_str. unfold len. rewrite <- length_bytes.
    apply Nat2Z.inj_le, length_sanitized, Hv. }
  split; [exact Hlen | apply Hfix; lia].
Qed.

Lemma SanitizeHeaderValue_idempotent_witness :
  exists sanitized,
    SanitizeHeaderValue " a b " 5 = Ok sanitized /\
    (forall limit, len sanitized <= limit ->
       SanitizeHeaderValue sanitized limit = Ok sanitized) /\
    (utf8.ValidString (bytes " a b ") = true ->
       len sanitized <= len " a b " /\
       SanitizeHeaderValue sanitized 5 = Ok sanitized).
Proof.
  apply (SanitizeHeaderValue_idempotent " a b " 5). vm_compute. discriminate.
Defined.

(** C7 as stated fails: a byte that is not valid UTF-8 is written back
    as the three bytes of U+FFFD, and the result no longer passes the
    size check its source passed. *)
Lemma SanitizeHeaderValue_grows :
  len (String "255" "") <= 1 /\
  SanitizeHeaderValue (String "255" "") 1
  = Ok (String "239" (String "191" (String "189" ""))) /\
  SanitizeHeaderValue (String "239" (String "191" (String "189" ""))) 1
  = Err (ErrHeaderTooLarge 1).
Proof.
  split; [vm_compute; discriminate |]. split; vm_compute; reflexivity.
Qed.

(** *** headers.go *)

Lemma IsProtectedHeader_spec (to_lower_case : Z -> Z) (name : string) :
  IsProtectedHeader to_lower_case name = true
  <-> strings.ToLower to_lower_case name ∈ protected_names.
Proof.
  unfold IsProtectedHeader.
  generalize (strings.ToLower to_lower_case name). intros normalized. split.
  - destruct (protectedHeaders !! normalized) as [b|] eqn:E; [| discriminate].
    intros _. unfold protectedHeaders in E.
    apply elem_of_list_to_map_2 in E.
    apply (list_elem_of_fmap_2 fst) in E. exact E.
  - unfold protected_names. intros H.
    repeat (apply elem_of_cons in H as [-> | H]; [reflexivity |]).
    now apply elem_of_nil in H.
Qed.

(** C1: a header whose lower-cased name is in the protected set is never
    written: [InjectHeader] returns [nil] and the request it was given,
    whatever the value, the override flag and the size limit. *)
Theorem InjectHeader_protected (to_lower_case : Z -> Z) (req : http.Request)
    (name value : string) (override : bool) (maxSize : Z) :
  strings.ToLower to_lower_case name ∈ protected_names ->
  InjectHeader to_lower_case req name value override maxSize = (req, None).
Proof.
  intros H. apply IsProtectedHeader_spec in H.
  unfold InjectHeader. now rewrite H.
Qed.

Lemma Get_Set_other (h : http.Header) (key other value : string) :
  textproto.CanonicalMIMEHeaderKey other <> textproto.CanonicalMIMEHeaderKey key ->
  http.Get (http.Set_ h key value) other = http.Get h other.
Proof.
  intros Hne. unfold http.Get, http.Set_. now rewrite lookup_insert_ne.
Qed.

(** C9: [InjectHeader] writes at most the header it is given the name
    of, and nothing at all when it returns an error, which it does for a
    value longer than [maxSize] only. *)
Theorem InjectHeader_frame (to_lower_case : Z -> Z) (req : http.Request)
    (name value : string) (override : bool) (maxSize : Z) :
  let '(req', err) := InjectHeader to_lower_case req name value override maxSize in
  http.Host req' = http.Host req /\
  (forall key : string, key <> textproto.CanonicalMIMEHeaderKey name ->
     http.Header_ req' !! key = http.Header_ req !! key) /\
  (forall other : string,
     textproto.CanonicalMIMEHeaderKey other <> textproto.CanonicalMIMEHeaderKey name ->
     http.Get (http.Header_ req') other = http.Get (http.Header_ req) other) /\
  (forall e, err = Some e ->
     req' = req /\ e = ErrHeaderTooLarge maxSize /\ maxSize < len value).
Proof.
  unfold InjectHeader.
  destruct (IsProtectedHeader to_lower_case name);
    [repeat split; intros; congruence |].
  destruct (Z_le_gt_dec (len value) maxSize) as [Hle | Hgt].
  - rewrite SanitizeHeaderValue_ok by exact Hle.
    destruct (negb _ && negb override);
      [repeat split; intros; congruence |].
    cbn [http.Host http.Header_]. repeat split; try congruence.
    + intros key Hkey. unfold http.Set_. now rewrite lookup_insert_ne.
    + intros other Hother. now apply Get_Set_other.
  - rewrite SanitizeHeaderValue_too_large by lia.
    repeat split; intros; try congruence; lia.
Qed.

(** *** claims.go *)

Lemma Split_nested_path n :
  strings.Split (nested_path n) "." = replicate (S n) "a".
Proof.
  induction n as [|n IH]; [reflexivity |].
  cbn [nested_path]. change (strings.Split (String "a" (String "." (nested_path n))) ".")
    with (match "" :: strings.Split (nested_path n) "." with
          | h :: t => String "a" h :: t
          | [] => ["a"]
          end).
  now rewrite IH.
Qed.

Lemma ExtractClaim_loop_nested path n :
  ExtractClaim_loop (nested_doc n) path (replicate (S n) "a")
  = Ok (VString "leaf").
Proof.
  induction n as [|n IH]; [reflexivity |].
  cbn [replicate ExtractClaim_loop nested_doc].
  rewrite lookup_singleton_eq. exact IH.
Qed.

(** C4: a path of more segments than [maxDepth] fails with the depth
    error whatever the document holds, and some document resolves a path
    of exactly [maxDepth] segments. *)
Theorem ExtractClaim_depth_boundary (maxDepth : Z) :
  0 < maxDepth ->
  (forall (data : gmap string Value) (path : string),
     maxDepth < Z.of_nat (length (strings.Split path ".")) ->
     ExtractClaim data path maxDepth = Err (ErrDepthExceeded maxDepth)) /\
  (exists (data : gmap string Value) (path : string) (value : Value),
     Z.of_nat (length (strings.Split path ".")) = maxDepth /\
     ExtractClaim data path maxDepth = Ok value).
Proof.
  intros Hpos. split.
  - intros data path Hlen. unfold ExtractClaim.
    destruct (Z.gtb_spec (Z.of_nat (length (strings.Split path "."))) maxDepth);
      [reflexivity | lia].
  - exists (nested_doc (Z.to_nat maxDepth - 1)),
           (nested_path (Z.to_nat maxDepth - 1)), (VString "leaf").
    unfold ExtractClaim. rewrite Split_nested_path, length_replicate.
    split; [lia |].
    destruct (Z.gtb_spec (Z.of_nat (S (Z.to_nat maxDepth - 1))) maxDepth);
      [lia |].
    apply ExtractClaim_loop_nested.
Qed.

Lemma ExtractClaim_depth_boundary_witness :
  (forall (data : gmap string Value) (path : string),
     2 < Z.of_nat (length (strings.Split path ".")) ->
     ExtractClaim data path 2 = Err (ErrDepthExceeded 2)) /\
  (exists (data : gmap string Value) (path : string) (value : Value),
     Z.of_nat (length (strings.Split path ".")) = 2 /\
     ExtractClaim data path 2 = Ok value).
Proof. apply (ExtractClaim_depth_boundary 2). lia. Defined.

(** C5, as the code has it: the empty path is the one segment [""], so
    it resolves to the entry under the empty key when the document has
    one, and fails with "claim not found" when it has none. *)
Theorem ExtractClaim_empty_path (data : gmap string Value) (maxDepth : Z) :
  1 <= maxDepth ->
  ExtractClaim data "" maxDepth
  = match data !! "" with
    | Some value => Ok value
    | None => Err (ErrClaimNotFound "")
    end.
Proof.
  intros H. unfold ExtractClaim. cbn [strings.Split length].
  destruct (Z.gtb_spec (Z.of_nat 1) maxDepth); [lia |].
  cbn [ExtractClaim_loop]. now destruct (data !! "").
Qed.

Lemma ExtractClaim_empty_path_witness :
  ExtractClaim {[ "sub" := VString "1234567890" ]} "" 1
  = match ({[ "sub" := VString "1234567890" ]} : gmap string Value) !! "" with
    | Some value => Ok value
    | None => Err (ErrClaimNotFound "")
    end.
Proof. apply ExtractClaim_empty_path. lia. Defined.

(** C5 as stated fails on a document that has an entry under the empty
    key. *)
Lemma ExtractClaim_empty_path_found :
  1 <= 1 /\
  ExtractClaim {[ "" := VString "x" ]} "" 1 = Ok (VString "x") /\
  ExtractClaim {[ "" := VString "x" ]} "" 1 <> Err (ErrClaimNotFound "").
Proof.
  split; [lia |].
  assert (H : ExtractClaim {[ "" := VString "x" ]} "" 1 = Ok (VString "x"))
    by reflexivity.
  split; [exact H |]. rewrite H. discriminate.
Qed.

(** A number is rendered by [strconv.FormatFloat(v, 'f', -1, 64)],
    whatever the array format, and never fails. *)
Lemma ConvertClaimToString_float (json_Marshal : Value -> option string)
    (strconv_FormatFloat : float -> string) (v : float) (arrayFormat : string) :
  ConvertClaimToString json_Marshal strconv_FormatFloat (VFloat v) arrayFormat
  = Ok (strconv_FormatFloat v).
Proof. reflexivity. Qed.

(** *** config.go *)

Lemma validate_claims_ok (to_lower_case : Z -> Z) (claims : list ClaimMapping) :
  forall (headerNames : gset string) (i : nat),
  validate_claims to_lower_case headerNames i claims = None ->
  Forall (fun m => ClaimPath m <> "" /\ HeaderName m <> "") claims.
Proof.
  induction claims as [|claim rest IH]; intros headerNames i H; [constructor |].
  cbn [validate_claims] in H.
  destruct (String.eqb_spec (ClaimPath claim) ""); [discriminate |].
  destruct (String.eqb_spec (HeaderName claim) ""); [discriminate |].
  destruct (negb _ && negb _ && negb _); [discriminate |].
  destruct (bool_decide _); [discriminate |].
  constructor; [split; assumption | eapply IH, H].
Qed.

Lemma validate_sections_ok (sections : list string) :
  validate_sections sections = None ->
  Forall (fun section => section = "header" \/ section = "payload") sections.
Proof.
  induction sections as [|section rest IH]; intros H; [constructor |].
  cbn [validate_sections] in H.
  destruct (String.eqb_spec section "header") as [Hh | Hh];
    destruct (String.eqb_spec section "payload") as [Hp | Hp];
    cbn [negb andb] in H; try discriminate; constructor; auto.
Qed.

(** What [New] has checked of the configuration a handler runs with: in
    particular no claim path is empty and both ceilings are positive. *)
Lemma New_checked (to_lower_case : Z -> Z) (config cfg : Config) :
  New to_lower_case config = Ok cfg ->
  cfg = config /\
  Claims cfg <> [] /\
  Forall (fun m => ClaimPath m <> "" /\ HeaderName m <> "") (Claims cfg) /\
  Sections cfg <> [] /\
  Forall (fun section => section = "header" \/ section = "payload")
         (Sections cfg) /\
  0 < MaxClaimDepth cfg /\ 0 < MaxHeaderSize cfg.
Proof.
  unfold New, Validate. intros H.
  destruct (Claims config) as [|claim claims] eqn:Hclaims; [discriminate |].
  cbn [length Nat.eqb] in H.
  destruct (validate_claims _ _ _ _) eqn:Hvc; [discriminate |].
  destruct (Sections config) as [|section sections] eqn:Hsections;
    [discriminate |].
  cbn [length Nat.eqb] in H.
  destruct (validate_sections _) eqn:Hvs; [discriminate |].
  destruct (Z.leb_spec (MaxClaimDepth config) 0); [discriminate |].
  destruct (Z.leb_spec (MaxHeaderSize config) 0); [discriminate |].
  destruct (negb _ && negb _); [discriminate |].
  injection H as <-. rewrite Hclaims, Hsections.
  repeat split; try discriminate; try assumption.
  - eapply validate_claims_ok, Hvc.
  - apply validate_sections_ok, Hvs.
Qed.

Example Validate_defaults : Validate (fun r => r) CreateConfig = Some ErrNoClaims.
Proof. reflexivity. Qed.

Example Validate_fail_closed_config :
  Validate (fun r => r) fail_closed_config = None.
Proof. reflexivity. Qed.

Example Validate_empty_path :
  Validate (fun r => r)
    {| SourceHeader := "Authorization"; TokenPrefix := "Bearer ";
       Claims := [ {| ClaimPath := ""; HeaderName := "X-User-Id";
                      Override := false; ArrayFormat := "" |} ];
       Sections := ["payload"]; ContinueOnError := true;
       RemoveSourceHeader := false; MaxClaimDepth := 10;
       MaxHeaderSize := 8192; LogLevel := "warn"; StrictMode := false;
       LogMissingClaims := false |}
  = Some (ErrNoClaimPath 0).
Proof. reflexivity. Qed.

(** ** [encoding/base64] *)

Module base64_facts.
Import base64.

Lemma list_ind3 {A} (P : list A -> Prop) :
  P [] -> (forall a, P [a]) -> (forall a b, P [a; b]) ->
  (forall a b c rest, P rest -> P (a :: b :: c :: rest)) ->
  forall l, P l.
Proof.
  intros H0 H1 H2 H3 l.
  assert (H : P l /\ (forall a, P (a :: l)) /\ (forall a b, P (a :: b :: l))).
  { induction l as [|x l (IH0 & IH1 & IH2)]; [auto |].
    repeat split; auto. }
  apply H.
Qed.

Lemma Encode_values src : Encode src = map encode (values src).
Proof.
  induction src as [|a|a b|a b c rest IH] using list_ind3; cbn [Encode values map].
  - reflexivity.
  - bits_arith. reflexivity.
  - bits_arith. rewrite (lor_add _ _ 16) by (pose proof (byteZ_range b); lia).
    reflexivity.
  - bits_arith. rewrite (lor_add (byteZ a * 65536) _ 16)
      by (pose proof (byteZ_range b); lia).
    rewrite (lor_add _ _ 8) by (pose proof (byteZ_range c); lia).
    now rewrite IH.
Qed.

Lemma values_range src : Forall (fun v => 0 <= v < 64) (values src).
Proof.
  induction src as [|a|a b|a b c rest IH] using list_ind3; cbn [values];
    repeat constructor; try lia. exact IH.
Qed.

Lemma decodeMap_encode v : 0 <= v < 64 -> decodeMap (encode v) = v.
Proof.
  intros Hv.
  assert (H : forallb (fun n => decodeMap (encode (Z.of_nat n)) =? Z.of_nat n)
                      (seq 0 64) = true) by reflexivity.
  rewrite forallb_forall in H.
  specialize (H (Z.to_nat v)). rewrite Z2Nat.id in H by lia.
  apply Z.eqb_eq, H, in_seq. lia.
Qed.

Lemma sextets_encode vs :
  Forall (fun v => 0 <= v < 64) vs -> sextets (map encode vs) = Some vs.
Proof.
  induction 1 as [|v vs Hv Hvs IH]; [reflexivity |].
  cbn [map sextets]. rewrite decodeMap_encode by exact Hv.
  destruct (Z.eqb_spec v 0xFF); [lia |]. cbn [negb]. now rewrite IH.
Qed.

Lemma Zbyte_eq z c : z mod 256 = byteZ c -> Zbyte z = c.
Proof.
  intros H. rewrite <- (Zbyte_byteZ c). unfold Zbyte.
  rewrite !land_255, <- H. now rewrite Z.mod_mod by lia.
Qed.

Lemma quanta_values src : quanta (values src) = Some src.
Proof.
  induction src as [|a|a b|a b c rest IH] using list_ind3;
    cbn [values quanta].
  - reflexivity.
  - pose proof (byteZ_range a). bits_arith.
    rewrite (lor_add _ _ 18) by lia.
    do 2 f_equal. apply Zbyte_eq. lia.
  - pose proof (byteZ_range a). pose proof (byteZ_range b). bits_arith.
    rewrite (lor_add (_ * 262144) _ 18) by lia.
    rewrite (lor_add _ _ 12) by lia.
    f_equal. f_equal; [| f_equal]; apply Zbyte_eq; lia.
  - pose proof (byteZ_range a). pose proof (byteZ_range b).
    pose proof (byteZ_range c). bits_arith. rewrite IH.
    rewrite (lor_add (_ * 262144) _ 18) by lia.
    rewrite (lor_add (_ * 262144 + _) _ 12) by lia.
    rewrite (lor_add _ _ 6) by lia.
    f_equal. f_equal; [| f_equal; [| f_equal]]; apply Zbyte_eq; lia.
Qed.

(** Decoding undoes encoding. *)
Theorem DecodeString_EncodeToString src :
  DecodeString (EncodeToString src) = Some src.
Proof.
  unfold DecodeString, EncodeToString. rewrite bytes_str, Encode_values.
  rewrite sextets_encode by apply values_range.
  now rewrite quanta_values, str_bytes.
Qed.

Lemma encode_not_dot v : 0 <= v < 64 -> encode v <> "."%char.
Proof.
  intros Hv.
  assert (H : forallb (fun n => negb (Ascii.eqb (encode (Z.of_nat n)) "."))
                      (seq 0 64) = true) by reflexivity.
  rewrite forallb_forall in H.
  specialize (H (Z.to_nat v)). rewrite Z2Nat.id in H by lia.
  intros E. rewrite E in H. discriminate H. apply in_seq. lia.
Qed.

Lemma EncodeToString_no_dot src :
  Forall (fun c => c <> "."%char) (bytes (EncodeToString src)).
Proof.
  unfold EncodeToString. rewrite bytes_str, Encode_values.
  apply Forall_fmap. eapply Forall_impl; [apply values_range |].
  cbn beta. intros v Hv. now apply encode_not_dot.
Qed.

End base64_facts.

Import base64_facts.

(** *** [strings.Split] *)

Lemma Split_no_sep (s : string) (sep : ascii) :
  Forall (fun c => c <> sep) (bytes s) -> strings.Split s sep = [s].
Proof.
  induction s as [|c s IH]; [reflexivity |].
  cbn [bytes list_ascii_of_string]. intros [Hc Hs]%Forall_cons.
  cbn [strings.Split]. destruct (Ascii.eqb_spec c sep); [congruence |].
  unfold bytes in IH. now rewrite IH.
Qed.

Lemma Split_app (s t : string) (sep : ascii) :
  Forall (fun c => c <> sep) (bytes s) ->
  strings.Split (s +:+ String sep t) sep = s :: strings.Split t sep.
Proof.
  induction s as [|c s IH].
  - intros _. change (EmptyString +:+ String sep t) with (String sep t).
    cbn [strings.Split]. now rewrite Ascii.eqb_refl.
  - cbn [bytes list_ascii_of_string]. intros [Hc Hs]%Forall_cons.
    change (String c s +:+ String sep t) with (String c (s +:+ String sep t)).
    cbn [strings.Split]. destruct (Ascii.eqb_spec c sep); [congruence |].
    unfold bytes in IH. now rewrite IH.
Qed.

(** C10: of a token whose three segments decode and parse, with no [alg]
    key in the header object, strict mode makes an error and lax mode a
    [JWT]. *)
Theorem ParseJWT_strict_mode
    (json_Unmarshal : string -> option (gmap string Value))
    (token segment0 segment1 segment2 : string)
    (headerBytes payloadBytes : string) (header payload : gmap string Value) :
  strings.Split token "." = [segment0; segment1; segment2] ->
  base64.DecodeString segment0 = Some headerBytes ->
  base64.DecodeString segment1 = Some payloadBytes ->
  json_Unmarshal headerBytes = Some header ->
  json_Unmarshal payloadBytes = Some payload ->
  header !! "alg" = None ->
  ParseJWT json_Unmarshal token true = Err ErrMissingAlg /\
  ParseJWT json_Unmarshal token false
  = Ok {| Header := header; Payload := payload; Signature := segment2 |}.
Proof.
  intros Hs H0 H1 Hh Hp Halg. unfold ParseJWT.
  rewrite Hs, H0, H1, Hh, Hp, Halg. split; reflexivity.
Qed.

Lemma Split_token_of headerJSON payloadJSON signature :
  Forall (fun c => c <> "."%char) (bytes signature) ->
  strings.Split (token_of headerJSON payloadJSON signature) "."
  = [base64.EncodeToString headerJSON; base64.EncodeToString payloadJSON;
     signature].
Proof.
  intros Hsig. unfold token_of.
  rewrite !Split_app by apply EncodeToString_no_dot.
  now rewrite Split_no_sep.
Qed.

(** C6, as the code has it: the token built from two JSON objects that
    the JSON codec carries there and back, and a signature without a
    dot, parses to those objects and that signature, except in strict
    mode when the header object has no [alg] key: then it is refused. *)
Theorem ParseJWT_round_trip
    (json_Unmarshal : string -> option (gmap string Value))
    (json_Marshal : Value -> option string)
    (header payload : gmap string Value)
    (headerJSON payloadJSON signature : string) (strictMode : bool) :
  json_Marshal (VObject header) = Some headerJSON ->
  json_Unmarshal headerJSON = Some header ->
  json_Marshal (VObject payload) = Some payloadJSON ->
  json_Unmarshal payloadJSON = Some payload ->
  Forall (fun c => c <> "."%char) (bytes signature) ->
  ParseJWT json_Unmarshal (token_of headerJSON payloadJSON signature) strictMode
  = if strictMode && negb (bool_decide (is_Some (header !! "alg")))
    then Err ErrMissingAlg
    else Ok {| Header := header; Payload := payload; Signature := signature |}.
Proof.
  intros _ Hh _ Hp Hsig. unfold ParseJWT.
  rewrite Split_token_of by exact Hsig.
  now rewrite !DecodeString_EncodeToString, Hh, Hp.
Qed.

(** *** The handler *)

(** C3: with [ContinueOnError] off, a request without the source header,
    or with a token that does not parse, is not handed to the next
    handler and is left as it came; the response is a 401 carrying one
    JSON object with the fields [error], set to "unauthorized", and
    [message]. *)
Theorem ServeHTTP_fail_closed (to_lower_case : Z -> Z)
    (json_Unmarshal : string -> option (gmap string Value))
    (json_Marshal : Value -> option string)
    (strconv_FormatFloat : float -> string)
    (cfg : Config) (rw : http.ResponseWriter) (req : http.Request) :
  ContinueOnError cfg = false ->
  http.Get (http.Header_ req) (SourceHeader cfg) = "" \/
  is_ok (ParseJWT json_Unmarshal
           (ExtractToken (http.Get (http.Header_ req) (SourceHeader cfg))
                         (TokenPrefix cfg))
           false) = false ->
  exists (rw' : http.ResponseWriter) (body : gmap string string)
         (message : string),
    ServeHTTP to_lower_case json_Unmarshal json_Marshal strconv_FormatFloat
              cfg rw req
    = Rejected req rw' /\
    http.rwStatus rw' = Some 401 /\
    http.rwJSON rw' = http.rwJSON rw ++ [body] /\
    body = {[ "error" := "unauthorized"; "message" := message ]} /\
    (message = "missing JWT token" \/ message = "invalid JWT token").
Proof.
  intros Hmode Hfail. unfold ServeHTTP. rewrite Hmode.
  destruct (String.eqb_spec (http.Get (http.Header_ req) (SourceHeader cfg)) "")
    as [Hempty | Hpresent].
  - eexists _, _, "missing JWT token". split; [reflexivity |].
    cbn [returnError http.rwStatus http.rwJSON].
    repeat split; try reflexivity. now left.
  - destruct Hfail as [Hempty | Hparse]; [congruence |].
    destruct (ParseJWT _ _ _) as [jwt | e]; [discriminate |].
    eexists _, _, "invalid JWT token". split; [reflexivity |].
    cbn [returnError http.rwStatus http.rwJSON].
    repeat split; try reflexivity. now right.
Qed.

(** ** The claims at concrete inputs *)

Lemma InjectHeader_protected_witness :
  strings.ToLower (fun r => r) "Host" ∈ protected_names /\
  InjectHeader (fun r => r) sample_request "Host" "evil.com" true 8192
  = (sample_request, None).
Proof.
  assert (H : strings.ToLower (fun r => r) "Host" ∈ protected_names)
    by (vm_compute; left).
  split; [exact H |].
  exact (InjectHeader_protected (fun r => r) sample_request "Host" "evil.com"
           true 8192 H).
Defined.

Lemma ServeHTTP_fail_closed_witness :
  exists (rw' : http.ResponseWriter) (body : gmap string string)
         (message : string),
    ServeHTTP (fun r => r) sample_Unmarshal sample_Marshal sample_FormatFloat
              fail_closed_config http.newResponseWriter sample_request
    = Rejected sample_request rw' /\
    http.rwStatus rw' = Some 401 /\
    http.rwJSON rw' = http.rwJSON http.newResponseWriter ++ [body] /\
    body = {[ "error" := "unauthorized"; "message" := message ]} /\
    (message = "missing JWT token" \/ message = "invalid JWT token").
Proof.
  apply (ServeHTTP_fail_closed (fun r => r) sample_Unmarshal sample_Marshal
           sample_FormatFloat fail_closed_config http.newResponseWriter
           sample_request).
  - reflexivity.
  - left. reflexivity.
Defined.

Lemma ParseJWT_strict_mode_witness :
  ParseJWT sample_Unmarshal "e30.e30.sig" true = Err ErrMissingAlg /\
  ParseJWT sample_Unmarshal "e30.e30.sig" false
  = Ok {| Header := ∅; Payload := ∅; Signature := "sig" |}.
Proof.
  apply (ParseJWT_strict_mode sample_Unmarshal "e30.e30.sig" "e30" "e30" "sig"
           "{}" "{}" ∅ ∅); reflexivity.
Defined.

Lemma ParseJWT_round_trip_witness :
  ParseJWT sample_Unmarshal (token_of alg_none_json "{}" "sig") true
  = Ok {| Header := alg_none; Payload := ∅; Signature := "sig" |}.
Proof.
  apply (ParseJWT_round_trip sample_Unmarshal sample_Marshal alg_none ∅
           alg_none_json "{}" "sig" true).
  - vm_compute. reflexivity.
  - reflexivity.
  - vm_compute. reflexivity.
  - reflexivity.
  - repeat constructor; discriminate.
Defined.

(** C6 as stated fails in strict mode: the token built from the empty
    header object does not parse. *)
Lemma ParseJWT_round_trip_strict :
  sample_Marshal (VObject ∅) = Some "{}" /\
  sample_Unmarshal "{}" = Some ∅ /\
  token_of "{}" "{}" "sig" = "e30.e30.sig" /\
  ParseJWT sample_Unmarshal (token_of "{}" "{}" "sig") true = Err ErrMissingAlg.
Proof. repeat split; vm_compute; reflexivity. Qed.

(** * Further properties

    What else the sources show: the spellings of a header name, the
    values sanitization leaves alone, the tokens [ParseJWT] accepts and
    refuses, the errors of [ExtractClaim] and [ConvertClaimToString],
    the configurations [Validate] accepts, and what [ServeHTTP] forwards
    a request with. *)

(** ** headers.go *)

(** *** Header names: token bytes, canonical keys and lower case *)

Lemma validHeaderFieldByte_ascii (c : ascii) :
  textproto.validHeaderFieldByte c = true -> (byteZ c <? utf8.RuneSelf) = true.
Proof. destruct c as [[] [] [] [] [] [] [] []]; vm_compute; congruence. Qed.

(** One byte of the canonicalising pass: its case may change, and
    nothing else. *)
Lemma canonical_byte (upper : bool) (c : ascii) :
  let b := byteZ c in
  let c' := if upper && textproto.isLetter 0x61 b then Zbyte (b - 0x20)
            else if negb upper && textproto.isLetter 0x41 b then Zbyte (b + 0x20)
            else c in
  bytealg.lowerASCII c' = bytealg.lowerASCII c /\
  textproto.validHeaderFieldByte c' = textproto.validHeaderFieldByte c.
Proof.
  destruct upper; destruct c as [[] [] [] [] [] [] [] []];
    vm_compute; split; reflexivity.
Qed.

Lemma lowerASCII_canonical (a : list ascii) : forall upper,
  map bytealg.lowerASCII (textproto.canonical upper a) = map bytealg.lowerASCII a.
Proof.
  induction a as [|c a IH]; intros upper; [reflexivity |].
  cbn [textproto.canonical map]. rewrite IH.
  f_equal. apply (canonical_byte upper c).
Qed.

Lemma canonical_valid (a : list ascii) : forall upper,
  forallb textproto.validHeaderFieldByte (textproto.canonical upper a)
  = forallb textproto.validHeaderFieldByte a.
Proof.
  induction a as [|c a IH]; intros upper; [reflexivity |].
  cbn [textproto.canonical forallb]. rewrite IH.
  f_equal. apply (canonical_byte upper c).
Qed.

Lemma lowerASCII_fixed (a : list ascii) :
  existsb bytealg.isUpperASCII a = false -> map bytealg.lowerASCII a = a.
Proof.
  induction a as [|c a IH]; [reflexivity |]. cbn [existsb map].
  intros [Hc Ha]%orb_false_iff. rewrite (IH Ha). f_equal.
  unfold bytealg.lowerASCII. now rewrite Hc.
Qed.

(** A name of token bytes is ASCII: [strings.ToLower] takes its
    byte-wise path. *)
Lemma ToLower_tokens (to_lower_case : Z -> Z) (a : list ascii) :
  forallb textproto.validHeaderFieldByte a = true ->
  bytealg.ToLower to_lower_case a = map bytealg.lowerASCII a.
Proof.
  intros H. unfold bytealg.ToLower.
  assert (Ha : forallb (fun c => byteZ c <? utf8.RuneSelf) a = true).
  { rewrite forallb_forall in *. intros c Hc.
    apply validHeaderFieldByte_ascii, H, Hc. }
  rewrite Ha. destruct (existsb bytealg.isUpperASCII a) eqn:E; [reflexivity |].
  symmetry. now apply lowerASCII_fixed.
Qed.

(** Header names of one canonical key are equal in lower case. *)
Lemma ToLower_canonical (to_lower_case : Z -> Z) (a b : string) :
  textproto.CanonicalMIMEHeaderKey a = textproto.CanonicalMIMEHeaderKey b ->
  strings.ToLower to_lower_case a = strings.ToLower to_lower_case b.
Proof.
  unfold textproto.CanonicalMIMEHeaderKey.
  destruct (forallb textproto.validHeaderFieldByte (bytes a)) eqn:Ha;
    destruct (forallb textproto.validHeaderFieldByte (bytes b)) eqn:Hb; intros H.
  - apply (f_equal bytes) in H. rewrite !bytes_str in H.
    apply (f_equal (map bytealg.lowerASCII)) in H.
    rewrite !lowerASCII_canonical in H.
    unfold strings.ToLower. now rewrite !ToLower_tokens, H by assumption.
  - apply (f_equal bytes) in H. rewrite bytes_str in H.
    rewrite <- H, canonical_valid in Hb. congruence.
  - apply (f_equal bytes) in H. rewrite bytes_str in H.
    rewrite H, canonical_valid in Ha. congruence.
  - now subst.
Qed.

(** X1: two spellings of a header name that the header collection files
    under one key are both protected or both not: no spelling of a
    protected header gets past [IsProtectedHeader]. *)
Theorem IsProtectedHeader_spelling (to_lower_case : Z -> Z) (a b : string) :
  textproto.CanonicalMIMEHeaderKey a = textproto.CanonicalMIMEHeaderKey b ->
  IsProtectedHeader to_lower_case a = IsProtectedHeader to_lower_case b.
Proof.
  intros H. unfold IsProtectedHeader.
  now rewrite (ToLower_canonical to_lower_case a b H).
Qed.

Lemma IsProtectedHeader_spelling_witness :
  IsProtectedHeader (fun r => r) "x-FORWARDED-for"
  = IsProtectedHeader (fun r => r) "X-Forwarded-For".
Proof.
  apply (IsProtectedHeader_spelling (fun r => r) "x-FORWARDED-for"
           "X-Forwarded-For").
  vm_compute. reflexivity.
Defined.

(** *** [InjectHeader]: the entries it leaves alone *)

Lemma InjectHeader_other_entry (to_lower_case : Z -> Z) (req : http.Request)
    (name value : string) (override : bool) (maxSize : Z) (key : string) :
  key <> textproto.CanonicalMIMEHeaderKey name ->
  http.Header_ (InjectHeader to_lower_case req name value override maxSize).1 !! key
  = http.Header_ req !! key.
Proof.
  intros Hkey. unfold InjectHeader.
  destruct (IsProtectedHeader to_lower_case name); [reflexivity |].
  destruct (SanitizeHeaderValue value maxSize); [| reflexivity].
  destruct (negb _ && negb override); [reflexivity |].
  cbn [fst http.Header_]. unfold http.Set_. now rewrite lookup_insert_ne.
Qed.

Lemma InjectHeader_Host (to_lower_case : Z -> Z) (req : http.Request)
    (name value : string) (override : bool) (maxSize : Z) :
  http.Host (InjectHeader to_lower_case req name value override maxSize).1
  = http.Host req.
Proof.
  unfold InjectHeader.
  destruct (IsProtectedHeader to_lower_case name); [reflexivity |].
  destruct (SanitizeHeaderValue value maxSize); [| reflexivity].
  now destruct (negb _ && negb override).
Qed.

Lemma InjectHeader_protected_entry (to_lower_case : Z -> Z)
    (req : http.Request) (name value : string) (override : bool) (maxSize : Z)
    (other : string) :
  IsProtectedHeader to_lower_case other = true ->
  http.Header_ (InjectHeader to_lower_case req name value override maxSize).1
    !! textproto.CanonicalMIMEHeaderKey other
  = http.Header_ req !! textproto.CanonicalMIMEHeaderKey other.
Proof.
  intros Hother.
  destruct (IsProtectedHeader to_lower_case name) eqn:Hname.
  - unfold InjectHeader. now rewrite Hname.
  - apply InjectHeader_other_entry. intros Heq.
    unfold IsProtectedHeader in Hother, Hname.
    rewrite (ToLower_canonical to_lower_case _ _ Heq) in Hother. congruence.
Qed.

(** X2: whatever name [InjectHeader] is called with, every protected
    header keeps its entry and its value. *)
Theorem InjectHeader_keeps_protected (to_lower_case : Z -> Z)
    (req : http.Request) (name value : string) (override : bool) (maxSize : Z)
    (other : string) :
  IsProtectedHeader to_lower_case other = true ->
  let req' := (InjectHeader to_lower_case req name value override maxSize).1 in
  http.Header_ req' !! textproto.CanonicalMIMEHeaderKey other
  = http.Header_ req !! textproto.CanonicalMIMEHeaderKey other /\
  http.Get (http.Header_ req') other = http.Get (http.Header_ req) other.
Proof.
  intros Hother. cbn zeta.
  pose proof (InjectHeader_protected_entry to_lower_case req name value
                override maxSize other Hother) as H.
  split; [exact H |]. unfold http.Get. now rewrite H.
Qed.

Lemma InjectHeader_keeps_protected_witness :
  let req' := (InjectHeader (fun r => r) bearer_request "X-User-Id" "alice"
                 true 8192).1 in
  http.Header_ req' !! textproto.CanonicalMIMEHeaderKey "X-FORWARDED-FOR"
  = http.Header_ bearer_request !! textproto.CanonicalMIMEHeaderKey "X-FORWARDED-FOR" /\
  http.Get (http.Header_ req') "X-FORWARDED-FOR"
  = http.Get (http.Header_ bearer_request) "X-FORWARDED-FOR".
Proof.
  apply (InjectHeader_keeps_protected (fun r => r) bearer_request
           "X-User-Id" "alice" true 8192 "X-FORWARDED-FOR").
  vm_compute. reflexivity.
Defined.

(** X3: a value within the size limit, for a name that is not protected
    and a header that is absent (or empty) or may be overridden, is
    written: afterwards the header has the sanitized value as its only
    value, under every spelling of the name. *)
Theorem InjectHeader_written (to_lower_case : Z -> Z)
    (req : http.Request) (name value : string) (override : bool) (maxSize : Z) :
  IsProtectedHeader to_lower_case name = false ->
  len value <= maxSize ->
  http.Get (http.Header_ req) name = "" \/ override = true ->
  exists (sanitized : string) (req' : http.Request),
    SanitizeHeaderValue value maxSize = Ok sanitized /\
    InjectHeader to_lower_case req name value override maxSize = (req', None) /\
    http.Header_ req' !! textproto.CanonicalMIMEHeaderKey name = Some [sanitized] /\
    (forall alias : string,
       textproto.CanonicalMIMEHeaderKey alias = textproto.CanonicalMIMEHeaderKey name ->
       http.Get (http.Header_ req') alias = sanitized).
Proof.
  intros Hname Hlen Hfree.
  eexists _, _. split; [apply SanitizeHeaderValue_ok, Hlen |].
  unfold InjectHeader. rewrite Hname, SanitizeHeaderValue_ok by exact Hlen.
  assert (Hcond : negb (String.eqb (http.Get (http.Header_ req) name) "")
                  && negb override = false).
  { destruct Hfree as [-> | ->]; [reflexivity | apply andb_false_r]. }
  rewrite Hcond. split; [reflexivity |].
  cbn [http.Header_]. unfold http.Set_, http.Get. split.
  - apply lookup_insert_eq.
  - intros alias ->. now rewrite lookup_insert_eq.
Qed.

Lemma InjectHeader_written_witness :
  exists (sanitized : string) (req' : http.Request),
    SanitizeHeaderValue " alice " 8192 = Ok sanitized /\
    InjectHeader (fun r => r) sample_request "x-user-id" " alice " false 8192
    = (req', None) /\
    http.Header_ req' !! textproto.CanonicalMIMEHeaderKey "x-user-id"
    = Some [sanitized] /\
    (forall alias : string,
       textproto.CanonicalMIMEHeaderKey alias
       = textproto.CanonicalMIMEHeaderKey "x-user-id" ->
       http.Get (http.Header_ req') alias = sanitized).
Proof.
  apply (InjectHeader_written (fun r => r) sample_request "x-user-id" " alice "
           false 8192).
  - vm_compute. reflexivity.
  - vm_compute. discriminate.
  - left. vm_compute. reflexivity.
Defined.

(** *** [SanitizeHeaderValue]: the values it leaves alone, and the ends
    of its result *)

Lemma drop_spaces_clean rs :
  (forall r, head rs = Some r -> unicode.IsSpace r = false) ->
  bytealg.drop_spaces rs = rs.
Proof.
  destruct rs as [|r rs]; [reflexivity |]. intros H.
  cbn [bytealg.drop_spaces]. now rewrite (H r eq_refl).
Qed.

Lemma drop_spaces_right_clean rs :
  (forall r, last rs = Some r -> unicode.IsSpace r = false) ->
  bytealg.drop_spaces_right rs = rs.
Proof.
  destruct rs as [|r rs _] using rev_ind; [reflexivity |]. intros H.
  rewrite drop_spaces_right_snoc. now rewrite (H r (last_snoc r rs)).
Qed.

Lemma trim_runes_clean rs :
  (forall r, head rs = Some r \/ last rs = Some r -> unicode.IsSpace r = false) ->
  bytealg.trim_runes rs = rs.
Proof.
  intros H. unfold bytealg.trim_runes.
  rewrite drop_spaces_clean by (intros r Hr; apply H; now left).
  apply drop_spaces_right_clean. intros r Hr. apply H. now right.
Qed.

Lemma trim_runes_ends rs :
  forall r, head (bytealg.trim_runes rs) = Some r
            \/ last (bytealg.trim_runes rs) = Some r ->
  unicode.IsSpace r = false.
Proof.
  intros r [Hr | Hr]; unfold bytealg.trim_runes in Hr.
  - destruct (drop_spaces_right_prefix (bytealg.drop_spaces rs)) as [tail Ht].
    pose proof (drop_spaces_head rs) as Hh. rewrite Ht in Hh.
    destruct (bytealg.drop_spaces_right (bytealg.drop_spaces rs)) as [|t T];
      [discriminate |].
    cbn [head] in Hr. injection Hr as ->. exact Hh.
  - destruct (bytealg.drop_spaces_right (bytealg.drop_spaces rs)) as [|t T] eqn:E
      using rev_ind; [discriminate |].
    rewrite last_snoc in Hr. injection Hr as ->.
    eapply drop_spaces_right_last, E.
Qed.

Lemma filter_Forall_id {A} (P : A -> Prop) `{!forall x, Decision (P x)} (l : list A) :
  Forall P l -> filter P l = l.
Proof.
  induction 1 as [|x l Hx Hl IH]; [reflexivity |].
  now rewrite filter_cons, decide_True, IH by exact Hx.
Qed.

(** The first and the last byte of an encoded rune tell a white space
    from any other character. *)
Lemma EncodeRune_ends r :
  utf8.ValidRune r = true -> unicode.IsSpace r = false ->
  forall c, head (utf8.EncodeRune r) = Some c \/ last (utf8.EncodeRune r) = Some c ->
  bytealg.asciiSpace (byteZ c) = false.
Proof.
  intros Hv Hs c Hc.
  pose proof (proj1 (ValidRune_spec r) Hv) as Hr.
  destruct (EncodeRune_shape r Hv) as [[Hlt He] | (Hge & c0 & tl & He & H0 & Htl & Hn)];
    rewrite He in Hc.
  - assert (c = Zbyte r) as -> by (destruct Hc as [Hc | Hc]; now injection Hc).
    rewrite byteZ_Zbyte by lia. now rewrite <- IsSpace_ascii by lia.
  - assert (Hb : 0x80 <= byteZ c).
    { destruct Hc as [Hc | Hc].
      - injection Hc as <-. lia.
      - destruct tl as [|t tl _] using rev_ind; [cbn [length] in Hn; lia |].
        rewrite app_comm_cons, last_snoc in Hc. injection Hc as <-.
        apply Forall_app in Htl as [_ Ht]. apply Forall_inv in Ht. lia. }
    unfold bytealg.asciiSpace.
    repeat match goal with
           | |- context [Z.eqb ?a ?b] => destruct (Z.eqb_spec a b); [lia |]
           end.
    reflexivity.
Qed.

Lemma string_of_runes_ends rs :
  Forall (fun r => utf8.ValidRune r = true) rs ->
  (forall r, head rs = Some r \/ last rs = Some r -> unicode.IsSpace r = false) ->
  forall c, head (utf8.string_of_runes rs) = Some c
            \/ last (utf8.string_of_runes rs) = Some c ->
  bytealg.asciiSpace (byteZ c) = false.
Proof.
  intros Hv Hends c [Hc | Hc].
  - destruct rs as [|r rs]; [discriminate |].
    rewrite string_of_runes_cons in Hc.
    apply Forall_inv in Hv.
    apply (EncodeRune_ends r Hv (Hends r (or_introl eq_refl))). left.
    pose proof (EncodeRune_nonempty r).
    destruct (utf8.EncodeRune r); [congruence | exact Hc].
  - destruct rs as [|r rs _] using rev_ind; [discriminate |].
    rewrite string_of_runes_snoc in Hc.
    apply Forall_app in Hv as [_ Hv]. apply Forall_inv in Hv.
    apply (EncodeRune_ends r Hv (Hends r (or_intror (last_snoc r rs)))). right.
    pose proof (EncodeRune_nonempty r).
    destruct (utf8.EncodeRune r) as [|e E _] using rev_ind; [congruence |].
    rewrite app_assoc, last_snoc in Hc. now rewrite last_snoc.
Qed.

(** X4: a value of valid UTF-8 within the size limit that holds no
    control character and neither begins nor ends with white space comes
    back as it is. *)
Theorem SanitizeHeaderValue_clean (value : string) (maxSize : Z) :
  len value <= maxSize ->
  utf8.ValidString (bytes value) = true ->
  Forall (fun r => is_control r = false) (map fst (utf8.range (bytes value))) ->
  (forall r, head (map fst (utf8.range (bytes value))) = Some r
             \/ last (map fst (utf8.range (bytes value))) = Some r ->
             unicode.IsSpace r = false) ->
  SanitizeHeaderValue value maxSize = Ok value.
Proof.
  intros Hlen Hvalid Hctl Hends.
  rewrite SanitizeHeaderValue_ok by exact Hlen. f_equal.
  unfold sanitized_runes, printable_runes.
  rewrite filter_Forall_id by exact Hctl.
  rewrite trim_runes_clean by exact Hends.
  rewrite ValidString_string_of_runes by exact Hvalid.
  apply str_bytes.
Qed.

Lemma SanitizeHeaderValue_clean_witness :
  SanitizeHeaderValue "user@example.com, admin" 64 = Ok "user@example.com, admin".
Proof.
  apply (SanitizeHeaderValue_clean "user@example.com, admin" 64).
  - vm_compute. discriminate.
  - vm_compute. reflexivity.
  - vm_compute. repeat constructor.
  - intros r [H | H]; vm_compute in H; injection H as <-; reflexivity.
Defined.

(** X5: the sanitized value neither begins nor ends with white space:
    not with a white-space character of Unicode, and so not with a byte
    of ASCII white space. *)
Theorem SanitizeHeaderValue_trimmed (value : string) (maxSize : Z) :
  len value <= maxSize ->
  exists sanitized,
    SanitizeHeaderValue value maxSize = Ok sanitized /\
    (forall r, head (map fst (utf8.range (bytes sanitized))) = Some r
               \/ last (map fst (utf8.range (bytes sanitized))) = Some r ->
               unicode.IsSpace r = false) /\
    (forall c, head (bytes sanitized) = Some c \/ last (bytes sanitized) = Some c ->
               bytealg.asciiSpace (byteZ c) = false).
Proof.
  intros Hlen. eexists. split; [apply SanitizeHeaderValue_ok, Hlen |].
  rewrite bytes_str.
  assert (Hv : Forall (fun r => utf8.ValidRune r = true)
                      (sanitized_runes (bytes value))).
  { eapply Forall_impl; [apply sanitized_runes_ok |]. cbn beta. tauto. }
  rewrite range_string_of_runes by exact Hv.
  split; [apply trim_runes_ends |].
  apply string_of_runes_ends; [exact Hv | apply trim_runes_ends].
Qed.

Lemma SanitizeHeaderValue_trimmed_witness :
  exists sanitized,
    SanitizeHeaderValue (String "009" " a b  ") 8 = Ok sanitized /\
    (forall r, head (map fst (utf8.range (bytes sanitized))) = Some r
               \/ last (map fst (utf8.range (bytes sanitized))) = Some r ->
               unicode.IsSpace r = false) /\
    (forall c, head (bytes sanitized) = Some c \/ last (bytes sanitized) = Some c ->
               bytealg.asciiSpace (byteZ c) = false).
Proof.
  apply (SanitizeHeaderValue_trimmed (String "009" " a b  ") 8).
  vm_compute. discriminate.
Defined.

(** *** The size of the sanitized value *)

Lemma length_string_of_runes_range p :
  (length (utf8.string_of_runes (map fst (utf8.range p))) <= 3 * length p)%nat.
Proof.
  induction p as [|p Hp IH] using range_ind; [reflexivity |].
  rewrite range_cons by exact Hp. cbn [map].
  rewrite string_of_runes_cons, length_app.
  pose proof (DecodeRune_decoded p) as Hd.
  pose proof (decoded_width _ _ _ Hd Hp) as Hw.
  rewrite length_drop in IH.
  destruct (decoded_EncodeRune _ _ _ Hd Hp) as [(Hc & Hw1 & _) | He].
  - rewrite Hc. change (length (utf8.EncodeRune utf8.RuneError)) with 3%nat. lia.
  - rewrite He, length_take. lia.
Qed.

(** X6: sanitization at most triples the length of a value: each byte
    that is not valid UTF-8 becomes the three bytes of U+FFFD, and
    nothing else grows. *)
Theorem SanitizeHeaderValue_length (value : string) (maxSize : Z) :
  len value <= maxSize ->
  exists sanitized,
    SanitizeHeaderValue value maxSize = Ok sanitized /\
    len sanitized <= 3 * len value.
Proof.
  intros Hlen. eexists. split; [apply SanitizeHeaderValue_ok, Hlen |].
  rewrite len_str. unfold len. rewrite <- length_bytes.
  assert (H : (length (utf8.string_of_runes (sanitized_runes (bytes value)))
               <= 3 * length (bytes value))%nat); [| lia].
  unfold sanitized_runes, bytealg.trim_runes, printable_runes.
  etransitivity; [apply length_string_of_runes_drop_spaces_right |].
  etransitivity; [apply length_string_of_runes_drop_spaces |].
  etransitivity; [apply length_string_of_runes_filter |].
  apply length_string_of_runes_range.
Qed.

Lemma SanitizeHeaderValue_length_witness :
  exists sanitized,
    SanitizeHeaderValue (String "255" (String "254" "")) 2 = Ok sanitized /\
    len sanitized <= 3 * len (String "255" (String "254" "")).
Proof.
  apply (SanitizeHeaderValue_length (String "255" (String "254" "")) 2).
  vm_compute. discriminate.
Defined.

(** ** jwt.go *)

(** *** [ExtractToken] *)

Lemma bytes_app (s t : string) : bytes (s +:+ t) = bytes s ++ bytes t.
Proof.
  induction s as [|c s IH]; [reflexivity |].
  change (String c s +:+ t) with (String c (s +:+ t)).
  unfold bytes in *. cbn [list_ascii_of_string app]. now rewrite IH.
Qed.

Lemma bytes_inj (s t : string) : bytes s = bytes t -> s = t.
Proof. intros H. rewrite <- (str_bytes s), <- (str_bytes t). now rewrite H. Qed.

Lemma HasPrefix_app (prefix rest : string) :
  strings.HasPrefix (prefix +:+ rest) prefix = true.
Proof.
  unfold strings.HasPrefix. induction prefix as [|c prefix IH].
  - now destruct rest.
  - change (String c prefix +:+ rest) with (String c (prefix +:+ rest)).
    cbn [String.prefix]. now destruct (ascii_dec c c).
Qed.

Lemma HasPrefix_inv (s prefix : string) :
  strings.HasPrefix s prefix = true -> exists rest, s = prefix +:+ rest.
Proof.
  unfold strings.HasPrefix. revert s.
  induction prefix as [|c prefix IH]; intros s H.
  - now exists s.
  - destruct s as [|d s]; [discriminate |]. cbn [String.prefix] in H.
    destruct (ascii_dec c d) as [-> |]; [| discriminate].
    destruct (IH s H) as [rest ->]. now exists rest.
Qed.

Lemma substring_all (s : string) : String.substring 0 (String.length s) s = s.
Proof.
  induction s as [|c s IH]; [reflexivity |].
  cbn [String.length String.substring]. now rewrite IH.
Qed.

Lemma TrimPrefix_app (prefix rest : string) :
  strings.TrimPrefix (prefix +:+ rest) prefix = rest.
Proof.
  unfold strings.TrimPrefix. rewrite HasPrefix_app.
  induction prefix as [|c prefix IH].
  - change (EmptyString +:+ rest) with rest. cbn [String.length].
    rewrite Nat.sub_0_r. apply substring_all.
  - change (String c prefix +:+ rest) with (String c (prefix +:+ rest)).
    cbn [String.length String.substring Nat.sub]. exact IH.
Qed.

(** [TrimSpace] cuts a piece out of its argument, *)
Lemma TrimRightFunc_take (s : list ascii) (f : Z -> bool) :
  exists n, bytealg.TrimRightFunc s f = take n s.
Proof.
  unfold bytealg.TrimRightFunc.
  destruct (bytealg.lastIndexFunc s f false) as [i|]; [| now exists 0%nat].
  destruct (utf8.RuneSelf <=? at_index s (Z.of_nat i)); [| now eexists].
  destruct (utf8.DecodeRune (drop i s)) as [r wid]. now eexists.
Qed.

Lemma TrimFunc_piece (s : list ascii) (f : Z -> bool) :
  exists i n, bytealg.TrimFunc s f = take n (drop i s).
Proof.
  unfold bytealg.TrimFunc, bytealg.TrimLeftFunc.
  destruct (bytealg.indexFunc s f false) as [i|].
  - destruct (TrimRightFunc_take (drop i s) f) as [n ->]. now exists i, n.
  - destruct (TrimRightFunc_take [] f) as [n ->]. exists (length s), n.
    now rewrite drop_all.
Qed.

Lemma TrimSpace_stop_take (s : list ascii) : forall stop,
  exists n, bytealg.TrimSpace_stop stop s = take n s.
Proof.
  induction stop as [|stop IH]; [now exists 0%nat |].
  cbn [bytealg.TrimSpace_stop].
  destruct (utf8.RuneSelf <=? at_index s (Z.of_nat stop)).
  - destruct (TrimRightFunc_take (take (S stop) s) unicode.IsSpace) as [n ->].
    exists (n `min` S stop)%nat. apply take_take.
  - destruct (bytealg.asciiSpace _); [exact IH | now eexists].
Qed.

Lemma TrimSpace_piece (s : list ascii) :
  exists i n, bytealg.TrimSpace s = take n (drop i s).
Proof.
  induction s as [|c s IH]; [now exists 0%nat, 0%nat |].
  cbn [bytealg.TrimSpace].
  destruct (utf8.RuneSelf <=? byteZ c); [apply TrimFunc_piece |].
  destruct (bytealg.asciiSpace (byteZ c)).
  - destruct IH as (i & n & ->). now exists (S i), n.
  - destruct (TrimSpace_stop_take (c :: s) (length (c :: s))) as [n ->].
    now exists 0%nat, n.
Qed.

(** and leaves alone a string whose first and last bytes are ASCII
    characters other than white space. *)
Lemma TrimSpace_clean (p : list ascii) :
  (forall c, head p = Some c \/ last p = Some c ->
     byteZ c < utf8.RuneSelf /\ bytealg.asciiSpace (byteZ c) = false) ->
  bytealg.TrimSpace p = p.
Proof.
  intros H. destruct p as [|c p]; [reflexivity |].
  cbn [bytealg.TrimSpace].
  destruct (H c (or_introl eq_refl)) as [Hc Hs]. rewrite Hs.
  destruct (Z.leb_spec utf8.RuneSelf (byteZ c)); [lia |].
  generalize dependent (c :: p). clear c p Hc Hs H0. intros p H.
  destruct p as [|l p _] using rev_ind; [reflexivity |].
  destruct (H l (or_intror (last_snoc l p))) as [Hl Hs].
  rewrite length_app. cbn [length]. rewrite Nat.add_1_r.
  cbn [bytealg.TrimSpace_stop].
  assert (Hat : at_index (p ++ [l]) (Z.of_nat (length p)) = byteZ l).
  { unfold at_index. rewrite Nat2Z.id, lookup_app_r by lia.
    now rewrite Nat.sub_diag. }
  rewrite Hat, Hs.
  destruct (Z.leb_spec utf8.RuneSelf (byteZ l)); [lia |].
  apply take_ge. rewrite length_app. cbn [length]. lia.
Qed.

(** X7: a prefix put before a token that neither begins nor ends with
    white space or a byte that is not ASCII is taken off again. *)
Theorem ExtractToken_prefixed (prefix token : string) :
  (forall c, head (bytes token) = Some c \/ last (bytes token) = Some c ->
     byteZ c < utf8.RuneSelf /\ bytealg.asciiSpace (byteZ c) = false) ->
  ExtractToken (prefix +:+ token) prefix = token.
Proof.
  intros H. unfold ExtractToken.
  destruct (String.eqb_spec prefix "") as [-> | Hp]; [reflexivity |].
  rewrite HasPrefix_app, TrimPrefix_app. cbn [negb].
  unfold strings.TrimSpace. rewrite TrimSpace_clean by exact H.
  apply str_bytes.
Qed.

Lemma ExtractToken_prefixed_witness :
  ExtractToken ("Bearer " +:+ "e30.e30.sig") "Bearer " = "e30.e30.sig".
Proof.
  apply (ExtractToken_prefixed "Bearer " "e30.e30.sig").
  intros c [H | H]; vm_compute in H; injection H as <-; vm_compute;
    split; reflexivity.
Defined.

(** X8: the token is cut out of the header value: no byte of it is made
    up, and when the prefix is taken off, the token lies behind it. *)
Theorem ExtractToken_substring (value prefix : string) :
  exists pre post : string,
    value = pre +:+ ExtractToken value prefix +:+ post /\
    (ExtractToken value prefix = value \/ exists gap, pre = prefix +:+ gap).
Proof.
  unfold ExtractToken.
  assert (Hsame : exists pre post : string,
            value = pre +:+ value +:+ post /\
            (value = value \/ exists gap, pre = prefix +:+ gap)).
  { exists "", "". split; [| now left].
    apply bytes_inj. rewrite !bytes_app. cbn [bytes list_ascii_of_string app].
    now rewrite app_nil_r. }
  destruct (String.eqb prefix ""); [exact Hsame |].
  destruct (strings.HasPrefix value prefix) eqn:Hp; [| exact Hsame].
  cbn [negb]. apply HasPrefix_inv in Hp as [rest ->].
  rewrite TrimPrefix_app. unfold strings.TrimSpace.
  destruct (TrimSpace_piece (bytes rest)) as (i & n & ->).
  exists (prefix +:+ str (take i (bytes rest))),
         (str (drop n (drop i (bytes rest)))).
  split; [| right; now eexists].
  apply bytes_inj. rewrite !bytes_app, !bytes_str, <- app_assoc. f_equal.
  now rewrite (take_drop n), (take_drop i).
Qed.

(** *** [strings.Split], once more *)

Lemma Split_cons (c : ascii) (s : string) (sep : ascii) :
  strings.Split (String c s) sep
  = if Ascii.eqb c sep then "" :: strings.Split s sep
    else match strings.Split s sep with
         | h :: t => String c h :: t
         | [] => [String c ""]
         end.
Proof. reflexivity. Qed.

Lemma Split_nonempty (s : string) (sep : ascii) : strings.Split s sep <> [].
Proof.
  induction s as [|c s IH]; [discriminate |]. rewrite Split_cons.
  destruct (Ascii.eqb c sep); [discriminate |].
  destruct (strings.Split s sep); [congruence | discriminate].
Qed.

(** One segment more than there are separators. *)
Lemma length_Split (s : string) (sep : ascii) :
  length (strings.Split s sep)
  = S (length (filter (fun c => c = sep) (bytes s))).
Proof.
  induction s as [|c s IH]; [reflexivity |]. rewrite Split_cons.
  cbn [bytes list_ascii_of_string]. rewrite filter_cons. fold (bytes s).
  pose proof (Split_nonempty s sep) as Hne.
  destruct (Ascii.eqb_spec c sep) as [-> | Hc].
  - rewrite decide_True by reflexivity. cbn [length]. now rewrite IH.
  - rewrite decide_False by exact Hc.
    destruct (strings.Split s sep) as [|h t]; [congruence |]. exact IH.
Qed.

(** The segments hold no separator, and joined by it they give the
    string back. *)
Lemma Split_segments (s : string) (sep : ascii) :
  Forall (fun segment => Forall (fun c => c <> sep) (bytes segment))
         (strings.Split s sep).
Proof.
  induction s as [|c s IH]; [repeat constructor |]. rewrite Split_cons.
  destruct (Ascii.eqb_spec c sep) as [-> | Hc].
  - constructor; [constructor | exact IH].
  - destruct (strings.Split s sep) as [|h t]; [repeat constructor; exact Hc |].
    apply Forall_cons in IH as [Hh Ht]. constructor; [| exact Ht].
    cbn [bytes list_ascii_of_string]. now constructor.
Qed.

Lemma Join_Split (s : string) (sep : ascii) :
  strings.Join (strings.Split s sep) (String sep "") = s.
Proof.
  unfold strings.Join. induction s as [|c s IH]; [reflexivity |].
  rewrite Split_cons. pose proof (Split_nonempty s sep) as Hne.
  destruct (Ascii.eqb_spec c sep) as [-> | Hc].
  - destruct (strings.Split s sep) as [|h t] eqn:E; [congruence |].
    cbn [String.concat]. cbn [String.concat] in IH.
    change ("" +:+ ?x) with x. 
    change (String sep "" +:+ ?x) with (String sep x). now rewrite IH.
  - destruct (strings.Split s sep) as [|h t] eqn:E; [congruence |].
    destruct t as [|h' t].
    + cbn [String.concat] in *. now rewrite IH.
    + cbn [String.concat] in *.
      change (String c h +:+ ?x) with (String c (h +:+ x)). now rewrite IH.
Qed.

(** *** [ParseJWT] *)

(** X9: a token that does not hold exactly two dots is refused, and the
    error names the number of segments: one more than there are dots. *)
Theorem ParseJWT_segment_count
    (json_Unmarshal : string -> option (gmap string Value))
    (token : string) (strictMode : bool) :
  length (filter (fun c => c = "."%char) (bytes token)) <> 2%nat ->
  ParseJWT json_Unmarshal token strictMode
  = Err (ErrSegmentCount (S (length (filter (fun c => c = "."%char) (bytes token))))).
Proof.
  intros H. unfold ParseJWT. rewrite <- length_Split.
  pose proof (length_Split token ".") as Hlen.
  destruct (strings.Split token ".") as [|s0 [|s1 [|s2 [|s3 rest]]]];
    try reflexivity.
  cbn [length] in Hlen. lia.
Qed.

Lemma ParseJWT_segment_count_witness :
  ParseJWT sample_Unmarshal "e30.e30.sig.more" true
  = Err (ErrSegmentCount
           (S (length (filter (fun c => c = "."%char) (bytes "e30.e30.sig.more"))))).
Proof.
  apply (ParseJWT_segment_count sample_Unmarshal "e30.e30.sig.more" true).
  vm_compute. discriminate.
Defined.

(** X10: strict mode refuses what lax mode accepts without an [alg] key,
    and changes nothing else, accepted tokens and errors alike. *)
Theorem ParseJWT_strict_of_lax
    (json_Unmarshal : string -> option (gmap string Value)) (token : string) :
  ParseJWT json_Unmarshal token true
  = match ParseJWT json_Unmarshal token false with
    | Ok jwt =>
      if bool_decide (is_Some (Header jwt !! "alg")) then Ok jwt
      else Err ErrMissingAlg
    | Err e => Err e
    end.
Proof.
  unfold ParseJWT.
  destruct (strings.Split token ".") as [|s0 [|s1 [|s2 [|s3 rest]]]];
    try reflexivity.
  destruct (base64.DecodeString s0) as [headerBytes|]; [| reflexivity].
  destruct (base64.DecodeString s1) as [payloadBytes|]; [| reflexivity].
  destruct (json_Unmarshal headerBytes) as [header|]; [| reflexivity].
  destruct (json_Unmarshal payloadBytes) as [payload|]; [| reflexivity].
  cbn [andb negb Header].
  now destruct (bool_decide (is_Some (header !! "alg"))).
Qed.

(** X11: the signature is not looked at.  Two tokens that differ in their
    third segment only are both refused, with the same error, or both
    accepted, with the same header and payload; the [JWT] carries the
    third segment as it stands. *)
Theorem ParseJWT_signature_unchecked
    (json_Unmarshal : string -> option (gmap string Value))
    (segment0 segment1 signature signature' : string) (strictMode : bool) :
  Forall (fun c => c <> "."%char) (bytes segment0) ->
  Forall (fun c => c <> "."%char) (bytes segment1) ->
  Forall (fun c => c <> "."%char) (bytes signature) ->
  Forall (fun c => c <> "."%char) (bytes signature') ->
  ParseJWT json_Unmarshal
    (segment0 +:+ String "." (segment1 +:+ String "." signature')) strictMode
  = match ParseJWT json_Unmarshal
            (segment0 +:+ String "." (segment1 +:+ String "." signature))
            strictMode with
    | Ok jwt => Ok {| Header := Header jwt; Payload := Payload jwt;
                      Signature := signature' |}
    | Err e => Err e
    end.
Proof.
  intros H0 H1 Hs Hs'. unfold ParseJWT.
  rewrite !Split_app, !Split_no_sep by assumption.
  destruct (base64.DecodeString segment0) as [headerBytes|]; [| reflexivity].
  destruct (base64.DecodeString segment1) as [payloadBytes|]; [| reflexivity].
  destruct (json_Unmarshal headerBytes) as [header|]; [| reflexivity].
  destruct (json_Unmarshal payloadBytes) as [payload|]; [| reflexivity].
  now destruct (strictMode && _).
Qed.

Lemma ParseJWT_signature_unchecked_witness :
  ParseJWT sample_Unmarshal
    ("eyJhbGciOiJub25lIn0" +:+ String "." ("e30" +:+ String "." "forged")) true
  = match ParseJWT sample_Unmarshal
            ("eyJhbGciOiJub25lIn0" +:+ String "." ("e30" +:+ String "." "sig"))
            true with
    | Ok jwt => Ok {| Header := Header jwt; Payload := Payload jwt;
                      Signature := "forged" |}
    | Err e => Err e
    end.
Proof.
  apply (ParseJWT_signature_unchecked sample_Unmarshal "eyJhbGciOiJub25lIn0"
           "e30" "sig" "forged" true);
    vm_compute; repeat constructor; discriminate.
Defined.

(** X12: what an accepted token is: three segments joined by dots, of
    which the first two decode (base64url, no padding) to JSON texts of
    the header and of the payload, and the third is the signature; in
    strict mode the header has an [alg] key. *)
Theorem ParseJWT_accepted
    (json_Unmarshal : string -> option (gmap string Value))
    (token : string) (strictMode : bool) (jwt : JWT) :
  ParseJWT json_Unmarshal token strictMode = Ok jwt ->
  exists segment0 segment1 headerBytes payloadBytes : string,
    token = segment0 +:+ String "." (segment1 +:+ String "." (Signature jwt)) /\
    Forall (fun c => c <> "."%char)
           (bytes segment0 ++ bytes segment1 ++ bytes (Signature jwt)) /\
    base64.DecodeString segment0 = Some headerBytes /\
    json_Unmarshal headerBytes = Some (Header jwt) /\
    base64.DecodeString segment1 = Some payloadBytes /\
    json_Unmarshal payloadBytes = Some (Payload jwt) /\
    (strictMode = true -> is_Some (Header jwt !! "alg")).
Proof.
  unfold ParseJWT. intros H.
  pose proof (Join_Split token ".") as Hjoin.
  pose proof (Split_segments token ".") as Hseg.
  destruct (strings.Split token ".") as [|s0 [|s1 [|s2 [|s3 rest]]]];
    try discriminate.
  destruct (base64.DecodeString s0) as [headerBytes|] eqn:H0; [| discriminate].
  destruct (base64.DecodeString s1) as [payloadBytes|] eqn:H1; [| discriminate].
  destruct (json_Unmarshal headerBytes) as [header|] eqn:Hh; [| discriminate].
  destruct (json_Unmarshal payloadBytes) as [payload|] eqn:Hp; [| discriminate].
  destruct (strictMode && _) eqn:Hstrict; [discriminate |].
  injection H as <-. cbn [Header Payload Signature].
  exists s0, s1, headerBytes, payloadBytes.
  apply Forall_cons in Hseg as [Hs0 Hseg].
  apply Forall_cons in Hseg as [Hs1 Hseg].
  apply Forall_cons in Hseg as [Hs2 _].
  split; [now rewrite <- Hjoin |].
  split; [rewrite !Forall_app; auto |].
  do 4 (split; [first [assumption | reflexivity] |]).
  intros ->. cbn [andb] in Hstrict. apply negb_false_iff in Hstrict.
  now apply bool_decide_eq_true in Hstrict.
Qed.

Lemma ParseJWT_accepted_witness :
  exists segment0 segment1 headerBytes payloadBytes : string,
    "eyJhbGciOiJub25lIn0.e30.sig"
    = segment0 +:+ String "." (segment1 +:+ String "."
        (Signature {| Header := alg_none; Payload := ∅; Signature := "sig" |})) /\
    Forall (fun c => c <> "."%char)
           (bytes segment0 ++ bytes segment1 ++
            bytes (Signature {| Header := alg_none; Payload := ∅;
                                Signature := "sig" |})) /\
    base64.DecodeString segment0 = Some headerBytes /\
    sample_Unmarshal headerBytes
    = Some (Header {| Header := alg_none; Payload := ∅; Signature := "sig" |}) /\
    base64.DecodeString segment1 = Some payloadBytes /\
    sample_Unmarshal payloadBytes
    = Some (Payload {| Header := alg_none; Payload := ∅; Signature := "sig" |}) /\
    (true = true ->
     is_Some (Header {| Header := alg_none; Payload := ∅; Signature := "sig" |}
              !! "alg")).
Proof.
  apply (ParseJWT_accepted sample_Unmarshal "eyJhbGciOiJub25lIn0.e30.sig" true
           {| Header := alg_none; Payload := ∅; Signature := "sig" |}).
  vm_compute. reflexivity.
Defined.

(** *** base64url: bytes outside the alphabet *)

Lemma index_of_outside (c : ascii) (alphabet : list ascii) : forall i,
  c ∉ alphabet -> base64.index_of c alphabet i = 0xFF.
Proof.
  induction alphabet as [|a alphabet IH]; intros i H; [reflexivity |].
  cbn [base64.index_of]. apply not_elem_of_cons in H as [Hc Ha].
  destruct (Ascii.eqb_spec a c); [congruence |]. now apply IH.
Qed.

Lemma sextets_outside (c : ascii) (src : list ascii) :
  c ∈ src -> c ∉ base64.encodeURL -> byteZ c <> 0x0A -> byteZ c <> 0x0D ->
  base64.sextets src = None.
Proof.
  intros Hin Hout Hlf Hcr.
  induction src as [|d src IH]; [now apply elem_of_nil in Hin |].
  cbn [base64.sextets].
  apply elem_of_cons in Hin as [<- | Hin].
  - unfold base64.decodeMap. rewrite index_of_outside by exact Hout.
    cbn [Z.eqb negb Pos.eqb].
    destruct (Z.eqb_spec (byteZ c) 0x0A); [lia |].
    destruct (Z.eqb_spec (byteZ c) 0x0D); [lia |]. reflexivity.
  - rewrite (IH Hin). destruct (negb _); [reflexivity |].
    now destruct (_ || _).
Qed.

(** X13: a byte outside the base64url alphabet, other than a carriage
    return or a line feed, in one of the first two segments makes the
    token an encoding error: the padding sign and the characters [+] and
    [/] of standard base64 among them. *)
Theorem ParseJWT_foreign_byte
    (json_Unmarshal : string -> option (gmap string Value))
    (token segment0 segment1 segment2 : string) (strictMode : bool) (c : ascii) :
  strings.Split token "." = [segment0; segment1; segment2] ->
  c ∈ bytes segment0 ++ bytes segment1 ->
  c ∉ base64.encodeURL -> byteZ c <> 0x0A -> byteZ c <> 0x0D ->
  ParseJWT json_Unmarshal token strictMode = Err ErrEncoding.
Proof.
  intros Hs Hin Hout Hlf Hcr. unfold ParseJWT. rewrite Hs.
  unfold base64.DecodeString.
  apply elem_of_app in Hin as [Hin | Hin].
  - now rewrite (sextets_outside c (bytes segment0)).
  - rewrite (sextets_outside c (bytes segment1)) by assumption.
    destruct (base64.sextets (bytes segment0)) as [ds|]; [| reflexivity].
    now destruct (base64.quanta ds).
Qed.

Lemma ParseJWT_foreign_byte_witness :
  ParseJWT sample_Unmarshal "e30=.e30.sig" false = Err ErrEncoding.
Proof.
  apply (ParseJWT_foreign_byte sample_Unmarshal "e30=.e30.sig" "e30=" "e30" "sig"
           false "="%char).
  - reflexivity.
  - vm_compute. do 3 right. left.
  - vm_compute. intros H. repeat (apply elem_of_cons in H as [H | H]; [discriminate H |]).
    now apply elem_of_nil in H.
  - vm_compute. discriminate.
  - vm_compute. discriminate.
Defined.

(** ** claims.go *)

(** *** [ExtractClaim] *)

Lemma ExtractClaim_loop_found (current : gmap string Value)
    (parts : list string) (value : Value) : forall path path',
  ExtractClaim_loop current path parts = Ok value ->
  ExtractClaim_loop current path' parts = Ok value.
Proof.
  revert current. induction parts as [|part rest IH]; intros current path path';
    cbn [ExtractClaim_loop]; [discriminate |].
  destruct (current !! part) as [v|]; [| discriminate].
  destruct rest as [|next rest]; [trivial |].
  destruct v; try discriminate. apply IH.
Qed.

(** X14: a path without a dot is one key of the document: its value is
    returned whatever it is, [nil] included, and the error names the key
    when the document has none. *)
Theorem ExtractClaim_top_level (data : gmap string Value) (key : string)
    (maxDepth : Z) :
  Forall (fun c => c <> "."%char) (bytes key) ->
  1 <= maxDepth ->
  ExtractClaim data key maxDepth
  = match data !! key with
    | Some value => Ok value
    | None => Err (ErrClaimNotFound key)
    end.
Proof.
  intros Hkey Hdepth. unfold ExtractClaim. rewrite Split_no_sep by exact Hkey.
  cbn [length ExtractClaim_loop].
  destruct (Z.gtb_spec (Z.of_nat 1) maxDepth); [lia |].
  now destruct (data !! key).
Qed.

Lemma ExtractClaim_top_level_witness :
  ExtractClaim {[ "sub" := VNil ]} "sub" 1
  = match ({[ "sub" := VNil ]} : gmap string Value) !! "sub" with
    | Some value => Ok value
    | None => Err (ErrClaimNotFound "sub")
    end.
Proof.
  apply (ExtractClaim_top_level {[ "sub" := VNil ]} "sub" 1).
  - repeat constructor; discriminate.
  - lia.
Defined.

(** X15: a path [key.rest] resolves to a value exactly when the document
    has an object under [key] in which [rest] resolves to that value,
    one level of depth being spent on the way. *)
Theorem ExtractClaim_descends (data : gmap string Value) (key rest : string)
    (maxDepth : Z) (value : Value) :
  Forall (fun c => c <> "."%char) (bytes key) ->
  ExtractClaim data (key +:+ String "." rest) maxDepth = Ok value
  <-> exists nested : gmap string Value,
        data !! key = Some (VObject nested) /\
        ExtractClaim nested rest (maxDepth - 1) = Ok value.
Proof.
  intros Hkey. unfold ExtractClaim. rewrite Split_app by exact Hkey.
  pose proof (Split_nonempty rest ".") as Hne.
  cbn [length]. rewrite Nat2Z.inj_succ.
  destruct (Z.gtb_spec (Z.succ (Z.of_nat (length (strings.Split rest ".")))) maxDepth)
    as [Hgt | Hle];
    destruct (Z.gtb_spec (Z.of_nat (length (strings.Split rest "."))) (maxDepth - 1))
      as [Hgt' | Hle'];
    try lia.
  - split; [discriminate | intros (nested & _ & H); discriminate].
  - cbn [ExtractClaim_loop].
    destruct (strings.Split rest ".") as [|next parts] eqn:E; [congruence |].
    destruct (data !! key) as [v|].
    + split.
      * destruct v; try discriminate. intros H. eexists. split; [reflexivity |].
        eapply ExtractClaim_loop_found, H.
      * intros (nested & [= ->] & H). eapply ExtractClaim_loop_found, H.
    + split; [discriminate | intros (nested & H & _); discriminate].
Qed.

Lemma ExtractClaim_descends_witness :
  ExtractClaim (nested_doc 1) ("a" +:+ String "." "a") 2 = Ok (VString "leaf")
  <-> exists nested : gmap string Value,
        nested_doc 1 !! "a" = Some (VObject nested) /\
        ExtractClaim nested "a" (2 - 1) = Ok (VString "leaf").
Proof.
  apply (ExtractClaim_descends (nested_doc 1) "a" "a" 2 (VString "leaf")).
  repeat constructor; discriminate.
Defined.

Lemma ExtractClaim_loop_errors (path : string) (e : error) :
  forall (parts : list string) (current : gmap string Value),
  ExtractClaim_loop current path parts = Err e ->
  e = ErrClaimNotFound path \/
  exists before part after,
    parts = before ++ part :: after /\ after <> [] /\ e = ErrNotAnObject part.
Proof.
  induction parts as [|part rest IH]; intros current; cbn [ExtractClaim_loop].
  - intros [= <-]. now left.
  - destruct (current !! part) as [v|]; [| intros [= <-]; now left].
    destruct rest as [|next rest]; [discriminate |].
    assert (Hhere : @Err Value (ErrNotAnObject part) = Err e ->
              e = ErrClaimNotFound path \/
              exists before part0 after,
                part :: next :: rest = before ++ part0 :: after /\
                after <> [] /\ e = ErrNotAnObject part0).
    { intros [= <-]. right. exists [], part, (next :: rest).
      repeat split; [discriminate]. }
    destruct v; try exact Hhere.
    intros H. destruct (IH _ H) as [-> | (before & part0 & after & Hp & Ha & ->)];
      [now left |].
    right. exists (part :: before), part0, after. rewrite Hp.
    repeat split; assumption.
Qed.

(** X16: the three ways [ExtractClaim] fails: the path has more segments
    than [maxDepth]; a key is missing, and the error names the whole
    path; or a segment that is not the last one leads to a value that is
    not an object, and the error names that segment. *)
Theorem ExtractClaim_errors (data : gmap string Value) (path : string)
    (maxDepth : Z) (e : error) :
  ExtractClaim data path maxDepth = Err e ->
  (e = ErrDepthExceeded maxDepth /\
   maxDepth < Z.of_nat (length (strings.Split path "."))) \/
  e = ErrClaimNotFound path \/
  (exists before part after,
     strings.Split path "." = before ++ part :: after /\ after <> [] /\
     e = ErrNotAnObject part).
Proof.
  unfold ExtractClaim.
  destruct (Z.gtb_spec (Z.of_nat (length (strings.Split path "."))) maxDepth)
    as [Hgt | Hle].
  - intros [= <-]. left. split; [reflexivity | lia].
  - intros H. right. eapply ExtractClaim_loop_errors, H.
Qed.

Lemma ExtractClaim_errors_witness :
  (ErrNotAnObject "sub" = ErrDepthExceeded 5 /\
   5 < Z.of_nat (length (strings.Split "sub.name" "."))) \/
  ErrNotAnObject "sub" = ErrClaimNotFound "sub.name" \/
  (exists before part after,
     strings.Split "sub.name" "." = before ++ part :: after /\ after <> [] /\
     ErrNotAnObject "sub" = ErrNotAnObject part).
Proof.
  apply (ExtractClaim_errors {[ "sub" := VString "1234567890" ]} "sub.name" 5
           (ErrNotAnObject "sub")).
  reflexivity.
Defined.

(** *** [ConvertClaimToString] *)

(** Induction on a value and on the elements of its arrays. *)
Lemma Value_array_ind (P : Value -> Prop) :
  P VNil -> (forall s, P (VString s)) -> (forall b, P (VBool b)) ->
  (forall f, P (VFloat f)) -> (forall n, P (VInt n)) ->
  (forall l, Forall P l -> P (VArray l)) ->
  (forall m, P (VObject m)) -> (forall rendered, P (VOther rendered)) ->
  forall v, P v.
Proof.
  intros Hnil Hstring Hbool Hfloat Hint Harray Hobject Hother.
  fix IH 1. intros [| s | b | f | n | l | m | rendered];
    [exact Hnil | apply Hstring | apply Hbool | apply Hfloat | apply Hint
    | | apply Hobject | apply Hother].
  apply Harray. induction l as [|v l IHl]; constructor; [apply IH | exact IHl].
Qed.

Lemma ConvertClaimToString_array (json_Marshal : Value -> option string)
    (strconv_FormatFloat : float -> string) (v : list Value)
    (arrayFormat : string) :
  ConvertClaimToString json_Marshal strconv_FormatFloat (VArray v) arrayFormat
  = if String.eqb arrayFormat "json" then
      match json_Marshal (VArray v) with
      | Some jsonBytes => Ok jsonBytes
      | None => Err ErrMarshalArray
      end
    else
      convert_elements
        (fun elem => ConvertClaimToString json_Marshal strconv_FormatFloat
                       elem arrayFormat) v [].
Proof.
  cbn [ConvertClaimToString]. destruct (String.eqb arrayFormat "json");
    [reflexivity |].
  match goal with
  | |- ?loop v [] = ?elements v [] =>
    enough (H : forall parts, loop v parts = elements v parts) by apply H
  end.
  induction v as [|elem v IH]; intros parts; [reflexivity |].
  cbn [convert_elements]. destruct (ConvertClaimToString _ _ elem arrayFormat);
    [apply IH | reflexivity].
Qed.

Lemma convert_elements_all (convert : Value -> result string)
    (elems : list Value) (strs : list string) :
  Forall2 (fun elem elemStr => convert elem = Ok elemStr) elems strs ->
  forall parts,
  convert_elements convert elems parts = Ok (strings.Join (parts ++ strs) ", ").
Proof.
  induction 1 as [|elem elemStr elems strs He _ IH]; intros parts;
    cbn [convert_elements].
  - now rewrite app_nil_r.
  - rewrite He, IH. now rewrite <- app_assoc.
Qed.

Lemma convert_elements_error (convert : Value -> result string)
    (elems : list Value) (e : error) : forall parts,
  convert_elements convert elems parts = Err e ->
  exists elem, elem ∈ elems /\ convert elem = Err e.
Proof.
  induction elems as [|elem elems IH]; intros parts; cbn [convert_elements];
    [discriminate |].
  destruct (convert elem) as [elemStr | err] eqn:E.
  - intros H. destruct (IH _ H) as (x & Hx & Hc). exists x.
    split; [now right | exact Hc].
  - intros [= <-]. exists elem. split; [now left | exact E].
Qed.

(** X17: unless the format is "json", an array whose elements all convert
    becomes their texts joined by a comma and a space, in their order. *)
Theorem ConvertClaimToString_joined (json_Marshal : Value -> option string)
    (strconv_FormatFloat : float -> string) (arrayFormat : string)
    (elems : list Value) (strs : list string) :
  arrayFormat <> "json" ->
  Forall2 (fun elem elemStr =>
             ConvertClaimToString json_Marshal strconv_FormatFloat elem arrayFormat
             = Ok elemStr) elems strs ->
  ConvertClaimToString json_Marshal strconv_FormatFloat (VArray elems) arrayFormat
  = Ok (strings.Join strs ", ").
Proof.
  intros Hfmt Hall. rewrite ConvertClaimToString_array.
  destruct (String.eqb_spec arrayFormat "json"); [congruence |].
  now rewrite (convert_elements_all _ _ _ Hall).
Qed.

Lemma ConvertClaimToString_joined_witness :
  ConvertClaimToString sample_Marshal sample_FormatFloat
    (VArray [VString "admin"; VBool true; VNil; VInt 7; VArray [VString "a"; VString "b"]])
    "comma"
  = Ok (strings.Join ["admin"; "true"; ""; "7"; "a, b"] ", ").
Proof.
  apply (ConvertClaimToString_joined sample_Marshal sample_FormatFloat "comma"
           [VString "admin"; VBool true; VNil; VInt 7; VArray [VString "a"; VString "b"]]
           ["admin"; "true"; ""; "7"; "a, b"]).
  - discriminate.
  - repeat constructor.
Defined.

Lemma elem_of_flat_map {A B} (f : A -> list B) (l : list A) (y : B) :
  y ∈ flat_map f l <-> exists x, x ∈ l /\ y ∈ f x.
Proof.
  induction l as [|a l IH]; cbn [flat_map].
  - split; [intros H; now apply elem_of_nil in H |].
    intros (x & H & _). now apply elem_of_nil in H.
  - rewrite elem_of_app, IH. split.
    + intros [H | (x & Hx & Hy)]; [exists a | exists x]; split;
        try assumption; [now left | now right].
    + intros (x & [-> | Hx]%elem_of_cons & Hy); [now left |].
      right. now exists x.
Qed.

Lemma convert_elements_fails (convert : Value -> result string)
    (elems : list Value) (elem : Value) (e : error) :
  elem ∈ elems -> convert elem = Err e ->
  forall parts, exists e', convert_elements convert elems parts = Err e'.
Proof.
  intros Hin He. induction elems as [|x elems IH]; intros parts;
    [now apply elem_of_nil in Hin |].
  cbn [convert_elements]. destruct (convert x) as [s | e'] eqn:E; [| now exists e'].
  apply elem_of_cons in Hin as [-> | Hin]; [congruence |]. now apply IH.
Qed.

(** X18: [ConvertClaimToString] fails exactly where [json.Marshal]
    refuses a value it is handed: with the array error when the value
    is an array, the format is "json" and the array is refused; with the
    object error when an object is refused, be it the value or, where
    arrays are taken apart (the format is not "json"), an object among
    the elements of its arrays, at any depth.  Nothing else fails. *)
Theorem ConvertClaimToString_errors (json_Marshal : Value -> option string)
    (strconv_FormatFloat : float -> string) (value : Value)
    (arrayFormat : string) (e : error) :
  ConvertClaimToString json_Marshal strconv_FormatFloat value arrayFormat = Err e
  <-> (e = ErrMarshalArray /\ arrayFormat = "json" /\
       (exists l, value = VArray l) /\ json_Marshal value = None) \/
      (e = ErrMarshalObject /\
       ((exists l, value = VArray l) -> arrayFormat <> "json") /\
       exists m, VObject m ∈ array_elements value /\
                 json_Marshal (VObject m) = None).
Proof.
  revert e.
  induction value as [| s | b | f | n | l IH | m | rendered] using Value_array_ind;
    intros e.
  1-5, 8:
    (split; [discriminate |];
     intros [(_ & _ & (l & Hl) & _) | (_ & _ & m & Hm & _)]; [discriminate |];
     cbn [array_elements] in Hm; apply list_elem_of_singleton in Hm;
     discriminate).
  - rewrite ConvertClaimToString_array.
    destruct (String.eqb_spec arrayFormat "json") as [-> | Hfmt].
    + destruct (json_Marshal (VArray l)) eqn:E.
      * split; [discriminate |].
        intros [(_ & _ & _ & H) | (_ & H & _)]; [discriminate |].
        destruct H; [now exists l | reflexivity].
      * split.
        -- intros [= <-]. left. repeat split; eauto.
        -- intros [(-> & _) | (_ & H & _)]; [reflexivity |].
           destruct H; [now exists l | reflexivity].
    + rewrite Forall_forall in IH. split.
      * intros H. apply convert_elements_error in H as (elem & Hin & He).
        apply (IH elem Hin) in He as [(_ & Hj & _) | (-> & _ & m & Hm & Hr)];
          [congruence |].
        right. split; [reflexivity |]. split; [intros _; exact Hfmt |].
        exists m. split; [| exact Hr]. cbn [array_elements]. right.
        apply elem_of_flat_map. now exists elem.
      * intros [(_ & Hj & _) | (-> & _ & m & Hm & Hr)]; [congruence |].
        cbn [array_elements] in Hm.
        apply elem_of_cons in Hm as [Hm | Hm]; [discriminate |].
        apply elem_of_flat_map in Hm as (elem & Hin & Hm).
        assert (He : ConvertClaimToString json_Marshal strconv_FormatFloat elem
                       arrayFormat = Err ErrMarshalObject).
        { apply (IH elem Hin). right. split; [reflexivity |].
          split; [intros _; exact Hfmt |]. now exists m. }
        destruct (convert_elements_fails
                    (fun elem => ConvertClaimToString json_Marshal
                                   strconv_FormatFloat elem arrayFormat)
                    l elem _ Hin He []) as [e' He'].
        rewrite He'. f_equal.
        apply convert_elements_error in He' as (elem' & Hin' & He').
        apply (IH elem' Hin') in He' as [(_ & Hj & _) | (-> & _)];
          [congruence | reflexivity].
  - cbn [ConvertClaimToString array_elements].
    destruct (json_Marshal (VObject m)) eqn:E.
    + split; [discriminate |].
      intros [(_ & _ & (l & Hl) & _) | (_ & _ & m' & Hm & Hr)]; [discriminate |].
      apply list_elem_of_singleton in Hm. injection Hm as ->. congruence.
    + split.
      * intros [= <-]. right. split; [reflexivity |].
        split; [intros (l & Hl); discriminate |].
        exists m. split; [now apply list_elem_of_singleton | exact E].
      * intros [(_ & _ & (l & Hl) & _) | (-> & _)]; [discriminate | reflexivity].
Qed.

Lemma ConvertClaimToString_errors_witness :
  (ErrMarshalObject = ErrMarshalArray /\ "comma" = "json" /\
   (exists l, VArray [VString "a"; VArray [VObject {[ "k" := VNil ]}]] = VArray l) /\
   sample_Marshal (VArray [VString "a"; VArray [VObject {[ "k" := VNil ]}]]) = None) \/
  (ErrMarshalObject = ErrMarshalObject /\
   ((exists l, VArray [VString "a"; VArray [VObject {[ "k" := VNil ]}]] = VArray l) ->
    "comma" <> "json") /\
   exists m, VObject m ∈ array_elements
                           (VArray [VString "a"; VArray [VObject {[ "k" := VNil ]}]]) /\
             sample_Marshal (VObject m) = None).
Proof.
  apply (ConvertClaimToString_errors sample_Marshal sample_FormatFloat
           (VArray [VString "a"; VArray [VObject {[ "k" := VNil ]}]]) "comma"
           ErrMarshalObject).
  vm_compute. reflexivity.
Defined.

(** ** config.go *)

Lemma validate_claims_accepts (to_lower_case : Z -> Z)
    (claims : list ClaimMapping) : forall (headerNames : gset string) (i : nat),
  validate_claims to_lower_case headerNames i claims = None
  <-> Forall (fun m => ClaimPath m <> "" /\ HeaderName m <> "" /\
                       ArrayFormat m ∈ [""; "comma"; "json"]) claims /\
      NoDup (map (fun m => strings.ToLower to_lower_case (HeaderName m)) claims) /\
      (forall m, m ∈ claims ->
         strings.ToLower to_lower_case (HeaderName m) ∉ headerNames).
Proof.
  induction claims as [|claim rest IH]; intros headerNames i.
  - cbn [validate_claims map]. split; [intros _ | reflexivity].
    repeat split; [constructor | constructor |].
    intros m Hm. now apply elem_of_nil in Hm.
  - cbn [validate_claims map]. rewrite Forall_cons, NoDup_cons.
    destruct (String.eqb_spec (ClaimPath claim) "") as [Hp | Hp];
      [split; [discriminate | tauto] |].
    destruct (String.eqb_spec (HeaderName claim) "") as [Hn | Hn];
      [split; [discriminate | tauto] |].
    assert (Hfmt : negb (String.eqb (ArrayFormat claim) "")
                   && negb (String.eqb (ArrayFormat claim) "comma")
                   && negb (String.eqb (ArrayFormat claim) "json") = false
                   <-> ArrayFormat claim ∈ [""; "comma"; "json"]).
    { rewrite !elem_of_cons, elem_of_nil.
      destruct (String.eqb_spec (ArrayFormat claim) "");
        destruct (String.eqb_spec (ArrayFormat claim) "comma");
        destruct (String.eqb_spec (ArrayFormat claim) "json");
        cbn [negb andb]; intuition congruence. }
    destruct (negb _ && negb _ && negb _).
    { split; [discriminate |]. intros (((_ & _ & Hf) & _) & _).
      apply Hfmt in Hf. discriminate. }
    assert (Hf : ArrayFormat claim ∈ [""; "comma"; "json"]) by now apply Hfmt.
    destruct (bool_decide_reflect
                (strings.ToLower to_lower_case (HeaderName claim) ∈ headerNames))
      as [Hseen | Hnew].
    { split; [discriminate |]. intros (_ & _ & Hfresh).
      destruct (Hfresh claim); [now left | exact Hseen]. }
    rewrite IH. split.
    + intros (Hall & Hnd & Hfresh). repeat split; try assumption.
      * intros Hin. apply list_elem_of_fmap in Hin as (m & Hm & Hin).
        apply (Hfresh m Hin). rewrite <- Hm. apply elem_of_union. left.
        now apply elem_of_singleton.
      * intros m [-> | Hm]%elem_of_cons; [exact Hnew |].
        intros Hin. apply (Hfresh m Hm). apply elem_of_union. now right.
    + intros ((_ & Hall) & (Hnotin & Hnd) & Hfresh). repeat split; try assumption.
      intros m Hm [Heq%elem_of_singleton | Hin]%elem_of_union.
      * apply Hnotin. rewrite <- Heq. apply list_elem_of_fmap. now exists m.
      * apply (Hfresh m); [now right | exact Hin].
Qed.

Lemma validate_sections_accepts (sections : list string) :
  validate_sections sections = None
  <-> Forall (fun section => section ∈ ["header"; "payload"]) sections.
Proof.
  induction sections as [|section rest IH]; cbn [validate_sections].
  - split; [constructor | reflexivity].
  - rewrite Forall_cons, !elem_of_cons, elem_of_nil.
    destruct (String.eqb_spec section "header");
      destruct (String.eqb_spec section "payload"); cbn [negb andb];
      rewrite ?IH; intuition congruence.
Qed.

(** X19: the configurations [Validate] accepts are those with at least
    one claim mapping, each of a claim path, a header name and an array
    format that is empty, "comma" or "json", no two of them for header
    names equal in lower case; at least one section, each "header" or
    "payload"; both ceilings positive; and a log level that is empty,
    "debug", "info", "warn" or "error". *)
Theorem Validate_accepts (to_lower_case : Z -> Z) (c : Config) :
  Validate to_lower_case c = None
  <-> Claims c <> [] /\
      Forall (fun m => ClaimPath m <> "" /\ HeaderName m <> "" /\
                       ArrayFormat m ∈ [""; "comma"; "json"]) (Claims c) /\
      NoDup (map (fun m => strings.ToLower to_lower_case (HeaderName m))
                 (Claims c)) /\
      Sections c <> [] /\
      Forall (fun section => section ∈ ["header"; "payload"]) (Sections c) /\
      0 < MaxClaimDepth c /\ 0 < MaxHeaderSize c /\
      LogLevel c ∈ [""; "debug"; "info"; "warn"; "error"].
Proof.
  unfold Validate.
  destruct (Claims c) as [|claim claims] eqn:Hclaims;
    [split; [discriminate | tauto] |].
  cbn [length Nat.eqb]. rewrite <- Hclaims.
  pose proof (validate_claims_accepts to_lower_case (Claims c) ∅ 0) as Hvc.
  destruct (validate_claims to_lower_case ∅ 0 (Claims c)) as [err|].
  { split; [discriminate |]. intros (_ & Hall & Hnd & _).
    assert (Some err = None); [| discriminate].
    apply Hvc. repeat split; try assumption. intros m _. apply not_elem_of_empty. }
  destruct (proj1 Hvc eq_refl) as (Hall & Hnd & _).
  destruct (Sections c) as [|section sections] eqn:Hsections;
    [split; [discriminate | tauto] |].
  cbn [length Nat.eqb]. rewrite <- Hsections.
  pose proof (validate_sections_accepts (Sections c)) as Hvs.
  destruct (validate_sections (Sections c)) as [err|].
  { split; [discriminate |]. intros (_ & _ & _ & _ & Hs & _).
    assert (Some err = None); [| discriminate]. now apply Hvs. }
  pose proof (proj1 Hvs eq_refl) as Hs.
  destruct (Z.leb_spec (MaxClaimDepth c) 0) as [Hd | Hd];
    [split; [discriminate | lia] |].
  destruct (Z.leb_spec (MaxHeaderSize c) 0) as [Hz | Hz];
    [split; [discriminate | lia] |].
  assert (Hlevel : negb (String.eqb (LogLevel c) "")
                   && negb (existsb (String.eqb (LogLevel c))
                                    ["debug"; "info"; "warn"; "error"]) = false
                   <-> LogLevel c ∈ [""; "debug"; "info"; "warn"; "error"]).
  { rewrite !elem_of_cons, elem_of_nil. cbn [existsb].
    destruct (String.eqb_spec (LogLevel c) "");
      destruct (String.eqb_spec (LogLevel c) "debug");
      destruct (String.eqb_spec (LogLevel c) "info");
      destruct (String.eqb_spec (LogLevel c) "warn");
      destruct (String.eqb_spec (LogLevel c) "error");
      cbn [negb andb orb]; intuition congruence. }
  assert (Hne : Claims c <> [] /\ Sections c <> [])
    by (rewrite Hclaims, Hsections; split; discriminate).
  destruct (negb _ && negb _).
  - split; [discriminate |]. intros (_ & _ & _ & _ & _ & _ & _ & Hl).
    apply Hlevel in Hl. discriminate.
  - split; [intros _ | reflexivity].
    repeat split; try tauto; assumption.
Qed.

(** X20: the defaults of [CreateConfig] lack nothing but claim mappings:
    with mappings that pass the checks of [Validate] put in, [New]
    accepts the configuration. *)
Theorem CreateConfig_claims (to_lower_case : Z -> Z)
    (claims : list ClaimMapping) :
  claims <> [] ->
  Forall (fun m => ClaimPath m <> "" /\ HeaderName m <> "" /\
                   ArrayFormat m ∈ [""; "comma"; "json"]) claims ->
  NoDup (map (fun m => strings.ToLower to_lower_case (HeaderName m)) claims) ->
  let config :=
    {| SourceHeader := SourceHeader CreateConfig;
       TokenPrefix := TokenPrefix CreateConfig;
       Claims := claims;
       Sections := Sections CreateConfig;
       ContinueOnError := ContinueOnError CreateConfig;
       RemoveSourceHeader := RemoveSourceHeader CreateConfig;
       MaxClaimDepth := MaxClaimDepth CreateConfig;
       MaxHeaderSize := MaxHeaderSize CreateConfig;
       LogLevel := LogLevel CreateConfig;
       StrictMode := StrictMode CreateConfig;
       LogMissingClaims := LogMissingClaims CreateConfig |} in
  New to_lower_case config = Ok config.
Proof.
  intros Hne Hall Hnd config. unfold New, Validate.
  cbn [Claims Sections MaxClaimDepth MaxHeaderSize LogLevel config CreateConfig].
  destruct claims as [|claim claims]; [congruence |].
  cbn [length Nat.eqb].
  assert (Hvc : validate_claims to_lower_case ∅ 0 (claim :: claims) = None).
  { apply validate_claims_accepts. repeat split; try assumption.
    intros m _. apply not_elem_of_empty. }
  rewrite Hvc. reflexivity.
Qed.

Lemma CreateConfig_claims_witness :
  let config :=
    {| SourceHeader := SourceHeader CreateConfig;
       TokenPrefix := TokenPrefix CreateConfig;
       Claims := Claims fail_closed_config;
       Sections := Sections CreateConfig;
       ContinueOnError := ContinueOnError CreateConfig;
       RemoveSourceHeader := RemoveSourceHeader CreateConfig;
       MaxClaimDepth := MaxClaimDepth CreateConfig;
       MaxHeaderSize := MaxHeaderSize CreateConfig;
       LogLevel := LogLevel CreateConfig;
       StrictMode := StrictMode CreateConfig;
       LogMissingClaims := LogMissingClaims CreateConfig |} in
  New (fun r => r) config = Ok config.
Proof.
  apply (CreateConfig_claims (fun r => r) (Claims fail_closed_config)).
  - discriminate.
  - repeat constructor; discriminate.
  - repeat constructor. apply not_elem_of_nil.
Defined.

(** ** The handler *)

Section Handler.

Variable to_lower_case : Z -> Z.
Variable json_Marshal : Value -> option string.
Variable strconv_FormatFloat : float -> string.

Local Abbreviation process := (process_mapping to_lower_case json_Marshal strconv_FormatFloat).

Lemma process_mapping_other_entry (cfg : Config) (jwt : JWT)
    (req : http.Request) (m : ClaimMapping) (key : string) :
  key <> textproto.CanonicalMIMEHeaderKey (HeaderName m) ->
  http.Header_ (process cfg jwt req m) !! key = http.Header_ req !! key.
Proof.
  intros Hkey. unfold process_mapping.
  destruct (find_claim _ _ _ _); [| reflexivity].
  destruct (ConvertClaimToString _ _ _ _); [| reflexivity].
  now apply InjectHeader_other_entry.
Qed.

Lemma process_mapping_Host (cfg : Config) (jwt : JWT) (req : http.Request)
    (m : ClaimMapping) :
  http.Host (process cfg jwt req m) = http.Host req.
Proof.
  unfold process_mapping.
  destruct (find_claim _ _ _ _); [| reflexivity].
  destruct (ConvertClaimToString _ _ _ _); [| reflexivity].
  apply InjectHeader_Host.
Qed.

Lemma process_mapping_protected_entry (cfg : Config) (jwt : JWT)
    (req : http.Request) (m : ClaimMapping) (other : string) :
  IsProtectedHeader to_lower_case other = true ->
  http.Header_ (process cfg jwt req m) !! textproto.CanonicalMIMEHeaderKey other
  = http.Header_ req !! textproto.CanonicalMIMEHeaderKey other.
Proof.
  intros Hother. unfold process_mapping.
  destruct (find_claim _ _ _ _); [| reflexivity].
  destruct (ConvertClaimToString _ _ _ _); [| reflexivity].
  now apply InjectHeader_protected_entry.
Qed.

Lemma mappings_other_entry (cfg : Config) (jwt : JWT) (key : string)
    (claims : list ClaimMapping) : forall req : http.Request,
  Forall (fun m => key <> textproto.CanonicalMIMEHeaderKey (HeaderName m)) claims ->
  http.Header_ (fold_left (process cfg jwt) claims req) !! key
  = http.Header_ req !! key.
Proof.
  induction claims as [|m claims IH]; intros req Hall; [reflexivity |].
  apply Forall_cons in Hall as [Hm Hall]. cbn [fold_left].
  rewrite IH by exact Hall. now apply process_mapping_other_entry.
Qed.

Lemma mappings_Host (cfg : Config) (jwt : JWT) (claims : list ClaimMapping) :
  forall req : http.Request,
  http.Host (fold_left (process cfg jwt) claims req) = http.Host req.
Proof.
  induction claims as [|m claims IH]; intros req; [reflexivity |].
  cbn [fold_left]. rewrite IH. apply process_mapping_Host.
Qed.

Lemma mappings_protected_entry (cfg : Config) (jwt : JWT) (other : string)
    (claims : list ClaimMapping) : forall req : http.Request,
  IsProtectedHeader to_lower_case other = true ->
  http.Header_ (fold_left (process cfg jwt) claims req)
    !! textproto.CanonicalMIMEHeaderKey other
  = http.Header_ req !! textproto.CanonicalMIMEHeaderKey other.
Proof.
  induction claims as [|m claims IH]; intros req Hother; [reflexivity |].
  cbn [fold_left]. rewrite IH by exact Hother.
  now apply process_mapping_protected_entry.
Qed.

End Handler.

Lemma Validate_NoDup (to_lower_case : Z -> Z) (cfg : Config) :
  Validate to_lower_case cfg = None ->
  NoDup (map (fun m => strings.ToLower to_lower_case (HeaderName m)) (Claims cfg)).
Proof.
  unfold Validate. destruct (length (Claims cfg) =? 0)%nat; [discriminate |].
  destruct (validate_claims to_lower_case ∅ 0 (Claims cfg)) eqn:E;
    [discriminate |].
  intros _. now apply validate_claims_accepts in E as (_ & Hnd & _).
Qed.

Lemma NoDup_canonical (to_lower_case : Z -> Z) (before after : list ClaimMapping)
    (m : ClaimMapping) :
  NoDup (map (fun m => strings.ToLower to_lower_case (HeaderName m))
             (before ++ m :: after)) ->
  Forall (fun m' => textproto.CanonicalMIMEHeaderKey (HeaderName m)
                    <> textproto.CanonicalMIMEHeaderKey (HeaderName m'))
         (before ++ after).
Proof.
  rewrite map_app. cbn [map]. intros Hnd.
  apply NoDup_app in Hnd as (_ & Hdisjoint & Hnd).
  apply NoDup_cons in Hnd as [Hnotin _].
  apply Forall_app. split; apply Forall_forall; intros m' Hm' Heq;
    apply (ToLower_canonical to_lower_case) in Heq.
  - apply (Hdisjoint (strings.ToLower to_lower_case (HeaderName m'))).
    + apply list_elem_of_fmap. now exists m'.
    + rewrite <- Heq. now left.
  - apply Hnotin. rewrite Heq. apply list_elem_of_fmap. now exists m'.
Qed.

(** X21: with [ContinueOnError] on, a request without the source header,
    or with a token that does not parse, is handed to the next handler
    as it came: with no header added, and with its source header, even
    where [RemoveSourceHeader] is set. *)
Theorem ServeHTTP_fail_open (to_lower_case : Z -> Z)
    (json_Unmarshal : string -> option (gmap string Value))
    (json_Marshal : Value -> option string)
    (strconv_FormatFloat : float -> string)
    (cfg : Config) (rw : http.ResponseWriter) (req : http.Request) :
  ContinueOnError cfg = true ->
  http.Get (http.Header_ req) (SourceHeader cfg) = "" \/
  is_ok (ParseJWT json_Unmarshal
           (ExtractToken (http.Get (http.Header_ req) (SourceHeader cfg))
                         (TokenPrefix cfg))
           false) = false ->
  ServeHTTP to_lower_case json_Unmarshal json_Marshal strconv_FormatFloat
            cfg rw req
  = Forwarded req.
Proof.
  intros Hmode Hfail. unfold ServeHTTP. rewrite Hmode.
  destruct (String.eqb_spec (http.Get (http.Header_ req) (SourceHeader cfg)) "")
    as [Hempty | Hpresent]; [reflexivity |].
  destruct Hfail as [Hempty | Hparse]; [congruence |].
  now destruct (ParseJWT _ _ _).
Qed.

Lemma ServeHTTP_fail_open_witness :
  ServeHTTP (fun r => r) sample_Unmarshal sample_Marshal sample_FormatFloat
            removing_config http.newResponseWriter
            {| http.Host := "example.com";
               http.Header_ := {[ "Authorization" := ["Bearer e30.e30"] ]} |}
  = Forwarded
      {| http.Host := "example.com";
         http.Header_ := {[ "Authorization" := ["Bearer e30.e30"] ]} |}.
Proof.
  apply (ServeHTTP_fail_open (fun r => r) sample_Unmarshal sample_Marshal
           sample_FormatFloat removing_config http.newResponseWriter).
  - reflexivity.
  - right. vm_compute. reflexivity.
Defined.

(** The handler does not read [StrictMode]: under a configuration that
    sets it, a token whose header has no [alg] field parses all the
    same, and the request goes on without its source header. *)
Example ServeHTTP_no_strict_mode :
  StrictMode removing_config = true /\
  ServeHTTP (fun r => r) sample_Unmarshal sample_Marshal sample_FormatFloat
            removing_config http.newResponseWriter
            {| http.Host := "example.com";
               http.Header_ := {[ "Authorization" := ["Bearer e30.e30.sig"] ]} |}
  = Forwarded {| http.Host := "example.com"; http.Header_ := ∅ |}.
Proof. split; [reflexivity |]. vm_compute. reflexivity. Qed.

(** X22: the handler refuses a request in one case only: [ContinueOnError]
    is off and the source header is missing or its token does not parse.
    The response is then a 401 of content type JSON, and the request is
    untouched. *)
Theorem ServeHTTP_rejected (to_lower_case : Z -> Z)
    (json_Unmarshal : string -> option (gmap string Value))
    (json_Marshal : Value -> option string)
    (strconv_FormatFloat : float -> string)
    (cfg : Config) (rw : http.ResponseWriter) (req req' : http.Request)
    (rw' : http.ResponseWriter) :
  ServeHTTP to_lower_case json_Unmarshal json_Marshal strconv_FormatFloat
            cfg rw req
  = Rejected req' rw' ->
  ContinueOnError cfg = false /\
  req' = req /\
  (http.Get (http.Header_ req) (SourceHeader cfg) = "" \/
   is_ok (ParseJWT json_Unmarshal
            (ExtractToken (http.Get (http.Header_ req) (SourceHeader cfg))
                          (TokenPrefix cfg))
            false) = false) /\
  http.rwStatus rw' = Some 401 /\
  http.Get (http.rwHeader rw') "Content-Type" = "application/json".
Proof.
  unfold ServeHTTP.
  assert (Hct : forall errorType message,
            http.Get (http.rwHeader (returnError rw errorType message))
                     "Content-Type" = "application/json").
  { intros. cbn [returnError http.rwHeader]. unfold http.Get, http.Set_.
    now rewrite lookup_insert_eq. }
  destruct (String.eqb_spec (http.Get (http.Header_ req) (SourceHeader cfg)) "")
    as [Hempty | Hpresent].
  - destruct (ContinueOnError cfg); [discriminate |].
    intros [= <- <-]. repeat split; auto.
  - destruct (ParseJWT _ _ _) as [jwt | e]; [discriminate |].
    destruct (ContinueOnError cfg); [discriminate |].
    intros [= <- <-]. repeat split; auto.
Qed.

Lemma ServeHTTP_rejected_witness :
  ContinueOnError fail_closed_config = false /\
  sample_request = sample_request /\
  (http.Get (http.Header_ sample_request) (SourceHeader fail_closed_config) = "" \/
   is_ok (ParseJWT sample_Unmarshal
            (ExtractToken (http.Get (http.Header_ sample_request)
                                    (SourceHeader fail_closed_config))
                          (TokenPrefix fail_closed_config))
            false) = false) /\
  http.rwStatus (returnError http.newResponseWriter "unauthorized"
                   "missing JWT token") = Some 401 /\
  http.Get (http.rwHeader (returnError http.newResponseWriter "unauthorized"
                             "missing JWT token")) "Content-Type"
  = "application/json".
Proof.
  apply (ServeHTTP_rejected (fun r => r) sample_Unmarshal sample_Marshal
           sample_FormatFloat fail_closed_config http.newResponseWriter
           sample_request sample_request
           (returnError http.newResponseWriter "unauthorized" "missing JWT token")).
  vm_compute. reflexivity.
Defined.

(** X23: a request whose token parses is always forwarded, whatever comes
    of the mappings; its [Host] is the one it came with, and so is every
    header entry other than those of the source header and of the header
    names of the mappings. *)
Theorem ServeHTTP_frame (to_lower_case : Z -> Z)
    (json_Unmarshal : string -> option (gmap string Value))
    (json_Marshal : Value -> option string)
    (strconv_FormatFloat : float -> string)
    (cfg : Config) (rw : http.ResponseWriter) (req : http.Request) (jwt : JWT) :
  http.Get (http.Header_ req) (SourceHeader cfg) <> "" ->
  ParseJWT json_Unmarshal
    (ExtractToken (http.Get (http.Header_ req) (SourceHeader cfg))
                  (TokenPrefix cfg))
    false = Ok jwt ->
  exists req' : http.Request,
    ServeHTTP to_lower_case json_Unmarshal json_Marshal strconv_FormatFloat
              cfg rw req
    = Forwarded req' /\
    http.Host req' = http.Host req /\
    (forall key : string,
       key <> textproto.CanonicalMIMEHeaderKey (SourceHeader cfg) ->
       Forall (fun m => key <> textproto.CanonicalMIMEHeaderKey (HeaderName m))
              (Claims cfg) ->
       http.Header_ req' !! key = http.Header_ req !! key).
Proof.
  intros Hpresent Hparse. unfold ServeHTTP.
  destruct (String.eqb_spec (http.Get (http.Header_ req) (SourceHeader cfg)) "");
    [congruence |].
  rewrite Hparse. eexists. split; [reflexivity |].
  destruct (RemoveSourceHeader cfg); cbn [http.Host http.Header_].
  - split; [apply mappings_Host |]. intros key Hsource Hclaims.
    unfold http.Del. rewrite lookup_delete_ne by congruence.
    now apply mappings_other_entry.
  - split; [apply mappings_Host |]. intros key _ Hclaims.
    now apply mappings_other_entry.
Qed.

Lemma ServeHTTP_frame_witness :
  exists req' : http.Request,
    ServeHTTP (fun r => r) sample_Unmarshal sample_Marshal sample_FormatFloat
              removing_config http.newResponseWriter bearer_request
    = Forwarded req' /\
    http.Host req' = http.Host bearer_request /\
    (forall key : string,
       key <> textproto.CanonicalMIMEHeaderKey (SourceHeader removing_config) ->
       Forall (fun m => key <> textproto.CanonicalMIMEHeaderKey (HeaderName m))
              (Claims removing_config) ->
       http.Header_ req' !! key = http.Header_ bearer_request !! key).
Proof.
  apply (ServeHTTP_frame (fun r => r) sample_Unmarshal sample_Marshal
           sample_FormatFloat removing_config http.newResponseWriter
           bearer_request
           {| Header := {[ "alg" := VString "HS256"; "typ" := VString "JWT" ]};
              Payload := {[ "sub" := VString "1234567890" ]};
              Signature := "sig" |}).
  - vm_compute. discriminate.
  - vm_compute. reflexivity.
Defined.

(** X24: nothing the handler does changes a protected header or [Host]:
    in the request it forwards, and in the one it refuses, each has the
    value it came with.  The one exception is the source header itself,
    when it is a protected one and [RemoveSourceHeader] is set. *)
Theorem ServeHTTP_keeps_protected (to_lower_case : Z -> Z)
    (json_Unmarshal : string -> option (gmap string Value))
    (json_Marshal : Value -> option string)
    (strconv_FormatFloat : float -> string)
    (cfg : Config) (rw : http.ResponseWriter) (req : http.Request)
    (other : string) :
  IsProtectedHeader to_lower_case other = true ->
  RemoveSourceHeader cfg = false \/
  textproto.CanonicalMIMEHeaderKey other
  <> textproto.CanonicalMIMEHeaderKey (SourceHeader cfg) ->
  match ServeHTTP to_lower_case json_Unmarshal json_Marshal strconv_FormatFloat
                  cfg rw req with
  | Forwarded req' | Rejected req' _ =>
    http.Host req' = http.Host req /\
    http.Get (http.Header_ req') other = http.Get (http.Header_ req) other
  end.
Proof.
  intros Hother Hsource. unfold ServeHTTP.
  destruct (String.eqb (http.Get (http.Header_ req) (SourceHeader cfg)) "").
  { now destruct (ContinueOnError cfg). }
  destruct (ParseJWT _ _ _) as [jwt | e].
  2: { now destruct (ContinueOnError cfg). }
  assert (Hkept : http.Header_
                    (fold_left (process_mapping to_lower_case json_Marshal
                                  strconv_FormatFloat cfg jwt) (Claims cfg) req)
                    !! textproto.CanonicalMIMEHeaderKey other
                  = http.Header_ req !! textproto.CanonicalMIMEHeaderKey other)
    by now apply mappings_protected_entry.
  destruct (RemoveSourceHeader cfg); cbn [http.Host http.Header_].
  - destruct Hsource as [Hoff | Hne]; [discriminate |].
    split; [apply mappings_Host |]. unfold http.Get, http.Del.
    now rewrite lookup_delete_ne, Hkept by congruence.
  - split; [apply mappings_Host |]. unfold http.Get. now rewrite Hkept.
Qed.

Lemma ServeHTTP_keeps_protected_witness :
  match ServeHTTP (fun r => r) sample_Unmarshal sample_Marshal sample_FormatFloat
                  removing_config http.newResponseWriter bearer_request with
  | Forwarded req' | Rejected req' _ =>
    http.Host req' = http.Host bearer_request /\
    http.Get (http.Header_ req') "x-forwarded-for"
    = http.Get (http.Header_ bearer_request) "x-forwarded-for"
  end.
Proof.
  apply (ServeHTTP_keeps_protected (fun r => r) sample_Unmarshal sample_Marshal
           sample_FormatFloat removing_config http.newResponseWriter
           bearer_request "x-forwarded-for").
  - vm_compute. reflexivity.
  - right. vm_compute. discriminate.
Defined.

(** X25: with [RemoveSourceHeader] set, a request whose token parses is
    forwarded without its source header. *)
Theorem ServeHTTP_removes_source (to_lower_case : Z -> Z)
    (json_Unmarshal : string -> option (gmap string Value))
    (json_Marshal : Value -> option string)
    (strconv_FormatFloat : float -> string)
    (cfg : Config) (rw : http.ResponseWriter) (req : http.Request) (jwt : JWT) :
  RemoveSourceHeader cfg = true ->
  http.Get (http.Header_ req) (SourceHeader cfg) <> "" ->
  ParseJWT json_Unmarshal
    (ExtractToken (http.Get (http.Header_ req) (SourceHeader cfg))
                  (TokenPrefix cfg))
    false = Ok jwt ->
  exists req' : http.Request,
    ServeHTTP to_lower_case json_Unmarshal json_Marshal strconv_FormatFloat
              cfg rw req
    = Forwarded req' /\
    http.Header_ req' !! textproto.CanonicalMIMEHeaderKey (SourceHeader cfg) = None /\
    http.Get (http.Header_ req') (SourceHeader cfg) = "".
Proof.
  intros Hremove Hpresent Hparse. unfold ServeHTTP.
  destruct (String.eqb_spec (http.Get (http.Header_ req) (SourceHeader cfg)) "");
    [congruence |].
  rewrite Hparse, Hremove. eexists. split; [reflexivity |].
  cbn [http.Header_]. unfold http.Get, http.Del.
  now rewrite lookup_delete_eq.
Qed.

Lemma ServeHTTP_removes_source_witness :
  exists req' : http.Request,
    ServeHTTP (fun r => r) sample_Unmarshal sample_Marshal sample_FormatFloat
              removing_config http.newResponseWriter bearer_request
    = Forwarded req' /\
    http.Header_ req'
      !! textproto.CanonicalMIMEHeaderKey (SourceHeader removing_config) = None /\
    http.Get (http.Header_ req') (SourceHeader removing_config) = "".
Proof.
  apply (ServeHTTP_removes_source (fun r => r) sample_Unmarshal sample_Marshal
           sample_FormatFloat removing_config http.newResponseWriter
           bearer_request
           {| Header := {[ "alg" := VString "HS256"; "typ" := VString "JWT" ]};
              Payload := {[ "sub" := VString "1234567890" ]};
              Signature := "sig" |}).
  - reflexivity.
  - vm_compute. discriminate.
  - vm_compute. reflexivity.
Defined.

Lemma find_claim_section_data (cfg : Config) (jwt : JWT) (path : string)
    (section : string) (rest : list string) :
  find_claim cfg jwt path (section :: rest)
  = match ExtractClaim (section_data jwt section) path (MaxClaimDepth cfg) with
    | Ok value => Some value
    | Err _ => find_claim cfg jwt path rest
    end.
Proof. reflexivity. Qed.

(** X26: the sections are searched in the order the configuration lists
    them, and the first one in which the path resolves gives the value:
    listed first, the payload hides a header field of the same path. *)
Theorem find_claim_first (cfg : Config) (jwt : JWT) (path : string)
    (sections : list string) (value : Value) :
  find_claim cfg jwt path sections = Some value
  <-> exists before section after,
        sections = before ++ section :: after /\
        Forall (fun s => is_ok (ExtractClaim (section_data jwt s) path
                                  (MaxClaimDepth cfg)) = false) before /\
        ExtractClaim (section_data jwt section) path (MaxClaimDepth cfg)
        = Ok value.
Proof.
  induction sections as [|s sections IH].
  - split; [discriminate |]. intros (before & section & after & H & _).
    now destruct before.
  - rewrite find_claim_section_data.
    destruct (ExtractClaim (section_data jwt s) path (MaxClaimDepth cfg))
      as [v | e] eqn:E.
    + split.
      * intros [= ->]. exists [], s, sections. repeat split; [constructor | exact E].
      * intros (before & section & after & Hs & Hbefore & Hfound).
        destruct before as [|b before].
        -- injection Hs as <- _. congruence.
        -- injection Hs as <- _. apply Forall_inv in Hbefore.
           rewrite E in Hbefore. discriminate.
    + rewrite IH. split.
      * intros (before & section & after & -> & Hbefore & Hfound).
        exists (s :: before), section, after. repeat split; [| exact Hfound].
        constructor; [now rewrite E | exact Hbefore].
      * intros (before & section & after & Hs & Hbefore & Hfound).
        destruct before as [|b before].
        -- injection Hs as <- _. congruence.
        -- injection Hs as _ ->. apply Forall_cons in Hbefore as [_ Hbefore].
           now exists before, section, after.
Qed.

(** X27: a claim that is found makes it into the request: for a validated
    configuration and a token that parses, a mapping whose claim
    resolves and converts to a text within the size limit, for a header
    that is not protected and is absent or may be overridden, has the
    request forwarded with that header set to the sanitized text. *)
Theorem ServeHTTP_injects_claim (to_lower_case : Z -> Z)
    (json_Unmarshal : string -> option (gmap string Value))
    (json_Marshal : Value -> option string)
    (strconv_FormatFloat : float -> string)
    (cfg : Config) (rw : http.ResponseWriter) (req : http.Request) (jwt : JWT)
    (m : ClaimMapping) (value : Value) (strValue sanitized : string) :
  Validate to_lower_case cfg = None ->
  http.Get (http.Header_ req) (SourceHeader cfg) <> "" ->
  ParseJWT json_Unmarshal
    (ExtractToken (http.Get (http.Header_ req) (SourceHeader cfg))
                  (TokenPrefix cfg))
    false = Ok jwt ->
  m ∈ Claims cfg ->
  find_claim cfg jwt (ClaimPath m) (Sections cfg) = Some value ->
  ConvertClaimToString json_Marshal strconv_FormatFloat value (ArrayFormat m)
  = Ok strValue ->
  SanitizeHeaderValue strValue (MaxHeaderSize cfg) = Ok sanitized ->
  IsProtectedHeader to_lower_case (HeaderName m) = false ->
  http.Get (http.Header_ req) (HeaderName m) = "" \/ Override m = true ->
  RemoveSourceHeader cfg = false \/
  textproto.CanonicalMIMEHeaderKey (HeaderName m)
  <> textproto.CanonicalMIMEHeaderKey (SourceHeader cfg) ->
  exists req' : http.Request,
    ServeHTTP to_lower_case json_Unmarshal json_Marshal strconv_FormatFloat
              cfg rw req
    = Forwarded req' /\
    http.Get (http.Header_ req') (HeaderName m) = sanitized.
Proof.
  intros Hvalid Hpresent Hparse Hm Hfound Hconv Hsan Hname Hfree Hsource.
  apply Validate_NoDup in Hvalid.
  apply list_elem_of_split in Hm as (before & after & Hclaims).
  rewrite Hclaims in Hvalid.
  apply NoDup_canonical, Forall_app in Hvalid as [Hbefore Hafter].
  unfold ServeHTTP.
  destruct (String.eqb_spec (http.Get (http.Header_ req) (SourceHeader cfg)) "");
    [congruence |].
  rewrite Hparse, Hclaims, fold_left_app. cbn [fold_left].
  eexists. split; [reflexivity |].
  set (process := process_mapping to_lower_case json_Marshal strconv_FormatFloat
                    cfg jwt).
  set (req1 := fold_left process before req).
  assert (H1 : http.Header_ req1
               !! textproto.CanonicalMIMEHeaderKey (HeaderName m)
               = http.Header_ req
                 !! textproto.CanonicalMIMEHeaderKey (HeaderName m))
    by now apply mappings_other_entry.
  assert (H2 : http.Header_ (process req1 m)
               !! textproto.CanonicalMIMEHeaderKey (HeaderName m)
               = Some [sanitized]).
  { unfold process, process_mapping. rewrite Hfound, Hconv.
    unfold InjectHeader. rewrite Hname, Hsan.
    assert (Hcond : negb (String.eqb (http.Get (http.Header_ req1) (HeaderName m)) "")
                    && negb (Override m) = false).
    { destruct Hfree as [Hempty | ->]; [| apply andb_false_r].
      assert (Hget : http.Get (http.Header_ req1) (HeaderName m)
                     = http.Get (http.Header_ req) (HeaderName m))
        by (unfold http.Get; now rewrite H1).
      now rewrite Hget, Hempty. }
    rewrite Hcond. cbn [fst http.Header_]. unfold http.Set_.
    apply lookup_insert_eq. }
  assert (H3 : http.Header_ (fold_left process after (process req1 m))
               !! textproto.CanonicalMIMEHeaderKey (HeaderName m)
               = Some [sanitized]).
  { unfold process at 1. rewrite mappings_other_entry by exact Hafter.
    exact H2. }
  destruct (RemoveSourceHeader cfg); cbn [http.Header_].
  - destruct Hsource as [Hoff | Hne]; [discriminate |].
    unfold http.Get, http.Del. now rewrite lookup_delete_ne, H3 by congruence.
  - unfold http.Get. now rewrite H3.
Qed.

Lemma ServeHTTP_injects_claim_witness :
  exists req' : http.Request,
    ServeHTTP (fun r => r) sample_Unmarshal sample_Marshal sample_FormatFloat
              removing_config http.newResponseWriter bearer_request
    = Forwarded req' /\
    http.Get (http.Header_ req')
             (HeaderName {| ClaimPath := "sub"; HeaderName := "X-User-Id";
                            Override := true; ArrayFormat := "" |})
    = "1234567890".
Proof.
  apply (ServeHTTP_injects_claim (fun r => r) sample_Unmarshal sample_Marshal
           sample_FormatFloat removing_config http.newResponseWriter
           bearer_request
           {| Header := {[ "alg" := VString "HS256"; "typ" := VString "JWT" ]};
              Payload := {[ "sub" := VString "1234567890" ]};
              Signature := "sig" |}
           {| ClaimPath := "sub"; HeaderName := "X-User-Id";
              Override := true; ArrayFormat := "" |}
           (VString "1234567890") "1234567890" "1234567890").
  - vm_compute. reflexivity.
  - vm_compute. discriminate.
  - vm_compute. reflexivity.
  - left.
  - vm_compute. reflexivity.
  - reflexivity.
  - vm_compute. reflexivity.
  - vm_compute. reflexivity.
  - right. reflexivity.
  - right. vm_compute. discriminate.
Defined.


